(** * The round state machine of the AR "spot the animal" screen

    A shallow embedding of [ARScreen.tsx] (the React component of
    [templates/app-base/src/components/screens]) and of the revisions of
    the same component kept next to it, with the properties of the round
    loop: which selection is a success, what a spawn creates, how the
    round index and the feedback overlay evolve, what the camera set-up
    does on failure, and what the debug helpers compute.

    Conventions of the embedding.
    - React state ([useState]) and refs ([useRef]) are fields of a record
      that every handler takes and returns; a handler also returns the
      list of the calls it makes on the outside world (sounds, scene
      entities, console, timers).
    - [setTimeout] puts a task with its due time in the state; a task is
      the defunctionalised callback, carrying the values its closure
      captured.  A callback never runs before it is due and the pending
      callbacks run in the order of their due times, as a browser keeps
      them; how late one runs is not fixed, unless the page is taken to be
      [punctual].
    - Positions and [MOVE_STEP] are IEEE binary64 numbers, as JavaScript
      numbers are.  [Math.random()] results are rationals: the program only
      scales them by an array length, floors and compares them, which is
      exact on binary64.
    - Round indices are integers ([Z]); [ANIMALS[i]] is [undefined] outside
      the array.
    - React runs an effect once after a render in which one of its
      dependencies changed, and a state updater once, as a production
      build does ([React.StrictMode] repeats them in development). *)

From Stdlib Require Import ZArith QArith Qround Floats String Ascii List Bool Lia.
From stdpp Require Import base option gmap strings.
Import ListNotations.

Local Open Scope string_scope.
Local Open Scope list_scope.
Local Open Scope Z_scope.

(* 0.2 and 0.5 below denote the nearest binary64 values, as in JavaScript. *)
Set Warnings "-inexact-float".

(** ** JavaScript helpers *)

(** Truthiness of a [string | null] value: [null] and the empty string are
    falsy. *)
Definition truthy (v : option string) : bool :=
  match v with
  | Some s => negb (String.eqb s "")
  | None => false
  end.

(** [arr[i]] for a number [i] holding an integer. *)
Definition index {A : Type} (arr : list A) (i : Z) : option A :=
  if i <? 0 then None else nth_error arr (Z.to_nat i).

(** [s.startsWith(p)], [s.endsWith(p)], [s.slice(1)], [s.slice(0, -1)]. *)
Definition startsWith (p s : string) : bool := String.prefix p s.

Definition endsWith (p s : string) : bool :=
  let n := String.length s in
  let k := String.length p in
  if (n <? k)%nat then false
  else String.eqb (String.substring (n - k) k s) p.

Definition slice1 (s : string) : string :=
  String.substring 1 (String.length s - 1) s.

Definition sliceInit (s : string) : string :=
  String.substring 0 (String.length s - 1) s.

(** ASCII part of [toLowerCase]; the keys compared with below are ASCII. *)
Definition lowerAscii (c : ascii) : ascii :=
  let n := nat_of_ascii c in
  if ((65 <=? n) && (n <=? 90))%nat then ascii_of_nat (n + 32) else c.

Fixpoint toLowerCase (s : string) : string :=
  match s with
  | EmptyString => EmptyString
  | String c r => String (lowerAscii c) (toLowerCase r)
  end.

(** ** Handlers as actions

    A handler takes the state and returns the new state with the calls it
    made, oldest first. *)
Section Actions.

Context {S E : Type}.

Definition Action : Type := S -> S * list E.

Definition skip : Action := fun s => (s, []).

Definition emit (e : E) : Action := fun s => (s, [e]).

Definition andThen (a b : Action) : Action := fun s =>
  let r := a s in
  let r' := b (r.1) in
  (r'.1, r.2 ++ r'.2).

End Actions.

Arguments Action : clear implicits.

Notation "a >>> b" := (andThen a b) (at level 56, left associativity).

Module ARScreen.

(** ** Data of [ARScreen.tsx] *)

Inductive AnimalType := gato | cachorro | galinha | vaca | porco.

#[global] Instance AnimalType_eq_dec : EqDecision AnimalType.
Proof. solve_decision. Defined.

Record AnimalConfig := {
  name : AnimalType;
  topImage : string;
  arImage : string
}.

Definition ANIMALS : list AnimalConfig := [
  {| name := gato; topImage := "gatotop.png"; arImage := "Gato.png" |};
  {| name := cachorro; topImage := "cachorrotop.png"; arImage := "Cachorro.png" |};
  {| name := galinha; topImage := "galinhatop.png"; arImage := "Galinha.png" |};
  {| name := vaca; topImage := "vacatop.png"; arImage := "Vaca.png" |};
  {| name := porco; topImage := "porcotop.png"; arImage := "Porco.png" |}
].

Definition TOTAL_ROUNDS : Z := 5.

Definition MOVE_STEP : float := 0.2%float.

Definition INITIAL_ANIMAL_Z : float := (-6)%float.

Inductive Feedback := success | error.

(** [ScreenType] of [types/screens]: the screens of the navigation switch. *)
Inductive ScreenType := cover | tutorial | ar | result.

Record Vec3 := { x : float; y : float; z : float }.

(** The attribute object given to [addEntity].  [position] keeps the three
    numbers that the template literal prints separated by spaces. *)
Record EntityAttrs := {
  geometry : string;
  material : string;
  position : Vec3;
  scale : string;
  look_at : string;
  class : string;
  data_animal : AnimalType;
  animation__scale : string;
  animation__scaleback : string
}.


(** ** Calls on the outside world, timers *)

Inductive Sound := ClickSound | SuccessSound | ErrorSound.

Inductive Level := Log | Warn | Error.

(** The callbacks given to [setTimeout], each with what its closure
    captured.  [ready] is the value of [sceneReady] in the render that
    created the [spawnAnimals] the callback will call. *)
Inductive Task :=
| FadeIn (video : bool)
| FeedbackEnd (ready : bool)
| SpawnNext (nextRound : Z) (ready : bool)
| EnsureVisible (closureRound : Z) (ready : bool)
| StartFirst (closureRound : Z) (ready : bool)
| Refresh (leftEntityId rightEntityId : string) (leftName rightName : AnimalType).

Inductive Effect :=
| Console (level : Level) (msg : string)
| PlaySound (snd : Sound)
| AddEntity (attrs : EntityAttrs) (id : string)
| RemoveEntity (id : string)
| UpdateEntityPosition (id : string) (pos : Vec3)
| ShowScene
| SetRendererSize
| RenderScene
| DispatchResize
| SetDataAnimal (id : string) (name : AnimalType)
| StopTracks
| GetUserMedia
| AttachVideo (created : bool)
| VideoOpaque
| SetTimeout (delay : Z) (task : Task)
| Uncaught (what : string)
| Navigate (target : ScreenType).

(** ** State of the component *)

(** What is fixed while the screen is mounted: the [usarVideo] setting
    and the base URL; whether [arSceneRef.current] is set, whether its
    [getScene()] gives an element and whether it has the
    [updateEntityPosition] method that the handler of the keys calls with
    [?.] (the declared type of the ref has none); whether
    [navigator.mediaDevices] is defined, whether [#arjs-video] is in the
    document when the camera effect runs and whether it has a stream;
    and whether the page runs every timer callback at the very time it is
    due. *)
Record Config := {
  usarVideo : bool;
  base : string;
  arScene : bool;
  sceneEl : bool;
  canUpdatePosition : bool;
  mediaDevices : bool;
  existingVideo : bool;
  existingStream : bool;
  punctual : bool
}.

(** [useState] values. *)
Record Hooks := {
  arLoading : bool;
  isFadingIn : bool;
  currentRound : Z;
  sceneReady : bool;
  selectedAnimal : option AnimalType;
  feedbackType : option Feedback;
  isAnimating : bool
}.

(** [useRef] values: [animalEntitiesRef.current.left] and [.right],
    [correctEntityIdRef.current], [correctEntityPosRef.current]. *)
Record Refs := {
  left : option string;
  right : option string;
  correctEntityId : option string;
  correctEntityPos : Vec3
}.

Record Screen := {
  cfg : Config;
  animals : list AnimalConfig;
  hooks : Hooks;
  refs : Refs;
  cameraPending : bool;
  keydownListener : bool;
  now : Z;
  timers : list (Z * Task)
}.


(** The results of the calls whose value the program does not decide:
    the [Math.random()] of the wrong-animal pick, the one of the side, the
    ids returned by the two [addEntity] calls; and, for the callbacks that
    look at the page, whether [document.getElementById] finds the left and
    the right entity and whether the scene has a [renderer] and a
    [camera]. *)
Record Oracle := {
  randomWrong : Q;
  randomSide : Q;
  leftId : string;
  rightId : string;
  foundLeft : bool;
  foundRight : bool;
  hasRenderer : bool;
  hasCamera : bool
}.

Definition Act : Type := Action Screen Effect.

Definition withHooks (h : Hooks) (s : Screen) : Screen :=
  {| cfg := cfg s; animals := animals s; hooks := h; refs := refs s;
     cameraPending := cameraPending s; keydownListener := keydownListener s;
     now := now s; timers := timers s |}.

Definition withRefs (r : Refs) (s : Screen) : Screen :=
  {| cfg := cfg s; animals := animals s; hooks := hooks s; refs := r;
     cameraPending := cameraPending s; keydownListener := keydownListener s;
     now := now s; timers := timers s |}.

Definition withTimers (t : list (Z * Task)) (s : Screen) : Screen :=
  {| cfg := cfg s; animals := animals s; hooks := hooks s; refs := refs s;
     cameraPending := cameraPending s; keydownListener := keydownListener s;
     now := now s; timers := t |}.

Definition setArLoading (v : bool) : Act := fun s =>
  let h := hooks s in
  (withHooks {| arLoading := v; isFadingIn := isFadingIn h;
                currentRound := currentRound h; sceneReady := sceneReady h;
                selectedAnimal := selectedAnimal h;
                feedbackType := feedbackType h;
                isAnimating := isAnimating h |} s, []).

Definition setIsFadingIn (v : bool) : Act := fun s =>
  let h := hooks s in
  (withHooks {| arLoading := arLoading h; isFadingIn := v;
                currentRound := currentRound h; sceneReady := sceneReady h;
                selectedAnimal := selectedAnimal h;
                feedbackType := feedbackType h;
                isAnimating := isAnimating h |} s, []).

Definition setCurrentRound (v : Z) : Act := fun s =>
  let h := hooks s in
  (withHooks {| arLoading := arLoading h; isFadingIn := isFadingIn h;
                currentRound := v; sceneReady := sceneReady h;
                selectedAnimal := selectedAnimal h;
                feedbackType := feedbackType h;
                isAnimating := isAnimating h |} s, []).

Definition setSceneReady (v : bool) : Act := fun s =>
  let h := hooks s in
  (withHooks {| arLoading := arLoading h; isFadingIn := isFadingIn h;
                currentRound := currentRound h; sceneReady := v;
                selectedAnimal := selectedAnimal h;
                feedbackType := feedbackType h;
                isAnimating := isAnimating h |} s, []).

Definition setSelectedAnimal (v : option AnimalType) : Act := fun s =>
  let h := hooks s in
  (withHooks {| arLoading := arLoading h; isFadingIn := isFadingIn h;
                currentRound := currentRound h; sceneReady := sceneReady h;
                selectedAnimal := v;
                feedbackType := feedbackType h;
                isAnimating := isAnimating h |} s, []).

Definition setFeedbackType (v : option Feedback) : Act := fun s =>
  let h := hooks s in
  (withHooks {| arLoading := arLoading h; isFadingIn := isFadingIn h;
                currentRound := currentRound h; sceneReady := sceneReady h;
                selectedAnimal := selectedAnimal h;
                feedbackType := v;
                isAnimating := isAnimating h |} s, []).

Definition setIsAnimating (v : bool) : Act := fun s =>
  let h := hooks s in
  (withHooks {| arLoading := arLoading h; isFadingIn := isFadingIn h;
                currentRound := currentRound h; sceneReady := sceneReady h;
                selectedAnimal := selectedAnimal h;
                feedbackType := feedbackType h;
                isAnimating := v |} s, []).

(** [setTimeout(task, delay)]: the task is due [delay] ms from now. *)
Definition setTimeout (delay : Z) (task : Task) : Act := fun s =>
  (withTimers (timers s ++ [(now s + delay, task)]) s, [SetTimeout delay task]).

(** ** Paths *)

(** [getBaseUrl], from the value [base] of
    [import.meta.env.BASE_URL || (document.baseURI ? pathname : '/')]. *)
Definition getBaseUrl (base : string) : string :=
  let b := if negb (String.eqb base "") && negb (String.eqb base "/")
           then (if endsWith "/" base then base else (base ++ "/")%string)
           else "/" in
  if String.eqb b "/" then ""
  else if endsWith "/" b then sliceInit b else b.

Definition baseUrl (s : Screen) : string := getBaseUrl (base (cfg s)).

Definition normalizePath (s : Screen) (path : string) : string :=
  if String.eqb (baseUrl s) "" then
    (if startsWith "/" path then path else ("/" ++ path)%string)
  else
    let cleanPath := if startsWith "/" path then slice1 path else path in
    (baseUrl s ++ "/" ++ cleanPath)%string.

(** ** [clearAnimals] *)

Definition clearAnimals : Act := fun s =>
  let r := refs s in
  let goLeft := truthy (left r) && arScene (cfg s) in
  let goRight := truthy (right r) && arScene (cfg s) in
  (withRefs {| left := if goLeft then None else left r;
               right := if goRight then None else right r;
               correctEntityId := None;
               correctEntityPos := correctEntityPos r |} s,
   (if goLeft then map RemoveEntity (option_list (left r)) else [])
   ++ (if goRight then map RemoveEntity (option_list (right r)) else [])).

(** ** [spawnAnimals] *)

Definition entityAttrs (s : Screen) (a : AnimalConfig) (pos : Vec3) : EntityAttrs :=
  {| geometry := "primitive: plane";
     material := ("src: " ++ normalizePath s ("assets/images/" ++ arImage a)
                  ++ "; transparent: true; side: double")%string;
     position := pos;
     scale := "1 1 1";
     look_at := "[camera]";
     class := "clickable-animal";
     data_animal := name a;
     animation__scale :=
       "property: scale; to: 1.1 1.1 1.1; dur: 200; startEvents: mouseenter";
     animation__scaleback :=
       "property: scale; to: 1 1 1; dur: 200; startEvents: mouseleave" |}.

Definition setEntities (l r : string) : Act := fun s =>
  let rf := refs s in
  (withRefs {| left := Some l; right := Some r;
               correctEntityId := correctEntityId rf;
               correctEntityPos := correctEntityPos rf |} s, []).

Definition setCorrect (id : string) (pos : Vec3) : Act := fun s =>
  let rf := refs s in
  (withRefs {| left := left rf; right := right rf;
               correctEntityId := Some id;
               correctEntityPos := pos |} s, []).

Definition leftPos : Vec3 :=
  {| x := (-1.5)%float; y := 0%float; z := INITIAL_ANIMAL_Z |}.

Definition rightPos : Vec3 :=
  {| x := 1.5%float; y := 0%float; z := INITIAL_ANIMAL_Z |}.

(** [Math.random() > 0.5] *)
Definition correctOnLeft (o : Oracle) : bool := negb (Qle_bool (randomSide o) (1 # 2)).

Definition findAnimal (s : Screen) (n : AnimalType) : option AnimalConfig :=
  List.find (fun a => bool_decide (name a = n)) (animals s).

(** A [find(...)!] that found nothing makes the first read of a field of
    its result throw; the handler stops there ([Uncaught]). *)
Definition spawnAnimals (ready : bool) (o : Oracle)
    (correctAnimal wrongAnimal : AnimalType) : Act := fun s =>
  if negb (arScene (cfg s)) || negb ready then
    emit (Console Warn
      "[ARScreen] Não é possível spawnar animais - scene não está pronta") s
  else
    (clearAnimals >>> (fun s =>
      if negb (sceneEl (cfg s)) then
        emit (Console Warn "[ARScreen] Scene element não encontrado") s
      else
        (emit ShowScene >>> (fun s =>
          let correctAnimalConfig := findAnimal s correctAnimal in
          let wrongAnimalConfig := findAnimal s wrongAnimal in
          let leftAnimal :=
            if correctOnLeft o then correctAnimalConfig else wrongAnimalConfig in
          let rightAnimal :=
            if correctOnLeft o then wrongAnimalConfig else correctAnimalConfig in
          match leftAnimal with
          | None => emit (Uncaught "TypeError") s
          | Some la =>
              (emit (AddEntity (entityAttrs s la leftPos) (leftId o)) >>> (fun s =>
                match rightAnimal with
                | None => emit (Uncaught "TypeError") s
                | Some ra =>
                    (emit (AddEntity (entityAttrs s ra rightPos) (rightId o))
                     >>> setEntities (leftId o) (rightId o)
                     >>> (if correctOnLeft o
                          then setCorrect (leftId o) leftPos
                          else setCorrect (rightId o) rightPos)
                     >>> setTimeout 200
                           (Refresh (leftId o) (rightId o) (name la) (name ra))) s
                end)) s
          end)) s)) s.

(** ** [handleAnimalClick] *)

Definition handleAnimalClick (clickedAnimal correctAnimal : AnimalType) : Act :=
  emit (Console Log "[ARScreen] handleAnimalClick acionado!") >>> (fun s =>
    if isAnimating (hooks s) then skip s
    else
      let isCorrect := bool_decide (clickedAnimal = correctAnimal) in
      (setIsAnimating true
       >>> emit (PlaySound ClickSound)
       >>> setSelectedAnimal (Some clickedAnimal)
       >>> setFeedbackType (Some (if isCorrect then success else error))
       >>> emit (PlaySound (if isCorrect then SuccessSound else ErrorSound))
       >>> clearAnimals
       >>> setTimeout 2000 (FeedbackEnd (sceneReady (hooks s)))) s).

(** ** Choosing the round's pair *)

(** [ANIMALS.filter(a => a.name !== correct)] *)
Definition wrongAnimals (s : Screen) (correct : AnimalType) : list AnimalConfig :=
  List.filter (fun a => negb (bool_decide (name a = correct))) (animals s).

(** [wrongAnimals[Math.floor(Math.random() * wrongAnimals.length)]] *)
Definition randomWrongAnimal (o : Oracle) (w : list AnimalConfig) : option AnimalConfig :=
  index w (Qfloor (randomWrong o * inject_Z (Z.of_nat (length w)))).

Definition spawnRound (ready : bool) (o : Oracle) (roundIndex : Z) : Act := fun s =>
  match index (animals s) roundIndex with
  | None => emit (Uncaught "TypeError") s
  | Some correctAnimal =>
      match randomWrongAnimal o (wrongAnimals s (name correctAnimal)) with
      | None => emit (Uncaught "TypeError") s
      | Some wrong =>
          spawnAnimals ready o (name correctAnimal) (name wrong) s
      end
  end.

Definition startRound (ready : bool) (o : Oracle) (roundIndex : Z) : Act := fun s =>
  if roundIndex >=? TOTAL_ROUNDS then setCurrentRound 0 s
  else spawnRound ready o roundIndex s.


(** ** What the render derives from the state *)

Definition currentAnimal (s : Screen) : option AnimalConfig :=
  if currentRound (hooks s) <? TOTAL_ROUNDS
  then index (animals s) (currentRound (hooks s))
  else None.

(** The [topImage] constant of the render (the field of the same name is
    the file name it is built from). *)
Definition topImageSrc (s : Screen) : string :=
  match currentAnimal s with
  | Some a => normalizePath s ("assets/images/" ++ topImage a)
  | None => ""
  end.

(** [currentAnimal && !selectedAnimal]: the top image is in the page. *)
Definition topImageShown (s : Screen) : bool :=
  match currentAnimal s, selectedAnimal (hooks s) with
  | Some _, None => true
  | _, _ => false
  end.

(** [selectedAnimal && ...]: the feedback overlay is in the page. *)
Definition feedbackShown (s : Screen) : bool :=
  match selectedAnimal (hooks s) with
  | Some _ => true
  | None => false
  end.

Definition feedbackImage (s : Screen) : string :=
  match feedbackType (hooks s) with
  | Some success => normalizePath s "assets/images/estrelas.png"
  | Some error => normalizePath s "assets/images/erro.png"
  | None => ""
  end.

Definition desktopTestMode (s : Screen) : bool := negb (usarVideo (cfg s)).

(** [sceneReady && !selectedAnimal && desktopTestMode]: the two test
    images are in the page. *)
Definition desktopShown (s : Screen) : bool :=
  sceneReady (hooks s) && negb (feedbackShown s) && desktopTestMode s.

(** ** Touch, desktop click, keys *)

(** What the ray cast of [handleTouchStart] found: nothing (no touch, no
    [THREE], no camera object, no intersection), or the [data-animal]
    attribute of the closest element, [null] when it has none. *)
Inductive Probe := NoHit | Hit (animalName : option AnimalType).

Definition handleTouchStart (p : Probe) : Act := fun s =>
  if isAnimating (hooks s) then skip s
  else
    match p with
    | NoHit => skip s
    | Hit animalName =>
        (emit (Console Log "[ARScreen] Touch detectado!") >>> (fun s =>
          match animalName with
          | Some a =>
              match currentAnimal s with
              | Some cur =>
                  (emit (Console Log "[ARScreen] Comparando:")
                   >>> handleAnimalClick a (name cur)) s
              | None => skip s
              end
          | None =>
              emit (Console Warn
                "[ARScreen] Animal name não encontrado ou handler não disponível") s
          end)) s
    end.

Definition handleDesktopAnimalClick (animal correct : AnimalType) : Act :=
  emit (Console Log "[ARScreen][DESKTOP] handleDesktopAnimalClick (img render)")
  >>> handleAnimalClick animal correct.

(** The [onClick] of the two test images: [other] tells the right one.
    [curr = ANIMALS[currentRound % ANIMALS.length]] and
    [other = wrongAnimals[0]] are computed by the render that shows them. *)
Definition desktopClick (other : bool) : Act := fun s =>
  let idx := Z.rem (currentRound (hooks s)) (Z.of_nat (length (animals s))) in
  match index (animals s) idx with
  | None => emit (Uncaught "TypeError") s
  | Some curr =>
      match index (wrongAnimals s (name curr)) 0 with
      | None => emit (Uncaught "TypeError") s
      | Some oth =>
          let animal := if other then name oth else name curr in
          (emit (Console Log "[ONCLICK IMG] Animal:")
           >>> handleDesktopAnimalClick animal (name curr)) s
      end
  end.

(** The local variables of the [keydown] handler. *)
Record Moving := { mx : float; my : float; mz : float; moved : bool }.

Definition keyStep (cond : bool) (f : Moving -> Moving) (m : Moving) : Moving :=
  if cond then f m else m.

Definition moveKeys (key : string) (m : Moving) : Moving :=
  let m := keyStep (String.eqb (toLowerCase key) "w")
    (fun m => {| mx := mx m; my := my m; mz := (mz m - MOVE_STEP)%float; moved := true |}) m in
  let m := keyStep (String.eqb (toLowerCase key) "s")
    (fun m => {| mx := mx m; my := my m; mz := (mz m + MOVE_STEP)%float; moved := true |}) m in
  let m := keyStep (String.eqb (toLowerCase key) "a")
    (fun m => {| mx := (mx m - MOVE_STEP)%float; my := my m; mz := mz m; moved := true |}) m in
  let m := keyStep (String.eqb (toLowerCase key) "d")
    (fun m => {| mx := (mx m + MOVE_STEP)%float; my := my m; mz := mz m; moved := true |}) m in
  let m := keyStep (String.eqb key "ArrowUp")
    (fun m => {| mx := mx m; my := (my m + MOVE_STEP)%float; mz := mz m; moved := true |}) m in
  let m := keyStep (String.eqb key "ArrowDown")
    (fun m => {| mx := mx m; my := (my m - MOVE_STEP)%float; mz := mz m; moved := true |}) m in
  m.

(** The [handler] of the WASD effect; [updateEntityPosition?.(...)] is
    called only when the scene ref has the method. *)
Definition handler (key : string) : Act := fun s =>
  let r := refs s in
  if negb (truthy (correctEntityId r)) || negb (arScene (cfg s)) then skip s
  else
    let p := correctEntityPos r in
    let m := moveKeys key {| mx := x p; my := y p; mz := z p; moved := false |} in
    if moved m then
      let pos := {| x := mx m; y := my m; z := mz m |} in
      (withRefs {| left := left r; right := right r;
                   correctEntityId := correctEntityId r;
                   correctEntityPos := pos |} s,
       if canUpdatePosition (cfg s)
       then map (fun id => UpdateEntityPosition id pos)
                (option_list (correctEntityId r))
       else [])
    else skip s.

(** ** Camera set-up *)

(** A thrown or rejected value: whether it is truthy, and its [name]. *)
Record Thrown := { errTruthy : bool; errName : string }.

Inductive Settled := Fulfilled | Rejected (err : Thrown).

(** How the two promises of [setupCamera] settle: the one of
    [getUserMedia] and the one of [video.play()]. *)
Record CameraRun := {
  getUserMedia : Settled;
  play : Settled
}.

Definition withCameraPending (v : bool) : Act := fun s =>
  ({| cfg := cfg s; animals := animals s; hooks := hooks s; refs := refs s;
      cameraPending := v; keydownListener := keydownListener s;
      now := now s; timers := timers s |}, []).

(** The outer [catch (err)]. *)
Definition catchCamera (err : Thrown) : Act :=
  (if errTruthy err && String.eqb (errName err) "AbortError"
   then emit (Console Warn
          "AbortError detectado ao configurar câmera (provavelmente play() interrompido por troca de srcObject). Veja https://goo.gl/LdLk22. Normalmente não impede o funcionamento do vídeo.")
   else emit (Console Error "Erro ao configurar câmera:"))
  >>> setArLoading false
  >>> setTimeout 100 (FadeIn false).

(** [setupCamera] up to its first [await], run by the camera effect: the
    tracks of an existing stream are stopped and [getUserMedia] is called;
    reading [getUserMedia] off an undefined [navigator.mediaDevices]
    throws a [TypeError], which the [catch] takes at once. *)
Definition requestCamera : Act := fun s =>
  ((if existingVideo (cfg s) && existingStream (cfg s)
    then emit StopTracks else skip)
   >>> (if mediaDevices (cfg s)
        then emit GetUserMedia >>> withCameraPending true
        else catchCamera {| errTruthy := true; errName := "TypeError" |})) s.

(** The rest of [setupCamera], run when [getUserMedia] has settled. *)
Definition setupCamera (c : CameraRun) : Act := fun s =>
  match getUserMedia c with
  | Rejected err => catchCamera err s
  | Fulfilled =>
      (emit (AttachVideo (negb (existingVideo (cfg s))))
       >>> match play c with
           | Rejected _ =>
               emit (Console Warn "[ARScreen] Falha ao chamar video.play():")
           | Fulfilled => skip
           end
       >>> setArLoading false
       >>> setTimeout 100 (FadeIn true)) s
  end.

(** The camera effect, run once after the first render. *)
Definition cameraEffect : Act := fun s =>
  if negb (usarVideo (cfg s)) then
    (setArLoading false >>> setTimeout 100 (FadeIn false)) s
  else requestCamera s.

(** ** Timer callbacks *)

(** [if (scene.renderer) { setSize(...); if (scene.camera) render(...) }] *)
Definition forceRender (o : Oracle) : Act :=
  if hasRenderer o
  then emit SetRendererSize >>> (if hasCamera o then emit RenderScene else skip)
  else skip.

Definition runTask (o : Oracle) (t : Task) : Act :=
  match t with
  | FadeIn video =>
      setIsFadingIn true >>> (if video then emit VideoOpaque else skip)
  | FeedbackEnd ready =>
      setSelectedAnimal None
      >>> setFeedbackType None
      >>> setIsAnimating false
      >>> (fun s =>
            let nextRound := currentRound (hooks s) + 1 in
            ((if nextRound <? TOTAL_ROUNDS
              then setTimeout 100 (SpawnNext nextRound ready)
              else skip)
             >>> setCurrentRound nextRound) s)
  | SpawnNext nextRound ready => spawnRound ready o nextRound
  | EnsureVisible closureRound ready =>
      emit ShowScene >>> forceRender o >>> emit DispatchResize
      >>> setTimeout 300 (StartFirst closureRound ready)
  | StartFirst closureRound ready =>
      if closureRound =? 0 then startRound ready o 0 else skip
  | Refresh l r ln rn =>
      (if foundLeft o
       then emit (SetDataAnimal l ln)
            >>> emit (Console Log "[ARScreen] Entity LEFT configurado:")
       else skip)
      >>> (if foundRight o
           then emit (SetDataAnimal r rn)
                >>> emit (Console Log "[ARScreen] Entity RIGHT configurado:")
           else skip)
      >>> forceRender o >>> emit DispatchResize
  end.

(** ** Effects that follow a render *)

(** The effect with dependencies [[sceneReady, currentRound, startRound]]. *)
Definition startEffect : Act := fun s =>
  if negb (sceneReady (hooks s)) then skip s
  else if negb (arScene (cfg s) && sceneEl (cfg s)) then skip s
  else setTimeout 200
         (EnsureVisible (currentRound (hooks s)) (sceneReady (hooks s))) s.

(** The WASD effect, dependencies [[sceneReady, currentRound]]: its
    clean-up removes the listener, its body adds it again when the scene is
    ready and a correct entity is recorded. *)
Definition keysEffect : Act := fun s =>
  ({| cfg := cfg s; animals := animals s; hooks := hooks s; refs := refs s;
      cameraPending := cameraPending s;
      keydownListener :=
        sceneReady (hooks s) && truthy (correctEntityId (refs s));
      now := now s; timers := timers s |}, []).

Definition depsChanged (before after : Screen) : bool :=
  negb (Bool.eqb (sceneReady (hooks before)) (sceneReady (hooks after)))
  || negb (currentRound (hooks before) =? currentRound (hooks after)).

Definition afterRender (before : Screen) : Act := fun s =>
  if depsChanged before s then (startEffect >>> keysEffect) s else skip s.

(** ** The screen as a machine *)

Inductive Event :=
| CameraSettled (c : CameraRun)
| SceneReady
| TouchStart (p : Probe)
| DesktopClick (other : bool)
| KeyDown (key : string)
| Tick (t : Z)
| Fire (k : nat) (o : Oracle).

Definition blank (c : Config) : Screen :=
  {| cfg := c;
     animals := ANIMALS;
     hooks := {| arLoading := true; isFadingIn := false; currentRound := 0;
                 sceneReady := false; selectedAnimal := None;
                 feedbackType := None; isAnimating := false |};
     refs := {| left := None; right := None; correctEntityId := None;
                correctEntityPos :=
                  {| x := (-1.5)%float; y := 0%float; z := (-10)%float |} |};
     cameraPending := false;
     keydownListener := false;
     now := 0;
     timers := [] |}.

(** The state once mounted: first render, then the camera effect (the
    other effects return at once, the scene not being ready). *)
Definition initial (c : Config) : Screen := (cameraEffect (blank c)).1.

Definition withNow (t : Z) : Act := fun s =>
  ({| cfg := cfg s; animals := animals s; hooks := hooks s; refs := refs s;
      cameraPending := cameraPending s; keydownListener := keydownListener s;
      now := t; timers := timers s |}, []).

Fixpoint removeNth {A : Type} (k : nat) (l : list A) : list A :=
  match k, l with
  | _, [] => []
  | O, _ :: r => r
  | S k, a :: r => a :: removeNth k r
  end.

(** Time passes.  On a punctual page it passes to [t] only if no pending
    callback is due before [t], so that every callback runs when due. *)
Definition canTick (t : Z) (s : Screen) : bool :=
  (now s <? t)
  && (negb (punctual (cfg s)) || forallb (fun d => t <=? d.1) (timers s)).

(** A pending callback can run when it is due and no other pending one is
    due before it. *)
Definition canFire (due : Z) (s : Screen) : bool :=
  (due <=? now s) && forallb (fun d => due <=? d.1) (timers s).

(** An event that the page can deliver in state [s], with its handler. *)
Definition dispatch (ev : Event) (s : Screen) : option Act :=
  match ev with
  | CameraSettled c =>
      if cameraPending s then Some (withCameraPending false >>> setupCamera c)
      else None
  | SceneReady => Some (setSceneReady true)
  | TouchStart p =>
      if sceneReady (hooks s) && arScene (cfg s) && sceneEl (cfg s)
      then Some (handleTouchStart p) else None
  | DesktopClick other =>
      if desktopShown s then Some (desktopClick other) else None
  | KeyDown key =>
      if keydownListener s then Some (handler key) else None
  | Tick t => if canTick t s then Some (withNow t) else None
  | Fire k o =>
      match nth_error (timers s) k with
      | Some (due, task) =>
          if canFire due s
          then Some ((fun s => (withTimers (removeNth k (timers s)) s, []))
                     >>> runTask o task)
          else None
      | None => None
      end
  end.

Definition step (ev : Event) (s : Screen) : option (Screen * list Effect) :=
  match dispatch ev s with
  | Some h => Some ((h >>> afterRender s) s)
  | None => None
  end.

(** Runs: the events delivered and the calls made, oldest first. *)
Inductive run : Screen -> list Effect -> Screen -> Prop :=
| run_nil s : run s [] s
| run_step s ev s1 e1 e2 s2 :
    step ev s = Some (s1, e1) -> run s1 e2 s2 -> run s (e1 ++ e2) s2.

Definition reachable (c : Config) (s : Screen) : Prop :=
  exists e, run (initial c) e s.


(** ** Reading the calls of a handler *)

(** The [addEntity] calls, with the id each returned. *)
Fixpoint additions (e : list Effect) : list (EntityAttrs * string) :=
  match e with
  | [] => []
  | AddEntity a i :: r => (a, i) :: additions r
  | _ :: r => additions r
  end.

(** The ids given to [removeEntity]. *)
Fixpoint removals (e : list Effect) : list string :=
  match e with
  | [] => []
  | RemoveEntity i :: r => i :: removals r
  | _ :: r => removals r
  end.

(** The sounds played. *)
Fixpoint sounds (e : list Effect) : list Sound :=
  match e with
  | [] => []
  | PlaySound p :: r => p :: sounds r
  | _ :: r => sounds r
  end.

(** The destinations given to [onNavigate]. *)
Fixpoint navigations (e : list Effect) : list ScreenType :=
  match e with
  | [] => []
  | Navigate t :: r => t :: navigations r
  | _ :: r => navigations r
  end.

(** The ids that the entity refs hold. *)
Definition referenced (s : Screen) : list string :=
  option_list (left (refs s)) ++ option_list (right (refs s)).

(** The ids that [clearAnimals] gives to [removeEntity]. *)
Definition cleared (s : Screen) : list string :=
  (if truthy (left (refs s)) && arScene (cfg s)
   then option_list (left (refs s)) else [])
  ++ (if truthy (right (refs s)) && arScene (cfg s)
      then option_list (right (refs s)) else []).

(** ** Selections *)

(** The ways a player picks an animal: a touch whose closest hit shows
    [animal], or a click on one of the two desktop test images. *)
Inductive Selection :=
| ByTouch (animal : AnimalType)
| ByDesktop (other : bool).

Definition selectionEvent (sel : Selection) : Event :=
  match sel with
  | ByTouch a => TouchStart (Hit (Some a))
  | ByDesktop o => DesktopClick o
  end.

Definition select (sel : Selection) : Act :=
  match sel with
  | ByTouch a => handleTouchStart (Hit (Some a))
  | ByDesktop o => desktopClick o
  end.

(** The animal a selection hands to [handleAnimalClick]: the one touched,
    or the one the clicked test image shows. *)
Definition picked (sel : Selection) (correct : AnimalConfig) : AnimalType :=
  match sel with
  | ByTouch a => a
  | ByDesktop false => name correct
  | ByDesktop true =>
      match List.filter (fun a => negb (bool_decide (name a = name correct))) ANIMALS with
      | w :: _ => name w
      | [] => name correct
      end
  end.

(** The log lines a selection writes before it reaches
    [handleAnimalClick]. *)
Definition preamble (sel : Selection) : list Effect :=
  match sel with
  | ByTouch _ =>
      [Console Log "[ARScreen] Touch detectado!";
       Console Log "[ARScreen] Comparando:"]
  | ByDesktop _ =>
      [Console Log "[ONCLICK IMG] Animal:";
       Console Log "[ARScreen][DESKTOP] handleDesktopAnimalClick (img render)"]
  end.

(** A mounted screen with the scene ready, waiting for a selection at
    round [r], desktop test mode off. *)
Definition playing (r : Z) : Screen :=
  {| cfg := {| usarVideo := true; base := "/"; arScene := true; sceneEl := true;
               canUpdatePosition := true; mediaDevices := true;
               existingVideo := false; existingStream := false;
               punctual := true |};
     animals := ANIMALS;
     hooks := {| arLoading := false; isFadingIn := true; currentRound := r;
                 sceneReady := true; selectedAnimal := None;
                 feedbackType := None; isAnimating := false |};
     refs := {| left := Some "animal-1"; right := Some "animal-2";
                correctEntityId := Some "animal-1";
                correctEntityPos := leftPos |};
     cameraPending := false;
     keydownListener := false;
     now := 0;
     timers := [] |}.

(** The oracle of the examples: both draws are 3/4, the entities are in
    the document and the scene has its renderer and camera. *)
Definition sampleOracle : Oracle :=
  {| randomWrong := 3 # 4; randomSide := 3 # 4;
     leftId := "animal-3"; rightId := "animal-4";
     foundLeft := true; foundRight := true;
     hasRenderer := true; hasCamera := true |}.

(** The same with a side draw of 1/4. *)
Definition lowOracle : Oracle :=
  {| randomWrong := 3 # 4; randomSide := 1 # 4;
     leftId := "animal-3"; rightId := "animal-4";
     foundLeft := true; foundRight := true;
     hasRenderer := true; hasCamera := true |}.

(** The keys the [keydown] handler tests for: W, S, A, D in either case,
    and the up and down arrows. *)
Definition recognized (key : string) : bool :=
  String.eqb (toLowerCase key) "w" || String.eqb (toLowerCase key) "s"
  || String.eqb (toLowerCase key) "a" || String.eqb (toLowerCase key) "d"
  || String.eqb key "ArrowUp" || String.eqb key "ArrowDown".

(** The position of the correct entity after [handler key]. *)
Definition movedTo (key : string) (s : Screen) : Vec3 :=
  correctEntityPos (refs (handler key s).1).

(** What no handler changes or does: the configuration and the [ANIMALS]
    array stay as they are, [onNavigate] is not called, the clock and the
    round index do not go back, and [arLoading], once false, stays false. *)
Definition framed (s s' : Screen) (e : list Effect) : Prop :=
  cfg s' = cfg s /\ animals s' = animals s /\ navigations e = []
  /\ now s <= now s' /\ currentRound (hooks s) <= currentRound (hooks s')
  /\ (arLoading (hooks s) = false -> arLoading (hooks s') = false).

(** ** The game seen from outside *)

(** The part of the state the round loop is about. *)
Record Game := {
  round : Z;
  ready : bool;
  selected : option AnimalType;
  feedback : option Feedback;
  animating : bool
}.

Definition gameOf (s : Screen) : Game :=
  {| round := currentRound (hooks s);
     ready := sceneReady (hooks s);
     selected := selectedAnimal (hooks s);
     feedback := feedbackType (hooks s);
     animating := isAnimating (hooks s) |}.

(** Callbacks that neither read nor write the game: the fade-in and the
    fix-up that follows a spawn. *)
Definition passive (t : Z * Task) : Prop :=
  match t.2 with
  | FadeIn _ | Refresh _ _ _ _ => True
  | _ => False
  end.

(** A handler is quiet when it leaves the game and the clock alone and
    schedules passive callbacks only; silent when it adds no entity
    either. *)
Definition quiet (s s' : Screen) (e : list Effect) : Prop :=
  gameOf s' = gameOf s /\ now s' = now s
  /\ exists extra, timers s' = timers s ++ extra /\ Forall passive extra.

Definition silent (s s' : Screen) (e : list Effect) : Prop :=
  quiet s s' e /\ additions e = [].

(** What running the callback [t] does to the game, which timers it adds
    and whether it can add entities. *)
Definition fired (s : Screen) (t : Task) (s' : Screen)
    (added : list (Z * Task)) (e : list Effect) : Prop :=
  match t with
  | FadeIn _ | Refresh _ _ _ _ =>
      gameOf s' = gameOf s /\ Forall passive added /\ additions e = []
  | FeedbackEnd rdy =>
      gameOf s' = {| round := round (gameOf s) + 1; ready := ready (gameOf s);
                     selected := None; feedback := None; animating := false |}
      /\ additions e = []
      /\ exists ens,
           added =
             (if round (gameOf s) + 1 <? TOTAL_ROUNDS
              then [(now s + 100, SpawnNext (round (gameOf s) + 1) rdy)]
              else []) ++ ens
           /\ (ens = []
               \/ exists rdy',
                    ens = [(now s + 200, EnsureVisible (round (gameOf s) + 1) rdy')])
  | SpawnNext _ _ => gameOf s' = gameOf s /\ Forall passive added
  | EnsureVisible c rdy =>
      gameOf s' = gameOf s /\ added = [(now s + 300, StartFirst c rdy)]
      /\ additions e = []
  | StartFirst c _ =>
      gameOf s' = gameOf s /\ Forall passive added
      /\ (c <> 0 -> additions e = [])
  end.

(** The ways one step changes the game, the clock and the pending timers. *)
Inductive change (s s' : Screen) (e : list Effect) : Prop :=
| change_silent : silent s s' e -> change s s' e
| change_ready added :
    ready (gameOf s) = false ->
    gameOf s' = {| round := round (gameOf s); ready := true;
                   selected := selected (gameOf s);
                   feedback := feedback (gameOf s);
                   animating := animating (gameOf s) |} ->
    now s' = now s ->
    timers s' = timers s ++ added ->
    (added = []
     \/ added = [(now s + 200, EnsureVisible (round (gameOf s)) true)]) ->
    additions e = [] ->
    change s s' e
| change_select clicked f rdy :
    animating (gameOf s) = false ->
    ready (gameOf s) = true ->
    gameOf s' = {| round := round (gameOf s); ready := true;
                   selected := Some clicked; feedback := Some f;
                   animating := true |} ->
    now s' = now s ->
    timers s' = timers s ++ [(now s + 2000, FeedbackEnd rdy)] ->
    additions e = [] ->
    change s s' e
| change_tick :
    gameOf s' = gameOf s ->
    timers s' = timers s ->
    now s < now s' ->
    (punctual (cfg s) = true -> Forall (fun t => now s' <= t.1) (timers s)) ->
    additions e = [] ->
    change s s' e
| change_fire l1 d t l2 added :
    timers s = l1 ++ (d, t) :: l2 ->
    d <= now s ->
    Forall (fun t' => d <= t'.1) (timers s) ->
    now s' = now s ->
    timers s' = l1 ++ l2 ++ added ->
    fired s t s' added e ->
    change s s' e.

(** The state once the timer that runs has left the pending list. *)
Definition without (l : list (Z * Task)) (s : Screen) : Screen := withTimers l s.

(** When the pending [FeedbackEnd] callbacks are due. *)
Fixpoint feedbackDue (t : list (Z * Task)) : list Z :=
  match t with
  | [] => []
  | (d, FeedbackEnd _) :: r => d :: feedbackDue r
  | _ :: r => feedbackDue r
  end.

(** ** The invariant of the round loop *)

(** A pending spawn callback is for the current round and is due at most
    100 ms from now and before the feedback ends.  The start-up timer
    that leads to the spawn of round 0 is pending only during round 0 and
    is due before any feedback ends; the callback it schedules, which
    makes that spawn, can still be pending at round 1, and is then due
    before the feedback of round 1 ends. *)
Definition timerOk (s : Screen) (t : Z * Task) : Prop :=
  match t.2 with
  | SpawnNext n _ =>
      n = currentRound (hooks s) /\ n < TOTAL_ROUNDS
      /\ t.1 <= now s + 100
      /\ Forall (fun e => t.1 < e) (feedbackDue (timers s))
  | EnsureVisible c _ =>
      c = 0 ->
      currentRound (hooks s) = 0 /\ t.1 <= now s + 200
      /\ Forall (fun e => t.1 < e) (feedbackDue (timers s))
  | StartFirst c _ =>
      c = 0 ->
      t.1 <= now s + 300
      /\ (currentRound (hooks s) = 0
          \/ (currentRound (hooks s) = 1
              /\ Forall (fun e => t.1 < e) (feedbackDue (timers s))))
  | FeedbackEnd _ | FadeIn _ | Refresh _ _ _ _ => True
  end.

(** A handler leaves the clock alone and schedules its callbacks for now
    or later. *)
Definition ahead (s s' : Screen) (e : list Effect) : Prop :=
  now s' = now s
  /\ forall t, In t (timers s') -> In t (timers s) \/ now s <= t.1.

(** No pending callback is overdue: so it is on a punctual page. *)
Definition OnTime (s : Screen) : Prop :=
  Forall (fun t => now s <= t.1) (timers s).

(** On a punctual page the start-up callbacks that lead to the spawn of
    round 0 run before any feedback ends: they are pending only during
    round 0. *)
Definition startOk (s : Screen) (t : Z * Task) : Prop :=
  match t.2 with
  | EnsureVisible c _ =>
      c = 0 -> Forall (fun e => t.1 + 300 < e) (feedbackDue (timers s))
  | StartFirst c _ =>
      c = 0 ->
      currentRound (hooks s) = 0
      /\ Forall (fun e => t.1 < e) (feedbackDue (timers s))
  | _ => True
  end.

Definition Prompt (s : Screen) : Prop :=
  OnTime s /\ Forall (startOk s) (timers s).

(** The round index is not negative; the pending callbacks of the game
    are as [timerOk] says;
    the feedback flags are set exactly while a selection is being shown,
    with one [FeedbackEnd] pending, and only once the scene is ready. *)
Definition Inv (s : Screen) : Prop :=
  0 <= currentRound (hooks s)
  /\ Forall (timerOk s) (timers s)
  /\ (if isAnimating (hooks s)
      then sceneReady (hooks s) = true
           /\ selectedAnimal (hooks s) <> None
           /\ feedbackType (hooks s) <> None
           /\ exists d, feedbackDue (timers s) = [d]
      else selectedAnimal (hooks s) = None
           /\ feedbackType (hooks s) = None
           /\ feedbackDue (timers s) = []).

(** The overlay of the selection of [clicked], with feedback [f], is on
    at round [r] and its end is due at [d]. *)
Definition showing (d : Z) (clicked : AnimalType) (f : Feedback) (r : Z)
    (s : Screen) : Prop :=
  isAnimating (hooks s) = true
  /\ selectedAnimal (hooks s) = Some clicked
  /\ feedbackType (hooks s) = Some f
  /\ currentRound (hooks s) = r
  /\ feedbackDue (timers s) = [d].

(** The overlay is over: flags and selected animal cleared, the round
    index one more than [r], the spawn of the next round, when there is
    one, due 100 ms later, and no spawn pending but of that round, due at
    [d] or later. *)
Definition ended (d r : Z) (s : Screen) : Prop :=
  now s = d
  /\ isAnimating (hooks s) = false
  /\ selectedAnimal (hooks s) = None
  /\ feedbackType (hooks s) = None
  /\ currentRound (hooks s) = r + 1
  /\ (r + 1 < TOTAL_ROUNDS ->
      exists rdy, In (d + 100, SpawnNext (r + 1) rdy) (timers s))
  /\ (forall d' n rdy, In (d', SpawnNext n rdy) (timers s) ->
      n = r + 1 /\ d <= d' <= d + 100).

(** Delivering a list of events, oldest first. *)
Fixpoint deliver (evs : list Event) (s : Screen) : option (Screen * list Effect) :=
  match evs with
  | [] => Some (s, [])
  | ev :: r =>
      match step ev s with
      | Some (s1, e1) =>
          match deliver r s1 with
          | Some (s2, e2) => Some (s2, e1 ++ e2)
          | None => None
          end
      | None => None
      end
  end.


(** ** A whole game *)

(** A page with the scene mounted and the camera in use; a camera that
    opens and plays; one that is refused. *)
Definition mounted : Config :=
  {| usarVideo := true; base := "/"; arScene := true; sceneEl := true;
     canUpdatePosition := true; mediaDevices := true;
     existingVideo := false; existingStream := false; punctual := true |}.

(** The same page served under [/jogo/]. *)
Definition hosted : Config :=
  {| usarVideo := true; base := "/jogo/"; arScene := true; sceneEl := true;
     canUpdatePosition := true; mediaDevices := true;
     existingVideo := false; existingStream := false; punctual := true |}.

Definition cameraOk : CameraRun :=
  {| getUserMedia := Fulfilled; play := Fulfilled |}.

Definition cameraRefused : CameraRun :=
  {| getUserMedia := Rejected {| errTruthy := true; errName := "NotAllowedError" |};
     play := Fulfilled |}.

(** The clock reaches [t] and the oldest pending timer runs. *)
Definition wait (t : Z) : list Event := [Tick t; Fire 0 sampleOracle].

(** Camera, scene, fade-in, the check 200 ms after the scene is ready,
    the first spawn 300 ms later and its fix-up. *)
Definition startUp : list Event :=
  [CameraSettled cameraOk; SceneReady]
  ++ wait 100 ++ wait 200 ++ wait 500 ++ wait 700.

(** A touch on [a] at time [t]: the feedback ends at [t + 2000], the next
    round spawns 100 ms later; the effects of the new round index and the
    fix-up of the spawn follow. *)
Definition playRound (t : Z) (a : AnimalType) : list Event :=
  [TouchStart (Hit (Some a))]
  ++ wait (t + 2000) ++ wait (t + 2100) ++ wait (t + 2200)
  ++ wait (t + 2300) ++ wait (t + 2500).

(** The touch of the last round: no spawn follows. *)
Definition lastRound (t : Z) (a : AnimalType) : list Event :=
  [TouchStart (Hit (Some a))]
  ++ wait (t + 2000) ++ wait (t + 2200) ++ wait (t + 2500).

(** Five rounds, with [sampleOracle] at every spawn: the wrong animal is
    the pig in rounds 0 to 3 and the cow in round 4.  The animal touched
    is one of the two in the scene: right in rounds 0, 2 and 4, wrong in
    rounds 1 and 3. *)
Definition fullGame : list Event :=
  startUp ++ playRound 700 gato ++ playRound 3200 porco
  ++ playRound 5700 galinha ++ playRound 8200 porco ++ lastRound 10700 porco.

(** ** Entities in the scene *)

(** The entities in the scene after the calls [e], when [acc] were there
    before: [addEntity] puts one in, [removeEntity] takes out the ones of
    that id. *)
Fixpoint alive (e : list Effect) (acc : list string) : list string :=
  match e with
  | [] => acc
  | AddEntity _ i :: r => alive r (acc ++ [i])
  | RemoveEntity i :: r =>
      alive r (List.filter (fun j => negb (String.eqb j i)) acc)
  | _ :: r => alive r acc
  end.

(** The ids that [addEntity] returns in a callback are not empty. *)
Definition named (ev : Event) : Prop :=
  match ev with
  | Fire _ o => leftId o <> "" /\ rightId o <> ""
  | _ => True
  end.

(** What no handler breaks: with [ANIMALS] as declared and non-empty ids
    in the refs, the entities in the scene stay the ones the refs hold. *)
Definition keeps (s s' : Screen) (e : list Effect) : Prop :=
  cfg s' = cfg s /\ animals s' = animals s
  /\ (animals s = ANIMALS ->
      Forall (fun i => i <> "") (referenced s) ->
      alive e (referenced s) = referenced s'
      /\ Forall (fun i => i <> "") (referenced s')).

(** ** A game on the desktop test images *)

(** The page with [usarVideo] off: the two test images are shown whenever
    the scene is ready and no animal is selected. *)
Definition desktop : Config :=
  {| usarVideo := false; base := "/"; arScene := true; sceneEl := true;
     canUpdatePosition := true; mediaDevices := true;
     existingVideo := false; existingStream := false; punctual := true |}.

Definition desktopStart : list Event :=
  [SceneReady] ++ wait 100 ++ wait 200 ++ wait 500 ++ wait 700.

(** A click at time [t] on the image of the round's animal, or on the
    other one, and what follows it. *)
Definition desktopRound (t : Z) (other : bool) : list Event :=
  [DesktopClick other]
  ++ wait (t + 2000) ++ wait (t + 2100) ++ wait (t + 2200)
  ++ wait (t + 2300) ++ wait (t + 2500).

(** Three rounds; the click of round 3 at 8200, whose feedback ends at
    10200; then a click at 10250, before the spawn of round 4 has run. *)
Definition hastyClick : list Event :=
  desktopStart ++ desktopRound 700 false ++ desktopRound 3200 true
  ++ desktopRound 5700 false
  ++ [DesktopClick false] ++ wait 10200 ++ [Tick 10250; DesktopClick false].

(** The spawn of round 4 runs at 10300, while the feedback is on. *)
Definition lateSpawn : list Event :=
  wait 10300 ++ wait 10400
  ++ [Tick 10500; Fire 1 sampleOracle; Tick 10700; Fire 1 sampleOracle].

(** The feedback ends at 12250 and the effects of round index 5 run. *)
Definition lastFeedback : list Event :=
  wait 12250 ++ wait 12450 ++ wait 12750.

(** The screen a list of events leads to, from the first render of the
    mounted page. *)
Definition after (evs : list Event) : Screen :=
  match deliver evs (initial mounted) with
  | Some (s, _) => s
  | None => initial mounted
  end.

(** The calls made on the way. *)
Definition calls (evs : list Event) : list Effect :=
  match deliver evs (initial mounted) with
  | Some (_, e) => e
  | None => []
  end.

(** ** Camera failures *)

(** [getUserMedia] is rejected, or it is fulfilled and [video.play()] is
    rejected. *)
Definition failed (c : CameraRun) : bool :=
  match getUserMedia c, play c with
  | Rejected _, _ => true
  | Fulfilled, Rejected _ => true
  | Fulfilled, Fulfilled => false
  end.

(** The console lines of level [Warn] or [Error]. *)
Fixpoint complaints (e : list Effect) : list string :=
  match e with
  | [] => []
  | Console Warn m :: r => m :: complaints r
  | Console Error m :: r => m :: complaints r
  | _ :: r => complaints r
  end.

(** The exceptions that no handler caught. *)
Fixpoint uncaught (e : list Effect) : list string :=
  match e with
  | [] => []
  | Uncaught w :: r => w :: uncaught r
  | _ :: r => uncaught r
  end.

(** ** More readings of the calls *)

(** The [data-animal] attributes written, with the id of the element. *)
Fixpoint dataWrites (e : list Effect) : list (string * AnimalType) :=
  match e with
  | [] => []
  | SetDataAnimal i n :: r => (i, n) :: dataWrites r
  | _ :: r => dataWrites r
  end.


(** The number of [getUserMedia] calls. *)
Fixpoint requests (e : list Effect) : nat :=
  match e with
  | [] => 0
  | GetUserMedia :: r => S (requests r)
  | _ :: r => requests r
  end.



(** The screen a list of events leads to on the page [c]. *)
Definition afterOn (c : Config) (evs : list Event) : Screen :=
  match deliver evs (initial c) with
  | Some (s, _) => s
  | None => initial c
  end.

(** The whole desktop game of [hastyClick], [lateSpawn] and
    [lastFeedback]: it ends at round index 5. *)
Definition desktopGame : list Event := hastyClick ++ lateSpawn ++ lastFeedback.

(** The desktop page when callbacks can run late, and a start that does:
    a click on the first test image as soon as the scene is ready; the
    start-up callback, due at 200, runs at 1800, so that the one it
    schedules is due at 2100; the feedback, due at 2000, ends at 2200. *)
Definition sluggish : Config :=
  {| usarVideo := false; base := "/"; arScene := true; sceneEl := true;
     canUpdatePosition := true; mediaDevices := true;
     existingVideo := false; existingStream := false; punctual := false |}.

Definition lateStart : list Event :=
  [SceneReady; DesktopClick false; Tick 1800;
   Fire 0 sampleOracle; Fire 0 sampleOracle; Tick 2200; Fire 0 sampleOracle].

(** ** The pace of the rounds *)

(** With [b] ms of credit: a screen with no feedback on is at a round
    index that 2000 ms per round allow for, and a pending feedback, which
    ends when due or, if that is past, now at the earliest, ends no
    earlier than its round allows and is due no later than 2000 ms from
    now. *)
Definition paced (b : Z) (s : Screen) : Prop :=
  (isAnimating (hooks s) = false ->
   2000 * currentRound (hooks s) <= now s + b)
  /\ (forall d, isAnimating (hooks s) = true -> feedbackDue (timers s) = [d] ->
       2000 * (currentRound (hooks s) + 1) <= Z.max d (now s) + b
       /\ d <= now s + 2000).

(** A handler that adds no entity. *)
Definition addsNone (s s' : Screen) (e : list Effect) : Prop :=
  additions e = [].
End ARScreen.

(** * The revision with the circle overlay (first file of [src/unnamed/part_000], lines 1 to 999)

    [AnimalType], [ANIMALS] and the entity refs are declared there as in
    [ARScreen.tsx]; the revision adds the world positions of the two
    entities, a map from entity id to animal, and the projection of the
    positions to screen circles. *)
Module CircleOverlay.

Abbreviation AnimalType := ARScreen.AnimalType.
Abbreviation Vec3 := ARScreen.Vec3.

(** [canvas.width], [canvas.height] *)
Record Canvas := { width : float; height : float }.

(** The refs read by the projection: [animalEntitiesRef.current],
    [animalsWorldPosRef.current], [entityIdToAnimal.current]. *)
Record Refs := {
  entityLeft : option string;
  entityRight : option string;
  posLeft : option Vec3;
  posRight : option Vec3;
  entityIdToAnimal : gmap string AnimalType
}.

(** The names of the properties that a plain object inherits from
    [Object.prototype]: reading one of them off an object that has no own
    property of that name gives the inherited member, a function or the
    prototype itself, and not [undefined]. *)
Definition objectPrototype : list string :=
  ["constructor"; "hasOwnProperty"; "isPrototypeOf"; "propertyIsEnumerable";
   "toLocaleString"; "toString"; "valueOf"; "__proto__";
   "__defineGetter__"; "__defineSetter__";
   "__lookupGetter__"; "__lookupSetter__"].

(** What [animalName] can hold at run time: an animal, or the member of
    [Object.prototype] of the given name. *)
Inductive NameValue := Animal (a : AnimalType) | Inherited (member : string).

(** [obj[k]] on the plain object whose own properties are [m];
    [None] is [undefined]. *)
Definition getProperty (m : gmap string AnimalType) (k : string)
    : option NameValue :=
  match m !! k with
  | Some a => Some (Animal a)
  | None =>
      if bool_decide (k ∈ objectPrototype) then Some (Inherited k) else None
  end.

Record Circle := {
  x : float;
  y : float;
  key : string;
  color : string;
  animalName : NameValue;
  screenPxRadius : Z;
  entityId : string
}.

(** An element of [animalsToCheck]. *)
Record Slot := {
  id : option string;
  pos : option Vec3;
  slotKey : string;
  slotColor : string
}.

Definition ANIMAL_SCREEN_RADIUS : Z := 37.

Section Projection.

(** The camera object and [Vector3.project] of the THREE library. *)
Variable Camera : Type.
Variable project : Camera -> Vec3 -> Vec3.

Definition animalsToCheck (r : Refs) : list Slot := [
  {| id := entityLeft r; pos := posLeft r;
     slotKey := "left"; slotColor := "rgba(33, 99, 255, 0.6)" |};
  {| id := entityRight r; pos := posRight r;
     slotKey := "right"; slotColor := "rgba(145, 200, 255, 0.6)" |}
].

(** One turn of the [for ... of] loop. *)
Definition pushCircle (r : Refs) (cv : Canvas) (cam : Camera)
    (res : list Circle) (sl : Slot) : list Circle :=
  match id sl, pos sl with
  | Some i, Some p =>
      if negb (truthy (Some i)) then res
      else
        let vector := project cam p in
        let sx := ((ARScreen.x vector + 1) / 2 * width cv)%float in
        let sy := ((1 - (ARScreen.y vector + 1) / 2) * height cv)%float in
        let nameFromMapping := getProperty (entityIdToAnimal r) i in
        res ++ [ {| x := sx; y := sy; key := i; color := slotColor sl;
                    animalName := default (Animal ARScreen.gato) nameFromMapping;
                    screenPxRadius := ANIMAL_SCREEN_RADIUS;
                    entityId := i |} ]
  | _, _ => res
  end.

(** [three] tells whether [window.THREE] is set. *)
Definition worldPositionsToScreenPositions (three : bool) (r : Refs)
    (canvas : option Canvas) (camObj : option Camera) : list Circle :=
  match canvas with
  | None => []
  | Some cv =>
      match three, camObj with
      | true, Some cam => fold_left (pushCircle r cv cam) (animalsToCheck r) []
      | _, _ => []
      end
  end.

End Projection.

(** The id of an entity of which the id, not the empty string, and the
    world position are both stored. *)
Definition present (i : option string) (p : option Vec3) : list string :=
  match i, p with
  | Some i, Some _ => if truthy (Some i) then [i] else []
  | _, _ => []
  end.

(** Refs of the examples: an entity on the left, mapped to the cow, and
    an unmapped one on the right; in [halfRefs] the right one has no
    position. *)
Definition sampleRefs : Refs :=
  {| entityLeft := Some "animal-1"; entityRight := Some "animal-2";
     posLeft := Some ARScreen.leftPos; posRight := Some ARScreen.rightPos;
     entityIdToAnimal := {[ "animal-1" := ARScreen.vaca ]} |}.

Definition halfRefs : Refs :=
  {| entityLeft := Some "animal-1"; entityRight := Some "animal-2";
     posLeft := Some ARScreen.leftPos; posRight := None;
     entityIdToAnimal := {[ "animal-1" := ARScreen.vaca ]} |}.

(** Refs whose left id is the empty string and whose right id, unmapped,
    is the name of a member of [Object.prototype]. *)
Definition oddRefs : Refs :=
  {| entityLeft := Some ""; entityRight := Some "constructor";
     posLeft := Some ARScreen.leftPos; posRight := Some ARScreen.rightPos;
     entityIdToAnimal := ∅ |}.

Definition sampleCanvas : Canvas := {| width := 720; height := 1280 |}.

(** ** What writes the refs the projection reads

    [clearAnimals] (lines 224 to 259), [spawnAnimals] (lines 357 to 458)
    and the [handler] of the [keydown] effect (lines 658 to 699) of the
    same revision; [INITIAL_ANIMAL_Z] is -4 there. *)

Definition INITIAL_ANIMAL_Z : float := (-4)%float.

Definition leftPos : Vec3 :=
  {| ARScreen.x := (-1.5)%float; ARScreen.y := 0%float; ARScreen.z := INITIAL_ANIMAL_Z |}.

Definition rightPos : Vec3 :=
  {| ARScreen.x := 1.5%float; ARScreen.y := 0%float; ARScreen.z := INITIAL_ANIMAL_Z |}.

(** The refs of the component, with what is fixed while it is mounted:
    the value [base] of [getBaseUrl], whether [arSceneRef.current] is set,
    whether its [getScene()] gives an element and whether it has the
    [updateEntityPosition] method that the handler of the keys calls with
    [?.]. *)
Record Stage := {
  base : string;
  arScene : bool;
  sceneEl : bool;
  canUpdatePosition : bool;
  refs : Refs;
  correctEntityId : option string;
  correctEntityPos : Vec3
}.

(** The calls made on the scene, the document and the window.
    [RemoveElement id] is [document.getElementById(id)], removed when
    found; [RemoveOrphans] removes every [.clickable-animal] of the
    scene; [PosChange] dispatches [animal-pos-change]. *)
Inductive Call :=
| Warn (msg : string)
| RemoveEntity (id : string)
| RemoveElement (id : string)
| RemoveOrphans
| ShowScene
| AddEntity (attrs : ARScreen.EntityAttrs) (id : string)
| SetTimeout (delay : Z) (task : ARScreen.Task)
| UpdateEntityPosition (id : string) (pos : Vec3)
| PosChange
| Uncaught (what : string).

Definition Step : Type := Action Stage Call.

Definition withRefs (r : Refs) (i : option string) (p : Vec3) (st : Stage) : Stage :=
  {| base := base st; arScene := arScene st; sceneEl := sceneEl st;
     canUpdatePosition := canUpdatePosition st;
     refs := r; correctEntityId := i; correctEntityPos := p |}.

Definition normalizePath (st : Stage) (path : string) : string :=
  if String.eqb (ARScreen.getBaseUrl (base st)) "" then
    (if startsWith "/" path then path else ("/" ++ path)%string)
  else
    let cleanPath := if startsWith "/" path then slice1 path else path in
    (ARScreen.getBaseUrl (base st) ++ "/" ++ cleanPath)%string.

Definition clearAnimals : Step := fun st =>
  let r := refs st in
  let goLeft := truthy (entityLeft r) && arScene st in
  let goRight := truthy (entityRight r) && arScene st in
  (withRefs {| entityLeft := if goLeft then None else entityLeft r;
               entityRight := if goRight then None else entityRight r;
               posLeft := None; posRight := None;
               entityIdToAnimal := ∅ |}
            None (correctEntityPos st) st,
   (if goLeft
    then flat_map (fun i => [RemoveEntity i; RemoveElement i])
                  (option_list (entityLeft r))
    else [])
   ++ (if goRight
       then flat_map (fun i => [RemoveEntity i; RemoveElement i])
                     (option_list (entityRight r))
       else [])
   ++ (if arScene st && sceneEl st then [RemoveOrphans] else [])).

Definition entityAttrs (st : Stage) (a : ARScreen.AnimalConfig) (p : Vec3)
    : ARScreen.EntityAttrs :=
  {| ARScreen.geometry := "primitive: plane";
     ARScreen.material :=
       ("src: " ++ normalizePath st ("assets/images/" ++ ARScreen.arImage a)
        ++ "; transparent: true; side: double")%string;
     ARScreen.position := p;
     ARScreen.scale := "1 1 1";
     ARScreen.look_at := "[camera]";
     ARScreen.class := "clickable-animal";
     ARScreen.data_animal := ARScreen.name a;
     ARScreen.animation__scale :=
       "property: scale; to: 1.1 1.1 1.1; dur: 200; startEvents: mouseenter";
     ARScreen.animation__scaleback :=
       "property: scale; to: 1 1 1; dur: 200; startEvents: mouseleave" |}.

Definition findAnimal (n : AnimalType) : option ARScreen.AnimalConfig :=
  List.find (fun a => bool_decide (ARScreen.name a = n)) ARScreen.ANIMALS.

(** The writes that follow the two [addEntity] calls; in the object
    literal of [entityIdToAnimal] the second key wins when both ids are
    the same. *)
Definition setSpawned (onLeft : bool) (l r : string) (ln rn : AnimalType) : Step :=
  fun st =>
    (withRefs {| entityLeft := Some l; entityRight := Some r;
                 posLeft := Some leftPos; posRight := Some rightPos;
                 entityIdToAnimal := <[ r := rn ]> {[ l := ln ]} |}
              (Some (if onLeft then l else r))
              (if onLeft then leftPos else rightPos) st, []).

(** [ready] is the [sceneReady] of the render that made the callback;
    the oracle gives the [Math.random()] of the side and the ids that
    [addEntity] returns.  A [find(...)!] that found nothing makes the
    first read of a field of its result throw ([Uncaught]). *)
Definition spawnAnimals (ready : bool) (o : ARScreen.Oracle)
    (correctAnimal wrongAnimal : AnimalType) : Step := fun st =>
  if negb (arScene st) || negb ready then
    emit (Warn
      "[ARScreen] Não é possível spawnar animais - scene não está pronta") st
  else
    (clearAnimals >>> (fun st =>
      if negb (sceneEl st) then
        emit (Warn "[ARScreen] Scene element não encontrado") st
      else
        (emit ShowScene >>> (fun st =>
          let correctAnimalConfig := findAnimal correctAnimal in
          let wrongAnimalConfig := findAnimal wrongAnimal in
          let onLeft := ARScreen.correctOnLeft o in
          let leftAnimal :=
            if onLeft then correctAnimalConfig else wrongAnimalConfig in
          let rightAnimal :=
            if onLeft then wrongAnimalConfig else correctAnimalConfig in
          match leftAnimal with
          | None => emit (Uncaught "TypeError") st
          | Some la =>
              (emit (AddEntity (entityAttrs st la leftPos) (ARScreen.leftId o))
               >>> (fun st =>
                match rightAnimal with
                | None => emit (Uncaught "TypeError") st
                | Some ra =>
                    (emit (AddEntity (entityAttrs st ra rightPos) (ARScreen.rightId o))
                     >>> setSpawned onLeft (ARScreen.leftId o) (ARScreen.rightId o)
                           (ARScreen.name la) (ARScreen.name ra)
                     >>> emit (SetTimeout 200
                           (ARScreen.Refresh (ARScreen.leftId o) (ARScreen.rightId o)
                              (ARScreen.name la) (ARScreen.name ra)))) st
                end)) st
          end)) st)) st.

(** The [handler] of the [keydown] effect: it moves the entity of the
    round's animal and the world position stored for its side. *)
Definition handler (key : string) : Step := fun st =>
  if negb (truthy (correctEntityId st)) || negb (arScene st) then skip st
  else
    let p := correctEntityPos st in
    let m := ARScreen.moveKeys key
               {| ARScreen.mx := ARScreen.x p; ARScreen.my := ARScreen.y p;
                  ARScreen.mz := ARScreen.z p; ARScreen.moved := false |} in
    if ARScreen.moved m then
      let np := {| ARScreen.x := ARScreen.mx m; ARScreen.y := ARScreen.my m;
                   ARScreen.z := ARScreen.mz m |} in
      let r := refs st in
      let isLeft := bool_decide (entityLeft r = correctEntityId st) in
      let isRight := bool_decide (entityRight r = correctEntityId st) in
      (withRefs {| entityLeft := entityLeft r; entityRight := entityRight r;
                   posLeft := if isLeft then Some np else posLeft r;
                   posRight := if isLeft then posRight r
                               else if isRight then Some np else posRight r;
                   entityIdToAnimal := entityIdToAnimal r |}
                (correctEntityId st) np st,
       (if canUpdatePosition st
        then map (fun id => UpdateEntityPosition id np)
                 (option_list (correctEntityId st))
        else [])
       ++ [PosChange])
    else skip st.

(** Key presses one after the other. *)
Fixpoint presses (keys : list string) : Step :=
  match keys with
  | [] => skip
  | k :: ks => handler k >>> presses ks
  end.

(** The ids given to [removeEntity], the entities given to [addEntity]
    with the ids returned, and the moves asked of the scene. *)
Definition removed (c : list Call) : list string :=
  flat_map (fun e => match e with RemoveEntity i => [i] | _ => [] end) c.

Definition added (c : list Call) : list (ARScreen.EntityAttrs * string) :=
  flat_map (fun e => match e with AddEntity a i => [(a, i)] | _ => [] end) c.

Definition movedTo (c : list Call) : list (string * Vec3) :=
  flat_map (fun e => match e with UpdateEntityPosition i p => [(i, p)] | _ => [] end) c.

(** Where a world position lands on the canvas. *)
Definition onCanvas (cv : Canvas) (v : Vec3) : float * float :=
  (((ARScreen.x v + 1) / 2 * width cv)%float,
   ((1 - (ARScreen.y v + 1) / 2) * height cv)%float).

(** The entity stored as the correct one is the left one ([onLeft]) or
    the right one, the position stored for its side is
    [correctEntityPos], and the other entity is at [other]. *)
Definition tracking (onLeft : bool) (l r : string) (other : Vec3)
    (m : gmap string AnimalType) (st : Stage) : Prop :=
  correctEntityId st = Some (if onLeft then l else r)
  /\ refs st = {| entityLeft := Some l; entityRight := Some r;
                  posLeft := Some (if onLeft then correctEntityPos st else other);
                  posRight := Some (if onLeft then other else correctEntityPos st);
                  entityIdToAnimal := m |}.

(** A stage of the examples: the page at [/], a scene with its element,
    nothing spawned yet. *)
Definition emptyStage : Stage :=
  {| base := "/"; arScene := true; sceneEl := true;
     canUpdatePosition := true;
     refs := {| entityLeft := None; entityRight := None;
                posLeft := None; posRight := None; entityIdToAnimal := ∅ |};
     correctEntityId := None;
     correctEntityPos := {| ARScreen.x := (-1.5)%float; ARScreen.y := 0%float;
                            ARScreen.z := (-10)%float |} |}.

(** The same stage with a scene object that has no
    [updateEntityPosition] method. *)
Definition bareStage : Stage :=
  {| base := "/"; arScene := true; sceneEl := true;
     canUpdatePosition := false;
     refs := refs emptyStage;
     correctEntityId := None;
     correctEntityPos := correctEntityPos emptyStage |}.

End CircleOverlay.
(** * The revision that preloads the AR images (second file of [src/unnamed/part_000], lines 1000 to 2185)

    [handleAnimalClick] of that file, the callbacks it schedules and
    [clearAnimals].  A correct selection runs the top-image animation
    (800 ms, 600 ms, 600 ms) and then advances the round; an incorrect one
    waits 1700 ms and queues the same round again.  The types and [ANIMALS]
    are declared there as in [ARScreen.tsx].  [window.setTimeout] returns
    the id of the timer, which [clearTimeout] takes.  The effects of that
    file that load the images, add the entities of a queued round, move
    the top image and set [feedbackMounted] one tick after a selection are
    outside this model. *)
Module PreloadRevision.

Abbreviation AnimalType := ARScreen.AnimalType.
Abbreviation AnimalConfig := ARScreen.AnimalConfig.
Abbreviation Feedback := ARScreen.Feedback.
Abbreviation Vec3 := ARScreen.Vec3.
Abbreviation ANIMALS := ARScreen.ANIMALS.
Abbreviation TOTAL_ROUNDS := ARScreen.TOTAL_ROUNDS.

Inductive Phase := show_current | hide_current | show_next | idle.

Record TopImageAnim := {
  current : option AnimalConfig;
  next : option AnimalConfig;
  phase : Phase
}.

Record PendingARImages := {
  correct : option AnimalType;
  wrong : option AnimalType
}.

(** The callbacks of [handleAnimalClick], with the [logicCurrentRound]
    their closure captured. *)
Inductive Task :=
| AnimHide (logicCurrentRound : Z)
| AnimShowNext (logicCurrentRound : Z)
| AnimDone (logicCurrentRound : Z)
| ErrorEnd.

Inductive Effect :=
| PlaySound (snd : ARScreen.Sound)
| RemoveEntity (id : string)
| RemoveOrphans
| ClearTimeout (id : Z)
| SetTimeout (delay : Z) (task : Task)
| Uncaught (what : string).

Record Hooks := {
  currentRound : Z;
  selectedAnimal : option AnimalType;
  feedbackType : option Feedback;
  isAnimating : bool;
  feedbackMounted : bool;
  topImageAnim : TopImageAnim;
  pendingARImages : PendingARImages;
  canDisplayAnimals : bool
}.

Record Refs := {
  left : option string;
  right : option string;
  correctEntityId : option string;
  worldLeft : option Vec3;
  worldRight : option Vec3;
  entityIdToAnimal : gmap string AnimalType;
  currentRoundRef : Z;
  animTimeoutRef : option Z
}.

(** A pending timer: its id, when it is due, its callback. *)
Record Timer := { timerId : Z; due : Z; task : Task }.

Record Screen := {
  arScene : bool;
  sceneEl : bool;
  hooks : Hooks;
  refs : Refs;
  now : Z;
  nextTimerId : Z;
  timers : list Timer
}.

Definition Act : Type := Action Screen Effect.

Definition withHooks (h : Hooks) (s : Screen) : Screen :=
  {| arScene := arScene s; sceneEl := sceneEl s; hooks := h; refs := refs s;
     now := now s; nextTimerId := nextTimerId s; timers := timers s |}.

Definition withRefs (r : Refs) (s : Screen) : Screen :=
  {| arScene := arScene s; sceneEl := sceneEl s; hooks := hooks s; refs := r;
     now := now s; nextTimerId := nextTimerId s; timers := timers s |}.

(** [window.setTimeout(task, delay)], giving the id to [k]. *)
Definition setTimeoutId (delay : Z) (t : Task) (k : Z -> Act) : Act := fun s =>
  let i := nextTimerId s in
  let s' := {| arScene := arScene s; sceneEl := sceneEl s; hooks := hooks s;
               refs := refs s; now := now s; nextTimerId := i + 1;
               timers := timers s ++ [ {| timerId := i; due := now s + delay; task := t |} ] |} in
  let r := k i s' in
  (r.1, SetTimeout delay t :: r.2).

Definition setTimeout (delay : Z) (t : Task) : Act :=
  setTimeoutId delay t (fun _ => skip).

Definition clearTimeout (i : Z) : Act := fun s =>
  ({| arScene := arScene s; sceneEl := sceneEl s; hooks := hooks s;
      refs := refs s; now := now s; nextTimerId := nextTimerId s;
      timers := List.filter (fun t => negb (timerId t =? i)) (timers s) |},
   [ClearTimeout i]).

(** [setIsAnimating(true); setSelectedAnimal(clicked); setFeedbackType(f)] *)
Definition feedbackOn (clicked : AnimalType) (f : Feedback) : Act := fun s =>
  let h := hooks s in
  (withHooks {| currentRound := currentRound h;
                selectedAnimal := Some clicked;
                feedbackType := Some f;
                isAnimating := true;
                feedbackMounted := feedbackMounted h;
                topImageAnim := topImageAnim h;
                pendingARImages := pendingARImages h;
                canDisplayAnimals := canDisplayAnimals h |} s, []).

Definition setFeedbackMounted (v : bool) : Act := fun s =>
  let h := hooks s in
  (withHooks {| currentRound := currentRound h;
                selectedAnimal := selectedAnimal h;
                feedbackType := feedbackType h;
                isAnimating := isAnimating h;
                feedbackMounted := v;
                topImageAnim := topImageAnim h;
                pendingARImages := pendingARImages h;
                canDisplayAnimals := canDisplayAnimals h |} s, []).

Definition setTopImageAnim (f : TopImageAnim -> TopImageAnim) : Act := fun s =>
  let h := hooks s in
  (withHooks {| currentRound := currentRound h;
                selectedAnimal := selectedAnimal h;
                feedbackType := feedbackType h;
                isAnimating := isAnimating h;
                feedbackMounted := feedbackMounted h;
                topImageAnim := f (topImageAnim h);
                pendingARImages := pendingARImages h;
                canDisplayAnimals := canDisplayAnimals h |} s, []).

Definition setCurrentRound (f : Z -> Z) : Act := fun s =>
  let h := hooks s in
  (withHooks {| currentRound := f (currentRound h);
                selectedAnimal := selectedAnimal h;
                feedbackType := feedbackType h;
                isAnimating := isAnimating h;
                feedbackMounted := feedbackMounted h;
                topImageAnim := topImageAnim h;
                pendingARImages := pendingARImages h;
                canDisplayAnimals := canDisplayAnimals h |} s, []).

(** [setSelectedAnimal(null); setFeedbackType(null); setIsAnimating(false);
    setFeedbackMounted(false)] *)
Definition feedbackOff : Act := fun s =>
  let h := hooks s in
  (withHooks {| currentRound := currentRound h;
                selectedAnimal := None;
                feedbackType := None;
                isAnimating := false;
                feedbackMounted := false;
                topImageAnim := topImageAnim h;
                pendingARImages := pendingARImages h;
                canDisplayAnimals := canDisplayAnimals h |} s, []).

(** [setPendingARImages({ correct, wrong }); setCanDisplayAnimals(false)] *)
Definition queueRound (c w : AnimalType) : Act := fun s =>
  let h := hooks s in
  (withHooks {| currentRound := currentRound h;
                selectedAnimal := selectedAnimal h;
                feedbackType := feedbackType h;
                isAnimating := isAnimating h;
                feedbackMounted := feedbackMounted h;
                topImageAnim := topImageAnim h;
                pendingARImages := {| correct := Some c; wrong := Some w |};
                canDisplayAnimals := false |} s, []).

Definition setAnimTimeoutRef (i : Z) : Act := fun s =>
  let r := refs s in
  (withRefs {| left := left r; right := right r;
               correctEntityId := correctEntityId r;
               worldLeft := worldLeft r; worldRight := worldRight r;
               entityIdToAnimal := entityIdToAnimal r;
               currentRoundRef := currentRoundRef r;
               animTimeoutRef := Some i |} s, []).

Definition clearAnimals : Act := fun s =>
  let r := refs s in
  let goLeft := truthy (left r) && arScene s in
  let goRight := truthy (right r) && arScene s in
  (withRefs {| left := if goLeft then None else left r;
               right := if goRight then None else right r;
               correctEntityId := None;
               worldLeft := None; worldRight := None;
               entityIdToAnimal := ∅;
               currentRoundRef := currentRoundRef r;
               animTimeoutRef := animTimeoutRef r |} s,
   (if goLeft then option_list (RemoveEntity <$> left r) else [])
   ++ (if goRight then option_list (RemoveEntity <$> right r) else [])
   ++ (if arScene s && sceneEl s then [RemoveOrphans] else [])).

(** [ANIMALS.filter(...)] and the random pick, as in [ARScreen.tsx]. *)
Definition randomWrong (u : Q) (correctName : AnimalType) : option AnimalConfig :=
  let wrongAnimals :=
    List.filter (fun a => negb (bool_decide (ARScreen.name a = correctName))) ANIMALS in
  index wrongAnimals (Qfloor (u * inject_Z (Z.of_nat (length wrongAnimals)))).

(** Queue the round of index [r] when it is below [TOTAL_ROUNDS]. *)
Definition queueIfPlayable (u : Q) (r : Z) : Act := fun s =>
  if r <? TOTAL_ROUNDS then
    match index ANIMALS r with
    | None => emit (Uncaught "TypeError") s
    | Some a =>
        match randomWrong u (ARScreen.name a) with
        | None => emit (Uncaught "TypeError") s
        | Some w => queueRound (ARScreen.name a) (ARScreen.name w) s
        end
    end
  else skip s.

Definition handleAnimalClick (clickedAnimal : AnimalType) : Act := fun s =>
  if isAnimating (hooks s) then skip s
  else
    let logicCurrentRound := currentRoundRef (refs s) in
    let currentAnimal :=
      if logicCurrentRound <? TOTAL_ROUNDS then index ANIMALS logicCurrentRound
      else None in
    let correctAnimal := ARScreen.name <$> currentAnimal in
    let isCorrect := bool_decide (Some clickedAnimal = correctAnimal) in
    (emit (PlaySound ARScreen.ClickSound)
     >>> feedbackOn clickedAnimal (if isCorrect then ARScreen.success else ARScreen.error)
     >>> clearAnimals
     >>> setFeedbackMounted false
     >>> (if isCorrect then
            emit (PlaySound ARScreen.SuccessSound)
            >>> (fun s =>
                  match animTimeoutRef (refs s) with
                  | Some i => if i =? 0 then skip s else clearTimeout i s
                  | None => skip s
                  end)
            >>> setTimeoutId 800 (AnimHide logicCurrentRound) setAnimTimeoutRef
          else
            emit (PlaySound ARScreen.ErrorSound)
            >>> setTimeout 1700 ErrorEnd)) s.

(** The callbacks; [u] is the [Math.random()] of the wrong-animal pick. *)
Definition runTask (u : Q) (t : Task) : Act :=
  match t with
  | AnimHide r =>
      setTopImageAnim (fun prev =>
        {| current := current prev; next := next prev; phase := hide_current |})
      >>> setTimeout 600 (AnimShowNext r)
  | AnimShowNext r =>
      setTopImageAnim (fun prev =>
        {| current := current prev; next := index ANIMALS (r + 1);
           phase := show_next |})
      >>> setTimeout 600 (AnimDone r)
  | AnimDone r =>
      setTopImageAnim (fun _ =>
        {| current := index ANIMALS (r + 1); next := None;
           phase := if r + 1 <? TOTAL_ROUNDS then show_current else idle |})
      >>> setCurrentRound (fun prev => prev + 1)
      >>> feedbackOff
      >>> queueIfPlayable u (r + 1)
  | ErrorEnd =>
      feedbackOff
      >>> (fun s =>
            let r := currentRoundRef (refs s) in
            match (if r <? TOTAL_ROUNDS then index ANIMALS r else None) with
            | Some curr =>
                match randomWrong u (ARScreen.name curr) with
                | None => emit (Uncaught "TypeError") s
                | Some w => queueRound (ARScreen.name curr) (ARScreen.name w) s
                end
            | None => skip s
            end)
  end.

(** The effect with dependency [[currentRound]]: it copies [currentRound]
    into [currentRoundRef] after a render in which the round changed. *)
Definition afterRender (before : Screen) : Act := fun s =>
  let r := refs s in
  if currentRound (hooks before) =? currentRound (hooks s) then skip s
  else
  (withRefs {| left := left r; right := right r;
               correctEntityId := correctEntityId r;
               worldLeft := worldLeft r; worldRight := worldRight r;
               entityIdToAnimal := entityIdToAnimal r;
               currentRoundRef := currentRound (hooks s);
               animTimeoutRef := animTimeoutRef r |} s, []).

(** The pending timer that is due first (the oldest one among equals). *)
Fixpoint earliest (l : list Timer) : option Timer :=
  match l with
  | [] => None
  | t :: r =>
      match earliest r with
      | Some t' => if due t' <? due t then Some t' else Some t
      | None => Some t
      end
  end.

(** Time passes until the next timer is due, its callback runs, the page
    renders. *)
Definition fireNext (u : Q) (s : Screen) : option (Screen * list Effect) :=
  match earliest (timers s) with
  | None => None
  | Some t =>
      let s' := {| arScene := arScene s; sceneEl := sceneEl s; hooks := hooks s;
                   refs := refs s; now := Z.max (now s) (due t);
                   nextTimerId := nextTimerId s;
                   timers := List.filter (fun t' => negb (timerId t' =? timerId t))
                                         (timers s) |} in
      Some ((runTask u (task t) >>> afterRender s) s')
  end.

(** A screen waiting for a selection at round [r]. *)
Definition waiting (r : Z) : Screen :=
  {| arScene := true; sceneEl := true;
     hooks := {| currentRound := r; selectedAnimal := None; feedbackType := None;
                 isAnimating := false; feedbackMounted := false;
                 topImageAnim := {| current := index ANIMALS r; next := None;
                                    phase := show_current |};
                 pendingARImages := {| correct := None; wrong := None |};
                 canDisplayAnimals := true |};
     refs := {| left := None; right := None; correctEntityId := None;
                worldLeft := None; worldRight := None; entityIdToAnimal := ∅;
                currentRoundRef := r; animTimeoutRef := None |};
     now := 0; nextTimerId := 1; timers := [] |}.

(** The correct animal of round [r], as [handleAnimalClick] computes it. *)
Definition correctOf (r : Z) : option AnimalType :=
  ARScreen.name <$> (if r <? TOTAL_ROUNDS then index ANIMALS r else None).

(** The screen is at rest at round [r]: no feedback is on, no callback is
    pending, [currentRoundRef] is in step with [currentRound]. *)
Definition atRest (r : Z) (s : Screen) : Prop :=
  isAnimating (hooks s) = false /\ timers s = []
  /\ currentRound (hooks s) = r /\ currentRoundRef (refs s) = r.

(** The feedback of the selection of [clicked] is on at round [r]. *)
Definition shown (clicked : AnimalType) (f : Feedback) (r : Z) (s : Screen) : Prop :=
  isAnimating (hooks s) = true /\ selectedAnimal (hooks s) = Some clicked
  /\ feedbackType (hooks s) = Some f /\ currentRound (hooks s) = r.

(** The feedback flags and the selected animal are cleared. *)
Definition over (s : Screen) : Prop :=
  isAnimating (hooks s) = false /\ selectedAnimal (hooks s) = None
  /\ feedbackType (hooks s) = None.

(** Round [r] is queued: its animal and another one are the pending AR
    images, and the animals are not displayed until they are loaded. *)
Definition queued (r : Z) (s : Screen) : Prop :=
  correct (pendingARImages (hooks s)) = correctOf r
  /\ (exists w, wrong (pendingARImages (hooks s)) = Some w
                /\ Some w <> correctOf r)
  /\ canDisplayAnimals (hooks s) = false.

End PreloadRevision.

(** * Properties of [ARScreen.tsx] *)
Module ARScreenFacts.

Import ARScreen.

(** ** What the actions leave alone *)

Ltac open_screen s :=
  destruct s as [[? ? ? ? ? ? ? ? ?] ? [? ? ? ? ? ? ?] [? ? ? ?] ? ? ? ?].

(** Run the actions of the goal on an opened screen. *)
Ltac run_acts :=
  lazy beta iota zeta delta
   [clearAnimals andThen emit skip
    setIsAnimating setSelectedAnimal setFeedbackType setCurrentRound
    setSceneReady setArLoading setIsFadingIn setTimeout setEntities
    setCorrect withHooks withRefs withTimers withNow withCameraPending
    fst snd hooks refs cfg animals timers now cameraPending keydownListener
    left right correctEntityId correctEntityPos arScene sceneEl usarVideo base
    canUpdatePosition mediaDevices existingVideo existingStream punctual
    isAnimating selectedAnimal feedbackType currentRound sceneReady
    arLoading isFadingIn app cleared].

(** The same, leaving [++] folded. *)
Ltac run_state :=
  lazy beta iota zeta delta
   [clearAnimals andThen emit skip
    setIsAnimating setSelectedAnimal setFeedbackType setCurrentRound
    setSceneReady setArLoading setIsFadingIn setTimeout setEntities
    setCorrect withHooks withRefs withTimers withNow withCameraPending
    fst snd hooks refs cfg animals timers now cameraPending keydownListener
    left right correctEntityId correctEntityPos arScene sceneEl usarVideo base
    canUpdatePosition mediaDevices existingVideo existingStream punctual
    isAnimating selectedAnimal feedbackType currentRound sceneReady
    arLoading isFadingIn].

Lemma clearAnimals_calls s : (clearAnimals s).2 = map RemoveEntity (cleared s).
Proof.
  open_screen s; run_acts.
  rewrite map_app. do 2 destruct (truthy _ && _)%bool; reflexivity.
Qed.

Lemma clearAnimals_frame s :
  let s' := (clearAnimals s).1 in
  cfg s' = cfg s /\ animals s' = animals s /\ hooks s' = hooks s
  /\ timers s' = timers s /\ now s' = now s
  /\ cameraPending s' = cameraPending s /\ keydownListener s' = keydownListener s
  /\ correctEntityPos (refs s') = correctEntityPos (refs s).
Proof.
  open_screen s; run_acts. repeat split; reflexivity.
Qed.

Lemma sounds_app e1 e2 : sounds (e1 ++ e2) = sounds e1 ++ sounds e2.
Proof.
  induction e1 as [|[] e1 IH]; cbn; [reflexivity | rewrite ?IH; reflexivity ..].
Qed.

Lemma additions_app e1 e2 : additions (e1 ++ e2) = additions e1 ++ additions e2.
Proof.
  induction e1 as [|[] e1 IH]; cbn; [reflexivity | rewrite ?IH; reflexivity ..].
Qed.

Lemma removals_app e1 e2 : removals (e1 ++ e2) = removals e1 ++ removals e2.
Proof.
  induction e1 as [|[] e1 IH]; cbn; [reflexivity | rewrite ?IH; reflexivity ..].
Qed.

Lemma navigations_app e1 e2 :
  navigations (e1 ++ e2) = navigations e1 ++ navigations e2.
Proof.
  induction e1 as [|[] e1 IH]; cbn; [reflexivity | rewrite ?IH; reflexivity ..].
Qed.

Lemma removes_only l :
  sounds (map RemoveEntity l) = [] /\ additions (map RemoveEntity l) = []
  /\ navigations (map RemoveEntity l) = [] /\ removals (map RemoveEntity l) = l.
Proof.
  induction l as [|i l (IH1 & IH2 & IH3 & IH4)]; cbn; [auto |].
  rewrite IH4. auto.
Qed.

(** ** A processed selection *)

(** What [handleAnimalClick] does when no feedback is running. *)
Lemma handleAnimalClick_idle clicked correct s :
  isAnimating (hooks s) = false ->
  let r := handleAnimalClick clicked correct s in
  let isCorrect := bool_decide (clicked = correct) in
  hooks r.1 =
    {| arLoading := arLoading (hooks s); isFadingIn := isFadingIn (hooks s);
       currentRound := currentRound (hooks s); sceneReady := sceneReady (hooks s);
       selectedAnimal := Some clicked;
       feedbackType := Some (if isCorrect then success else error);
       isAnimating := true |}
  /\ r.2 =
       [Console Log "[ARScreen] handleAnimalClick acionado!";
        PlaySound ClickSound;
        PlaySound (if isCorrect then SuccessSound else ErrorSound)]
       ++ map RemoveEntity (cleared s)
       ++ [SetTimeout 2000 (FeedbackEnd (sceneReady (hooks s)))]
  /\ refs r.1 = refs (clearAnimals s).1
  /\ timers r.1 = timers s ++ [(now s + 2000, FeedbackEnd (sceneReady (hooks s)))]
  /\ cfg r.1 = cfg s /\ animals r.1 = animals s /\ now r.1 = now s
  /\ cameraPending r.1 = cameraPending s
  /\ keydownListener r.1 = keydownListener s.
Proof.
  intros Hidle. open_screen s; cbn in Hidle; subst.
  unfold handleAnimalClick; run_acts.
  repeat split; try reflexivity.
  rewrite map_app. do 2 destruct (truthy _ && _)%bool; reflexivity.
Qed.

(** While the feedback runs, [handleAnimalClick] only logs. *)
Lemma handleAnimalClick_busy clicked correct s :
  isAnimating (hooks s) = true ->
  handleAnimalClick clicked correct s =
    (s, [Console Log "[ARScreen] handleAnimalClick acionado!"]).
Proof.
  intros Hbusy. unfold handleAnimalClick, andThen, emit, skip; cbn.
  rewrite Hbusy. reflexivity.
Qed.


Lemma round_cases r : 0 <= r < 5 -> r = 0 \/ r = 1 \/ r = 2 \/ r = 3 \/ r = 4.
Proof. lia. Qed.

(** During a playable round every selection reaches [handleAnimalClick]
    with the name of the round's entry of [ANIMALS] as the correct animal. *)
Lemma select_dispatch s sel :
  animals s = ANIMALS ->
  0 <= currentRound (hooks s) < 5 ->
  isAnimating (hooks s) = false ->
  exists a,
    index ANIMALS (currentRound (hooks s)) = Some a
    /\ currentAnimal s = Some a
    /\ select sel s =
         ((handleAnimalClick (picked sel a) (name a) s).1,
          preamble sel ++ (handleAnimalClick (picked sel a) (name a) s).2).
Proof.
  intros Han Hr Hidle.
  destruct (round_cases _ Hr) as [H|[H|[H|[H|H]]]].
  all: destruct sel as [a'|[|]].
  all: unfold select, handleTouchStart, desktopClick, handleDesktopAnimalClick,
         currentAnimal, wrongAnimals, andThen, emit.
  all: cbn [fst snd]; rewrite ?Hidle, ?Han, ?H.
  all: eexists; split; [reflexivity|]; split; [reflexivity|].
  all: reflexivity.
Qed.

Lemma preamble_quiet sel :
  sounds (preamble sel) = [] /\ additions (preamble sel) = []
  /\ removals (preamble sel) = [] /\ navigations (preamble sel) = [].
Proof. destruct sel; repeat split; reflexivity. Qed.

(** C1.  While the round index [r] is between 0 and 4, the correct animal of
    a selection is the name of the [r]-th entry of [ANIMALS]; a selection
    that is processed (no feedback running) sets the success flag and plays
    the success sound if and only if the animal picked has that name, and
    otherwise sets the error flag and plays the error sound. *)
Theorem selection_feedback (s : Screen) (sel : Selection) :
  animals s = ANIMALS ->
  0 <= currentRound (hooks s) < 5 ->
  isAnimating (hooks s) = false ->
  exists a,
    index ANIMALS (currentRound (hooks s)) = Some a
    /\ currentAnimal s = Some a
    /\ selectedAnimal (hooks (select sel s).1) = Some (picked sel a)
    /\ (picked sel a = name a <->
          feedbackType (hooks (select sel s).1) = Some success)
    /\ (feedbackType (hooks (select sel s).1) = Some success ->
          sounds (select sel s).2 = [ClickSound; SuccessSound])
    /\ (feedbackType (hooks (select sel s).1) <> Some success ->
          feedbackType (hooks (select sel s).1) = Some error
          /\ sounds (select sel s).2 = [ClickSound; ErrorSound]).
Proof.
  intros Han Hr Hidle.
  destruct (select_dispatch s sel Han Hr Hidle) as (a & Hidx & Hcur & Hsel).
  destruct (preamble_quiet sel) as (Hpre & _).
  destruct (handleAnimalClick_idle (picked sel a) (name a) s Hidle)
    as (Hh & He & _).
  assert (Hs : sounds (select sel s).2 =
               [ClickSound;
                if bool_decide (picked sel a = name a)
                then SuccessSound else ErrorSound]).
  { rewrite Hsel. cbn [snd]. rewrite sounds_app, Hpre, He, !sounds_app.
    destruct (removes_only (cleared s)) as (-> & _). reflexivity. }
  assert (Hf : hooks (select sel s).1 = hooks (handleAnimalClick (picked sel a) (name a) s).1).
  { rewrite Hsel. reflexivity. }
  exists a. rewrite Hs, Hf, Hh. cbn [selectedAnimal feedbackType].
  split; [exact Hidx|]. split; [exact Hcur|]. split; [reflexivity|].
  destruct (bool_decide_reflect (picked sel a = name a)) as [Heq|Hne].
  - split; [tauto|]. split; [reflexivity|]. intros H; contradiction.
  - split; [split; [contradiction | discriminate]|].
    split; [discriminate|]. intros _. split; reflexivity.
Qed.

Lemma selection_feedback_witness :
  feedbackType (hooks (select (ByTouch cachorro) (playing 1)).1) = Some success
  /\ feedbackType (hooks (select (ByTouch gato) (playing 1)).1) = Some error.
Proof.
  destruct (selection_feedback (playing 1) (ByTouch cachorro))
    as (a & Ha & _ & _ & Hiff & _); [reflexivity | cbn; lia | reflexivity |].
  destruct (selection_feedback (playing 1) (ByTouch gato))
    as (b & Hb & _ & _ & _ & _ & Herr); [reflexivity | cbn; lia | reflexivity |].
  split.
  - apply Hiff. injection Ha as <-. reflexivity.
  - apply Herr. vm_compute. discriminate.
Defined.


(** ** A spawn *)

(** [spawnAnimals] with the scene mounted and both animals found. *)
Lemma spawnAnimals_mounted s o c w cc wc :
  arScene (cfg s) = true -> sceneEl (cfg s) = true ->
  findAnimal s c = Some cc -> findAnimal s w = Some wc ->
  let la := if correctOnLeft o then cc else wc in
  let ra := if correctOnLeft o then wc else cc in
  let r := spawnAnimals true o c w s in
  r.2 = map RemoveEntity (cleared s)
        ++ [ShowScene;
            AddEntity (entityAttrs s la leftPos) (leftId o);
            AddEntity (entityAttrs s ra rightPos) (rightId o);
            SetTimeout 200 (Refresh (leftId o) (rightId o) (name la) (name ra))]
  /\ refs r.1 =
       {| left := Some (leftId o); right := Some (rightId o);
          correctEntityId :=
            Some (if correctOnLeft o then leftId o else rightId o);
          correctEntityPos := if correctOnLeft o then leftPos else rightPos |}
  /\ hooks r.1 = hooks s /\ cfg r.1 = cfg s /\ animals r.1 = animals s
  /\ now r.1 = now s
  /\ timers r.1 =
       timers s ++ [(now s + 200,
                     Refresh (leftId o) (rightId o) (name la) (name ra))]
  /\ cameraPending r.1 = cameraPending s
  /\ keydownListener r.1 = keydownListener s.
Proof.
  intros Hsc Hel Hc Hw.
  open_screen s; cbn in Hsc, Hel; subst.
  unfold findAnimal in Hc, Hw; cbn [animals] in Hc, Hw.
  unfold spawnAnimals, findAnimal; run_acts. rewrite Hc, Hw.
  destruct (correctOnLeft o); run_acts.
  all: repeat split; try reflexivity.
  all: rewrite map_app; do 2 destruct (truthy _ && _)%bool;
    rewrite <- ?app_assoc; reflexivity.
Qed.

(** [Math.floor(Math.random() * n)] is an index of an array of [n > 0]
    elements. *)
Lemma random_index (u : Q) (n : nat) :
  (0 <= u)%Q -> (u < 1)%Q -> (0 < n)%nat ->
  0 <= Qfloor (u * inject_Z (Z.of_nat n)) < Z.of_nat n.
Proof.
  intros H0 H1 Hn.
  assert (Hpos : (0 < inject_Z (Z.of_nat n))%Q).
  { change 0%Q with (inject_Z 0). rewrite <- Zlt_Qlt. lia. }
  split.
  - change 0 with (Qfloor 0). apply Qfloor_resp_le.
    apply Qmult_le_0_compat; [exact H0 | apply Qlt_le_weak; exact Hpos].
  - rewrite Zlt_Qlt.
    apply Qle_lt_trans with (u * inject_Z (Z.of_nat n))%Q; [apply Qfloor_le|].
    apply Qlt_le_trans with (1 * inject_Z (Z.of_nat n))%Q.
    + apply Qmult_lt_compat_r; assumption.
    + apply Qle_lteq. right. apply Qmult_1_l.
Qed.

Lemma index_cases4 k : 0 <= k < 4 -> k = 0 \/ k = 1 \/ k = 2 \/ k = 3.
Proof. lia. Qed.

(** The wrong animal of a playable round is an entry of [ANIMALS] other than
    the round's. *)
Lemma randomWrongAnimal_ok s o r :
  animals s = ANIMALS -> 0 <= r < 5 ->
  (0 <= randomWrong o)%Q -> (randomWrong o < 1)%Q ->
  exists correct wrong,
    index ANIMALS r = Some correct
    /\ randomWrongAnimal o (wrongAnimals s (name correct)) = Some wrong
    /\ In wrong ANIMALS /\ name wrong <> name correct
    /\ findAnimal s (name correct) = Some correct
    /\ findAnimal s (name wrong) = Some wrong.
Proof.
  intros Han Hr H0 H1. unfold randomWrongAnimal, wrongAnimals, findAnimal.
  rewrite Han.
  pose proof (random_index (randomWrong o) 4 H0 H1 ltac:(lia)) as Hk.
  destruct (round_cases _ Hr) as [H|[H|[H|[H|H]]]]; subst r.
  all: match goal with
       | |- exists c w, index ANIMALS ?r = Some c /\ _ =>
           let v := eval lazy in (index ANIMALS r) in
           match v with Some ?a => exists a end
       end.
  all: lazy beta iota zeta delta
         [List.filter name bool_decide decide_rel negb AnimalType_eq_dec
          AnimalType_rec AnimalType_rect ANIMALS length sumbool_rec sumbool_rect].
  all: destruct (index_cases4 _ Hk) as [K|[K|[K|K]]]; rewrite K.
  all: eexists; split; [reflexivity|].
  all: split; [reflexivity|].
  all: split; [cbn; tauto|]; split; [discriminate|]; split; reflexivity.
Qed.


(** The spawn of a playable round on a mounted scene is [spawnAnimals] on
    the round's animal and a wrong one. *)
Lemma spawnRound_playable s o r :
  animals s = ANIMALS -> 0 <= r < 5 ->
  (0 <= randomWrong o)%Q -> (randomWrong o < 1)%Q ->
  exists correct wrong,
    index ANIMALS r = Some correct
    /\ In wrong ANIMALS /\ name wrong <> name correct
    /\ findAnimal s (name correct) = Some correct
    /\ findAnimal s (name wrong) = Some wrong
    /\ forall ready,
         spawnRound ready o r s
         = spawnAnimals ready o (name correct) (name wrong) s.
Proof.
  intros Han Hr H0 H1.
  destruct (randomWrongAnimal_ok s o r Han Hr H0 H1)
    as (correct & wrong & Hidx & Hw & Hin & Hne & Hfc & Hfw).
  exists correct, wrong. repeat (split; [assumption|]).
  intros ready. unfold spawnRound. rewrite Han, Hidx, Hw. reflexivity.
Qed.





(** ** Entities are destroyed *)

Lemma truthy_nonempty i : i <> "" -> truthy (Some i) = true.
Proof.
  intros Hi. unfold truthy. destruct (String.eqb_spec i ""); [contradiction | reflexivity].
Qed.

(** With the scene ref set and non-empty ids, [clearAnimals] removes every
    entity the refs hold. *)
Lemma cleared_referenced s :
  arScene (cfg s) = true ->
  (forall i, In i (referenced s) -> i <> "") ->
  cleared s = referenced s.
Proof.
  intros Hsc Hids. unfold cleared, referenced in *. rewrite Hsc.
  destruct (left (refs s)) as [l|], (right (refs s)) as [r|];
    cbn [option_list app In] in *;
    rewrite ?truthy_nonempty by (apply Hids; cbn; auto); reflexivity.
Qed.

Lemma clearAnimals_refs s :
  arScene (cfg s) = true ->
  (forall i, In i (referenced s) -> i <> "") ->
  left (refs (clearAnimals s).1) = None
  /\ right (refs (clearAnimals s).1) = None
  /\ correctEntityId (refs (clearAnimals s).1) = None.
Proof.
  intros Hsc Hids. unfold referenced in Hids.
  open_screen s; cbn in Hsc, Hids; subst. run_acts.
  repeat split.
  - destruct left0 as [l|]; [|reflexivity].
    rewrite truthy_nonempty by (apply Hids; cbn; auto). reflexivity.
  - destruct right0 as [r|]; [|reflexivity].
    rewrite truthy_nonempty by (apply Hids; apply in_or_app; cbn; auto).
    reflexivity.
Qed.

(** With the scene ref set and the ids returned by [addEntity]
    non-empty: [clearAnimals] leaves the left, right and correct-entity refs
    null and gives every entity the refs held to [removeEntity]; a processed
    selection, correct or not, does so too and adds nothing; a spawn removes
    them before it adds its two entities; and the two entities of a spawn
    are the ones the next selection removes. *)
Lemma clear_select_spawn (s : Screen) (o : Oracle) (r : Z)
    (clicked correct : AnimalType) :
  animals s = ANIMALS ->
  arScene (cfg s) = true -> sceneEl (cfg s) = true ->
  (forall i, In i (referenced s) -> i <> "") ->
  leftId o <> "" -> rightId o <> "" ->
  0 <= r < 5 -> (0 <= randomWrong o)%Q -> (randomWrong o < 1)%Q ->
  isAnimating (hooks s) = false ->
  (left (refs (clearAnimals s).1) = None
   /\ right (refs (clearAnimals s).1) = None
   /\ correctEntityId (refs (clearAnimals s).1) = None
   /\ removals (clearAnimals s).2 = referenced s)
  /\ (left (refs (handleAnimalClick clicked correct s).1) = None
      /\ right (refs (handleAnimalClick clicked correct s).1) = None
      /\ correctEntityId (refs (handleAnimalClick clicked correct s).1) = None
      /\ removals (handleAnimalClick clicked correct s).2 = referenced s
      /\ additions (handleAnimalClick clicked correct s).2 = [])
  /\ (exists post,
        (spawnRound true o r s).2 = map RemoveEntity (referenced s) ++ post
        /\ removals post = []
        /\ map snd (additions post) = [leftId o; rightId o]
        /\ left (refs (spawnRound true o r s).1) = Some (leftId o)
        /\ right (refs (spawnRound true o r s).1) = Some (rightId o)
        /\ removals (handleAnimalClick clicked correct (spawnRound true o r s).1).2
           = [leftId o; rightId o]).
Proof.
  intros Han Hsc Hel Hids Hl Hr Hround H0 H1 Hidle.
  pose proof (cleared_referenced s Hsc Hids) as Hcl.
  destruct (clearAnimals_refs s Hsc Hids) as (C1 & C2 & C3).
  destruct (removes_only (referenced s)) as (_ & Radd & _ & Rrem).
  split.
  { repeat (split; [assumption|]).
    rewrite clearAnimals_calls, Hcl. exact Rrem. }
  split.
  { destruct (handleAnimalClick_idle clicked correct s Hidle)
      as (_ & He & Hrefs & _).
    rewrite Hrefs, He, Hcl. repeat (split; [assumption|]).
    rewrite !removals_app, !additions_app, Rrem, Radd.
    cbn [removals additions app]. rewrite app_nil_r. split; reflexivity. }
  destruct (spawnRound_playable s o r Han Hround H0 H1)
    as (c & w & _ & _ & _ & Hfc & Hfw & Hsp).
  destruct (spawnAnimals_mounted s o _ _ _ _ Hsc Hel Hfc Hfw)
    as (He & Hrefs & Hh & Hcfg & _).
  rewrite Hsp. eexists. split; [rewrite He, Hcl; reflexivity|].
  split; [reflexivity|]. split; [reflexivity|].
  rewrite Hrefs. split; [reflexivity|]. split; [reflexivity|].
  set (s1 := (spawnAnimals true o (name c) (name w) s).1) in *.
  assert (Hidle1 : isAnimating (hooks s1) = false) by (rewrite Hh; exact Hidle).
  assert (Href1 : referenced s1 = [leftId o; rightId o])
    by (unfold referenced; rewrite Hrefs; reflexivity).
  destruct (handleAnimalClick_idle clicked correct s1 Hidle1) as (_ & He1 & _).
  rewrite He1, !removals_app, cleared_referenced, Href1.
  - destruct (removes_only [leftId o; rightId o]) as (_ & _ & _ & ->).
    cbn [removals app]. reflexivity.
  - rewrite Hcfg. exact Hsc.
  - rewrite Href1. intros i [<-|[<-|[]]]; assumption.
Qed.

(** ** The movement keys *)

Lemma handler_guarded key s :
  truthy (correctEntityId (refs s)) = true -> arScene (cfg s) = true ->
  let p := correctEntityPos (refs s) in
  let m := moveKeys key {| mx := x p; my := y p; mz := z p; moved := false |} in
  movedTo key s = (if moved m then {| x := mx m; y := my m; z := mz m |} else p).
Proof.
  intros Hid Hsc. unfold movedTo, handler. rewrite Hid, Hsc. cbn [negb orb].
  destruct (moved _); reflexivity.
Qed.

(** C10.  In the [keydown] handler of the WASD effect, with a correct
    entity recorded and the scene ref set: W and S (in either case) subtract
    and add [MOVE_STEP] to [z] only, A and D subtract and add it to [x]
    only, ArrowUp and ArrowDown add and subtract it to [y] only, each by
    one binary64 operation on the stored coordinate; any other key leaves
    the stored position, and the whole state, as it was. *)
Theorem key_moves_one_axis (s : Screen) (key : string) :
  truthy (correctEntityId (refs s)) = true ->
  arScene (cfg s) = true ->
  let p := correctEntityPos (refs s) in
  (toLowerCase key = "w" ->
     movedTo key s = {| x := x p; y := y p; z := (z p - MOVE_STEP)%float |})
  /\ (toLowerCase key = "s" ->
       movedTo key s = {| x := x p; y := y p; z := (z p + MOVE_STEP)%float |})
  /\ (toLowerCase key = "a" ->
       movedTo key s = {| x := (x p - MOVE_STEP)%float; y := y p; z := z p |})
  /\ (toLowerCase key = "d" ->
       movedTo key s = {| x := (x p + MOVE_STEP)%float; y := y p; z := z p |})
  /\ (key = "ArrowUp" ->
       movedTo key s = {| x := x p; y := (y p + MOVE_STEP)%float; z := z p |})
  /\ (key = "ArrowDown" ->
       movedTo key s = {| x := x p; y := (y p - MOVE_STEP)%float; z := z p |})
  /\ (recognized key = false -> handler key s = (s, []) /\ movedTo key s = p).
Proof.
  intros Hid Hsc p.
  pose proof (handler_guarded key s Hid Hsc) as Hm. cbn zeta in Hm. fold p in Hm.
  assert (Hup : key = "ArrowUp" -> toLowerCase key = "arrowup")
    by (intros ->; reflexivity).
  assert (Hdown : key = "ArrowDown" -> toLowerCase key = "arrowdown")
    by (intros ->; reflexivity).
  repeat match goal with |- _ /\ _ => split end.
  1-4: intros Hk; rewrite Hm; unfold moveKeys, keyStep; rewrite Hk;
    destruct (String.eqb_spec key "ArrowUp") as [E|_];
    [apply Hup in E; rewrite Hk in E; discriminate|];
    destruct (String.eqb_spec key "ArrowDown") as [E|_];
    [apply Hdown in E; rewrite Hk in E; discriminate|];
    reflexivity.
  1-2: intros Hk; rewrite Hm; unfold moveKeys, keyStep;
    first [rewrite (Hup Hk) | rewrite (Hdown Hk)]; rewrite Hk; reflexivity.
  intros Hrec. unfold recognized in Hrec.
  repeat (apply orb_false_elim in Hrec; destruct Hrec as [Hrec ?]).
  split.
  - unfold handler, moveKeys, keyStep. rewrite Hid, Hsc.
    repeat match goal with H : String.eqb _ _ = false |- _ => rewrite H end.
    reflexivity.
  - rewrite Hm. unfold moveKeys, keyStep.
    repeat match goal with H : String.eqb _ _ = false |- _ => rewrite H end.
    reflexivity.
Qed.

Lemma key_moves_one_axis_witness :
  movedTo "W" (playing 0)
  = {| x := (-1.5)%float; y := 0%float; z := (-6 - 0.2)%float |}
  /\ movedTo "Enter" (playing 0) = leftPos.
Proof.
  destruct (key_moves_one_axis (playing 0) "W") as (Hw & _);
    [reflexivity | reflexivity |].
  destruct (key_moves_one_axis (playing 0) "Enter") as (_ & _ & _ & _ & _ & _ & Hn);
    [reflexivity | reflexivity |].
  split.
  - apply Hw. reflexivity.
  - apply Hn. reflexivity.
Defined.

End ARScreenFacts.

(** * What every step of [ARScreen.tsx] preserves *)
Module ARScreenFrame.

Import ARScreen ARScreenFacts.

(** ** Relations that compose along [>>>] *)
Section Composition.

Variable R : Screen -> Screen -> list Effect -> Prop.
Hypothesis R_refl : forall s, R s s [].
Hypothesis R_trans : forall s s1 s2 e1 e2,
  R s s1 e1 -> R s1 s2 e2 -> R s s2 (e1 ++ e2).

Lemma rel_skip s : R s ((skip : Act) s).1 ((skip : Act) s).2.
Proof. apply R_refl. Qed.

Lemma rel_andThen (a b : Act) s :
  R s (a s).1 (a s).2 ->
  (forall s1, R s1 (b s1).1 (b s1).2) ->
  R s ((a >>> b) s).1 ((a >>> b) s).2.
Proof.
  intros Ha Hb. unfold andThen. cbn [fst snd]. eapply R_trans; [exact Ha | apply Hb].
Qed.

End Composition.

Lemma framed_refl s : framed s s [].
Proof. unfold framed. repeat split; try reflexivity; try (intros; assumption); lia. Qed.

Lemma framed_trans s s1 s2 e1 e2 :
  framed s s1 e1 -> framed s1 s2 e2 -> framed s s2 (e1 ++ e2).
Proof.
  unfold framed. intros (A1 & A2 & A3 & A4 & A5 & A6) (B1 & B2 & B3 & B4 & B5 & B6).
  rewrite navigations_app, A3, B3.
  repeat match goal with |- _ /\ _ => split end;
    try reflexivity; try congruence; try lia.
  intros H. apply B6, A6, H.
Qed.

Ltac head_of t :=
  lazymatch t with
  | ?f _ => head_of f
  | _ => t
  end.

(** Decompose an action along [>>>] and its conditions; [leaf] closes the
    goals about the primitive actions. *)
Ltac walk trans leaf :=
  cbv beta zeta;
  lazymatch goal with
  | |- ?R ?s (fst ((?a >>> ?b) ?s)) (snd ((?a >>> ?b) ?s)) =>
      apply (rel_andThen _ trans a b s);
      [walk trans leaf | let s1 := fresh "s" in intros s1; walk trans leaf]
  | |- ?R ?s (fst (if ?c then _ else _)) _ =>
      first
        [ let v := eval lazy in c in
          lazymatch v with
          | true => change c with true; cbv iota
          | false => change c with false; cbv iota
          end
        | destruct c eqn:? ];
      walk trans leaf
  | |- ?R ?s (fst (match ?c with _ => _ end)) _ =>
      destruct c eqn:?; walk trans leaf
  | |- ?R ?s (fst ((if ?c then _ else _) ?s)) _ =>
      destruct c eqn:?; walk trans leaf
  | |- ?R ?s (fst ((match ?c with _ => _ end) ?s)) _ =>
      destruct c eqn:?; walk trans leaf
  | |- ?R ?s (fst (?a ?s)) (snd (?a ?s)) =>
      first
        [ solve [leaf s]
        | let h := head_of a in unfold h; walk trans leaf ]
  end.

Lemma clearAnimals_framed s : framed s (clearAnimals s).1 (clearAnimals s).2.
Proof.
  destruct (clearAnimals_frame s) as (A & B & C & _ & D & _).
  unfold framed. rewrite A, B, C, D, clearAnimals_calls.
  destruct (removes_only (cleared s)) as (_ & _ & -> & _).
  repeat split; try reflexivity; try (intros; assumption); lia.
Qed.

Ltac framed_leaf s :=
  first
    [ apply clearAnimals_framed
    | open_screen s; unfold framed; run_acts;
      repeat split; try reflexivity; try (intros; assumption); lia ].

Ltac frame := intros; walk framed_trans framed_leaf.

Lemma handleAnimalClick_framed clicked correct s :
  framed s (handleAnimalClick clicked correct s).1
           (handleAnimalClick clicked correct s).2.
Proof. frame. Qed.

Lemma spawnAnimals_framed ready o c w s :
  framed s (spawnAnimals ready o c w s).1 (spawnAnimals ready o c w s).2.
Proof. frame. Qed.

Lemma spawnRound_framed ready o r s :
  framed s (spawnRound ready o r s).1 (spawnRound ready o r s).2.
Proof. frame. Qed.


Lemma setupCamera_framed c s : framed s (setupCamera c s).1 (setupCamera c s).2.
Proof. frame. Qed.

Lemma handleTouchStart_framed p s :
  framed s (handleTouchStart p s).1 (handleTouchStart p s).2.
Proof. frame. Qed.

Lemma desktopClick_framed other s :
  framed s (desktopClick other s).1 (desktopClick other s).2.
Proof. frame. Qed.

Lemma handler_framed key s : framed s (handler key s).1 (handler key s).2.
Proof.
  unfold handler, skip.
  destruct (negb _ || negb _)%bool; [apply framed_refl|].
  destruct (moved _); [|apply framed_refl].
  open_screen s; unfold framed; run_acts.
  destruct canUpdatePosition0, correctEntityId0;
    repeat split; try reflexivity; try (intros; assumption); lia.
Qed.

Lemma feedbackEnd_framed o ready s :
  framed s (runTask o (FeedbackEnd ready) s).1 (runTask o (FeedbackEnd ready) s).2.
Proof.
  open_screen s; unfold runTask, framed; run_acts.
  destruct (_ <? _); run_acts; repeat split; try reflexivity; try (intros; assumption); lia.
Qed.

Lemma runTask_framed o t s : framed s (runTask o t s).1 (runTask o t s).2.
Proof.
  destruct t; [ | apply feedbackEnd_framed | ..]; unfold runTask.
  1, 3, 5: unfold forceRender; frame.
  - apply spawnRound_framed.
  - destruct (closureRound =? 0); [|apply framed_refl].
    unfold startRound. change (0 >=? TOTAL_ROUNDS) with false. cbv iota.
    apply spawnRound_framed.
Qed.

Lemma afterRender_framed before s :
  framed s (afterRender before s).1 (afterRender before s).2.
Proof. frame. Qed.

(** Every step leaves the configuration and [ANIMALS] as they were, calls
    no navigation, and lets neither the clock nor the round index go
    back. *)
Lemma step_framed ev s s' e : step ev s = Some (s', e) -> framed s s' e.
Proof.
  unfold step. destruct (dispatch ev s) as [h|] eqn:Hd; [|discriminate].
  intros [= <- <-].
  apply (rel_andThen _ framed_trans); [|apply afterRender_framed].
  destruct ev; cbn [dispatch] in Hd.
  - destruct (cameraPending s); [|discriminate]. injection Hd as <-.
    apply (rel_andThen _ framed_trans); [|apply setupCamera_framed].
    framed_leaf s.
  - injection Hd as <-. framed_leaf s.
  - destruct (_ && _)%bool; [|discriminate]. injection Hd as <-.
    apply handleTouchStart_framed.
  - destruct (desktopShown s); [|discriminate]. injection Hd as <-.
    apply desktopClick_framed.
  - destruct (keydownListener s); [|discriminate]. injection Hd as <-.
    apply handler_framed.
  - destruct (canTick t s) eqn:Ht; [|discriminate]. injection Hd as <-.
    unfold canTick in Ht. apply andb_prop in Ht as [Ht _].
    apply Z.ltb_lt in Ht.
    open_screen s; unfold framed; run_acts. cbn [now] in Ht.
    repeat split; try reflexivity; try (intros; assumption); lia.
  - destruct (nth_error (timers s) k) as [[due task]|]; [|discriminate].
    destruct (canFire due s); [|discriminate]. injection Hd as <-.
    apply (rel_andThen _ framed_trans); [|intros; apply runTask_framed].
    framed_leaf s.
Qed.

Lemma run_framed s e s' : run s e s' -> framed s s' e.
Proof.
  induction 1 as [s | s ev s1 e1 e2 s2 Hstep _ IH]; [apply framed_refl|].
  eapply framed_trans; [eapply step_framed; exact Hstep | exact IH].
Qed.


(** ** Quiet and silent handlers *)

Lemma quiet_refl s : quiet s s [].
Proof.
  unfold quiet. repeat split. exists []. rewrite app_nil_r. split; [reflexivity | constructor].
Qed.

Lemma quiet_trans s s1 s2 e1 e2 :
  quiet s s1 e1 -> quiet s1 s2 e2 -> quiet s s2 (e1 ++ e2).
Proof.
  unfold quiet. intros (A1 & A2 & x1 & A3 & A4) (B1 & B2 & x2 & B3 & B4).
  repeat split; try congruence.
  exists (x1 ++ x2). rewrite B3, A3, app_assoc. split; [reflexivity|].
  apply Forall_app; split; assumption.
Qed.

Lemma silent_refl s : silent s s [].
Proof. split; [apply quiet_refl | reflexivity]. Qed.

Lemma silent_trans s s1 s2 e1 e2 :
  silent s s1 e1 -> silent s1 s2 e2 -> silent s s2 (e1 ++ e2).
Proof.
  intros [A1 A2] [B1 B2]. split; [eapply quiet_trans; eassumption|].
  rewrite additions_app, A2, B2. reflexivity.
Qed.

Lemma silent_quiet s s' e : silent s s' e -> quiet s s' e.
Proof. intros [H _]. exact H. Qed.

Lemma clearAnimals_silent s : silent s (clearAnimals s).1 (clearAnimals s).2.
Proof.
  destruct (clearAnimals_frame s) as (_ & _ & C & T & D & _).
  unfold silent, quiet, gameOf. rewrite C, T, D, clearAnimals_calls.
  destruct (removes_only (cleared s)) as (_ & -> & _).
  repeat split. exists []. rewrite app_nil_r. split; [reflexivity | constructor].
Qed.

Ltac quiet_goal :=
  unfold quiet, gameOf; run_acts;
  split; [reflexivity|]; split; [reflexivity|];
  first
    [ exists []; split; [symmetry; apply app_nil_r | constructor]
    | eexists; split; [reflexivity | repeat constructor] ].

Ltac silent_leaf s :=
  first
    [ apply clearAnimals_silent
    | open_screen s; unfold silent; split; [quiet_goal | reflexivity] ].

Ltac quiet_leaf s :=
  first
    [ apply silent_quiet; apply clearAnimals_silent
    | open_screen s; quiet_goal ].

Ltac hush := intros; walk silent_trans silent_leaf.
Ltac calm := intros; walk quiet_trans quiet_leaf.

Lemma setupCamera_silent c s : silent s (setupCamera c s).1 (setupCamera c s).2.
Proof. hush. Qed.

Lemma handler_silent key s : silent s (handler key s).1 (handler key s).2.
Proof.
  unfold handler, skip.
  destruct (negb _ || negb _)%bool; [apply silent_refl|].
  destruct (moved _); [|apply silent_refl].
  open_screen s; unfold silent; split; [quiet_goal|].
  run_acts. destruct canUpdatePosition0, correctEntityId0; reflexivity.
Qed.

Lemma spawnAnimals_quiet ready o c w s :
  quiet s (spawnAnimals ready o c w s).1 (spawnAnimals ready o c w s).2.
Proof. calm. Qed.

Lemma spawnRound_quiet ready o r s :
  quiet s (spawnRound ready o r s).1 (spawnRound ready o r s).2.
Proof. calm. Qed.

End ARScreenFrame.

(** * The steps of [ARScreen.tsx], one kind at a time *)
Module ARScreenSteps.

Import ARScreen ARScreenFacts ARScreenFrame.

Lemma afterRender_same before s :
  sceneReady (hooks s) = sceneReady (hooks before) ->
  currentRound (hooks s) = currentRound (hooks before) ->
  afterRender before s = (s, []).
Proof.
  intros H1 H2. unfold afterRender, depsChanged.
  rewrite H1, H2, eqb_reflx, Z.eqb_refl. reflexivity.
Qed.

Lemma quiet_deps s s' e :
  quiet s s' e ->
  sceneReady (hooks s') = sceneReady (hooks s)
  /\ currentRound (hooks s') = currentRound (hooks s).
Proof.
  intros (Hg & _). unfold gameOf in Hg. injection Hg as H1 H2 _ _ _. auto.
Qed.

(** A silent handler stays silent after the render that follows it. *)
Lemma silent_step (h : Act) s :
  silent s (h s).1 (h s).2 ->
  silent s ((h >>> afterRender s) s).1 ((h >>> afterRender s) s).2.
Proof.
  intros Hs. destruct (quiet_deps _ _ _ (silent_quiet _ _ _ Hs)) as [H1 H2].
  unfold andThen. rewrite (afterRender_same s (h s).1 H1 H2). cbn [fst snd].
  rewrite app_nil_r. exact Hs.
Qed.

Lemma afterRender_changed before s :
  depsChanged before s = true ->
  let r := afterRender before s in
  gameOf r.1 = gameOf s /\ now r.1 = now s /\ additions r.2 = []
  /\ timers r.1 =
       timers s ++
       (if sceneReady (hooks s) && (arScene (cfg s) && sceneEl (cfg s))
        then [(now s + 200,
               EnsureVisible (currentRound (hooks s)) (sceneReady (hooks s)))]
        else []).
Proof.
  intros Hd. unfold afterRender. rewrite Hd.
  unfold startEffect, keysEffect.
  open_screen s. run_state.
  destruct sceneReady0; [destruct (arScene0 && sceneEl0)%bool|];
    cbn [negb andb]; run_state; cbn [negb andb];
    rewrite ?app_nil_r; repeat split; reflexivity.
Qed.


Lemma setSceneReady_again s :
  sceneReady (hooks s) = true ->
  silent s (setSceneReady true s).1 (setSceneReady true s).2.
Proof.
  intros H. open_screen s. cbn in H. subst.
  unfold silent; split; [quiet_goal | reflexivity].
Qed.

(** A touch either changes nothing of the game or is a processed
    selection. *)
Lemma handleTouchStart_cases p s :
  silent s (handleTouchStart p s).1 (handleTouchStart p s).2
  \/ (isAnimating (hooks s) = false
      /\ exists a k pre,
           handleTouchStart p s
           = ((handleAnimalClick a k s).1, pre ++ (handleAnimalClick a k s).2)
           /\ additions pre = []).
Proof.
  unfold handleTouchStart.
  destruct (isAnimating (hooks s)) eqn:Hidle; [left; apply silent_refl|].
  destruct p as [|[a|]]; [left; apply silent_refl | | left; hush].
  unfold andThen, emit. cbn [fst snd].
  destruct (currentAnimal s) as [cur|].
  - right. split; [reflexivity|]. eexists a, (name cur), _.
    split; [|shelve]. cbn [fst snd]. rewrite app_assoc. reflexivity.
    Unshelve. reflexivity.
  - left. unfold skip. cbn [fst snd].
    change (silent s s ([Console Log "[ARScreen] Touch detectado!"] ++ [])).
    eapply silent_trans; [|apply silent_refl].
    open_screen s; unfold silent; split; [quiet_goal | reflexivity].
Qed.

Lemma desktopClick_cases other s :
  silent s (desktopClick other s).1 (desktopClick other s).2
  \/ exists a k pre,
       desktopClick other s
       = ((handleAnimalClick a k s).1, pre ++ (handleAnimalClick a k s).2)
       /\ additions pre = [].
Proof.
  unfold desktopClick.
  destruct (index (animals s) _) as [curr|]; [|left; hush].
  destruct (index (wrongAnimals s (name curr)) 0) as [oth|]; [|left; hush].
  right. unfold handleDesktopAnimalClick, andThen, emit. cbn [fst snd].
  eexists _, _, _. split; [|shelve]. rewrite app_assoc. reflexivity.
  Unshelve. reflexivity.
Qed.

Lemma handleAnimalClick_busy_silent a k s :
  isAnimating (hooks s) = true ->
  silent s (handleAnimalClick a k s).1 (handleAnimalClick a k s).2.
Proof.
  intros H. rewrite (handleAnimalClick_busy a k s H). cbn [fst snd].
  open_screen s; unfold silent; split; [quiet_goal | reflexivity].
Qed.

Lemma silent_prefix s s' pre e :
  additions pre = [] -> silent s s' e -> silent s s' (pre ++ e).
Proof.
  intros Hp [Hq Ha]. split; [exact Hq|]. rewrite additions_app, Hp, Ha. reflexivity.
Qed.

(** A processed selection, with the render that follows it. *)
Lemma selection_change a k pre (h : Act) s :
  isAnimating (hooks s) = false ->
  sceneReady (hooks s) = true ->
  h s = ((handleAnimalClick a k s).1, pre ++ (handleAnimalClick a k s).2) ->
  additions pre = [] ->
  change s ((h >>> afterRender s) s).1 ((h >>> afterRender s) s).2.
Proof.
  intros Hidle Hready Hh Hpre.
  destruct (handleAnimalClick_idle a k s Hidle)
    as (Hhooks & He & _ & Ht & _ & _ & Hnow & _).
  unfold andThen. rewrite Hh. cbn [fst snd].
  rewrite afterRender_same by (rewrite Hhooks; reflexivity).
  cbn [fst snd]. rewrite app_nil_r.
  eapply change_select with (clicked := a); unfold gameOf; cbn [round ready animating];
    try eassumption.
  - rewrite Hhooks, Hready. reflexivity.
  - rewrite additions_app, Hpre, He, !additions_app.
    destruct (removes_only (cleared s)) as (_ & -> & _). reflexivity.
Qed.

Lemma nth_split_remove {A : Type} (l : list A) k x :
  nth_error l k = Some x ->
  exists l1 l2, l = l1 ++ x :: l2 /\ removeNth k l = l1 ++ l2.
Proof.
  revert k. induction l as [|a l IH]; intros [|k] H; try discriminate.
  - injection H as ->. exists [], l. split; reflexivity.
  - destruct (IH k H) as (l1 & l2 & -> & Hr).
    exists (a :: l1), l2. cbn. rewrite Hr. split; reflexivity.
Qed.


Lemma without_view l s :
  gameOf (without l s) = gameOf s /\ now (without l s) = now s
  /\ timers (without l s) = l /\ cfg (without l s) = cfg s
  /\ hooks (without l s) = hooks s.
Proof. open_screen s. repeat split; reflexivity. Qed.

Lemma feedbackEnd_view o rdy s :
  let r := runTask o (FeedbackEnd rdy) s in
  hooks r.1 =
    {| arLoading := arLoading (hooks s); isFadingIn := isFadingIn (hooks s);
       currentRound := currentRound (hooks s) + 1;
       sceneReady := sceneReady (hooks s);
       selectedAnimal := None; feedbackType := None; isAnimating := false |}
  /\ now r.1 = now s /\ cfg r.1 = cfg s
  /\ timers r.1 =
       timers s ++
       (if currentRound (hooks s) + 1 <? TOTAL_ROUNDS
        then [(now s + 100, SpawnNext (currentRound (hooks s) + 1) rdy)]
        else [])
  /\ additions r.2 = [].
Proof.
  open_screen s. unfold runTask. run_state.
  destruct (_ <? _); run_state; rewrite ?app_nil_r; repeat split; reflexivity.
Qed.

Lemma ensureVisible_view o c rdy s :
  let r := runTask o (EnsureVisible c rdy) s in
  hooks r.1 = hooks s /\ now r.1 = now s
  /\ timers r.1 = timers s ++ [(now s + 300, StartFirst c rdy)]
  /\ additions r.2 = [].
Proof.
  open_screen s. unfold runTask, forceRender.
  destruct (hasRenderer o), (hasCamera o); run_state; repeat split; reflexivity.
Qed.

Lemma fadeIn_silent o v s : silent s (runTask o (FadeIn v) s).1 (runTask o (FadeIn v) s).2.
Proof. unfold runTask. hush. Qed.

Lemma refresh_silent o l r ln rn s :
  silent s (runTask o (Refresh l r ln rn) s).1 (runTask o (Refresh l r ln rn) s).2.
Proof. unfold runTask, forceRender. hush. Qed.

Lemma startFirst_quiet o c rdy s :
  quiet s (runTask o (StartFirst c rdy) s).1 (runTask o (StartFirst c rdy) s).2
  /\ (c <> 0 -> additions (runTask o (StartFirst c rdy) s).2 = []).
Proof.
  unfold runTask. destruct (Z.eqb_spec c 0) as [->|Hc].
  - split; [|intros H; contradiction].
    unfold startRound. change (0 >=? TOTAL_ROUNDS) with false. cbv iota.
    apply spawnRound_quiet.
  - split; [apply quiet_refl | reflexivity].
Qed.

(** A quiet callback, run once its timer has left the list, with the
    render that follows. *)
Lemma quiet_fire (t : Act) l1 l2 s :
  quiet (without (l1 ++ l2) s) (t (without (l1 ++ l2) s)).1 (t (without (l1 ++ l2) s)).2 ->
  let h : Act := (fun s => (withTimers (l1 ++ l2) s, [])) >>> t in
  let r := (h >>> afterRender s) s in
  gameOf r.1 = gameOf s /\ now r.1 = now s
  /\ r.2 = (t (without (l1 ++ l2) s)).2
  /\ exists added, timers r.1 = l1 ++ l2 ++ added /\ Forall passive added.
Proof.
  intros Hq. destruct (without_view (l1 ++ l2) s) as (Vg & Vn & Vt & _ & Vh).
  destruct Hq as (Hg & Hn & added & Ht & Hp).
  destruct (quiet_deps (without (l1 ++ l2) s) _ [] (conj Hg (conj Hn (ex_intro _ added (conj Ht Hp)))))
    as [D1 D2].
  rewrite Vh in D1, D2.
  unfold andThen. cbn [fst snd]. fold (without (l1 ++ l2) s).
  rewrite (afterRender_same s _ D1 D2). cbn [fst snd]. rewrite app_nil_r.
  rewrite Hg, Hn, Vg, Vn, Ht, Vt, <- app_assoc.
  repeat split. exists added. split; [reflexivity | exact Hp].
Qed.


Lemma fire_change o l1 d t l2 s :
  timers s = l1 ++ (d, t) :: l2 ->
  d <= now s ->
  Forall (fun t' => d <= t'.1) (timers s) ->
  let h : Act := (fun s => (withTimers (l1 ++ l2) s, [])) >>> runTask o t in
  change s ((h >>> afterRender s) s).1 ((h >>> afterRender s) s).2.
Proof.
  intros Ht Hd Hmin h. subst h.
  destruct (without_view (l1 ++ l2) s) as (Vg & Vn & Vt & Vc & Vh).
  destruct t as [v|rdy|n rdy|c rdy|c rdy|l r ln rn].
  - destruct (quiet_fire (runTask o (FadeIn v)) l1 l2 s
                (silent_quiet _ _ _ (fadeIn_silent o v _)))
      as (Hg & Hn & He & added & Hta & Hp).
    apply (change_fire _ _ _ l1 d _ l2 added Ht Hd Hmin Hn Hta). cbn [fired].
    rewrite He. repeat split; try assumption. apply fadeIn_silent.
  - destruct (feedbackEnd_view o rdy (without (l1 ++ l2) s))
      as (Hh & Hn & Hc & Htm & Hadd).
    set (s1 := (runTask o (FeedbackEnd rdy) (without (l1 ++ l2) s)).1) in *.
    assert (Hdeps : depsChanged s s1 = true).
    { unfold depsChanged. rewrite Hh, Vh. cbn [currentRound sceneReady].
      rewrite eqb_reflx. cbn [negb orb].
      destruct (Z.eqb_spec (currentRound (hooks s)) (currentRound (hooks s) + 1));
        [lia | reflexivity]. }
    destruct (afterRender_changed s s1 Hdeps) as (Ag & An & Aadd & At).
    unfold andThen. cbn [fst snd]. fold (without (l1 ++ l2) s). fold s1.
    rewrite Vh, Vn, Vt in *. rewrite Hn in An, At. rewrite Hh, Hc, Vc in At.
    cbn [sceneReady currentRound] in At. rewrite Htm, <- !app_assoc in At.
    apply (change_fire _ _ _ l1 d _ l2 _ Ht Hd Hmin An At). cbn [fired].
    rewrite Ag. unfold gameOf. rewrite Hh.
    cbn [currentRound sceneReady selectedAnimal feedbackType isAnimating
         round ready].
    rewrite !additions_app, Hadd, Aadd.
    split; [reflexivity|]. split; [reflexivity|].
    eexists. split; [reflexivity|].
    destruct (_ && _)%bool; [right; eexists; reflexivity | left; reflexivity].
  - destruct (quiet_fire (runTask o (SpawnNext n rdy)) l1 l2 s
                (spawnRound_quiet rdy o n _))
      as (Hg & Hn & He & added & Hta & Hp).
    apply (change_fire _ _ _ l1 d _ l2 added Ht Hd Hmin Hn Hta). cbn [fired].
    split; assumption.
  - destruct (ensureVisible_view o c rdy (without (l1 ++ l2) s))
      as (Hh & Hn & Htm & Hadd).
    unfold andThen. cbn [fst snd]. fold (without (l1 ++ l2) s).
    rewrite afterRender_same by (rewrite Hh, Vh; reflexivity).
    cbn [fst snd]. rewrite app_nil_r.
    rewrite Vn in Hn, Htm. rewrite Vt, <- app_assoc in Htm.
    apply (change_fire _ _ _ l1 d _ l2 _ Ht Hd Hmin Hn Htm). cbn [fired].
    unfold gameOf. rewrite Hh, Vh. repeat split; first [assumption | reflexivity].
  - destruct (startFirst_quiet o c rdy (without (l1 ++ l2) s)) as (Hq & Hadd).
    destruct (quiet_fire (runTask o (StartFirst c rdy)) l1 l2 s Hq)
      as (Hg & Hn & He & added & Hta & Hp).
    apply (change_fire _ _ _ l1 d _ l2 added Ht Hd Hmin Hn Hta). cbn [fired].
    rewrite He. repeat split; assumption.
  - destruct (quiet_fire (runTask o (Refresh l r ln rn)) l1 l2 s
                (silent_quiet _ _ _ (refresh_silent o l r ln rn _)))
      as (Hg & Hn & He & added & Hta & Hp).
    apply (change_fire _ _ _ l1 d _ l2 added Ht Hd Hmin Hn Hta). cbn [fired].
    rewrite He. repeat split; try assumption. apply refresh_silent.
Qed.

(** Every step is one of the changes. *)
Lemma step_change ev s s' e : step ev s = Some (s', e) -> change s s' e.
Proof.
  unfold step. destruct (dispatch ev s) as [h|] eqn:Hd; [|discriminate].
  intros [= <- <-].
  destruct ev; cbn [dispatch] in Hd.
  - destruct (cameraPending s); [|discriminate]. injection Hd as <-.
    apply change_silent, silent_step. hush.
  - injection Hd as <-.
    destruct (sceneReady (hooks s)) eqn:Hready.
    + apply change_silent, silent_step, setSceneReady_again, Hready.
    + set (s1 := (setSceneReady true s).1).
      assert (Hh : hooks s1 =
                {| arLoading := arLoading (hooks s); isFadingIn := isFadingIn (hooks s);
                   currentRound := currentRound (hooks s); sceneReady := true;
                   selectedAnimal := selectedAnimal (hooks s);
                   feedbackType := feedbackType (hooks s);
                   isAnimating := isAnimating (hooks s) |}
                /\ now s1 = now s /\ timers s1 = timers s /\ cfg s1 = cfg s)
        by (subst s1; open_screen s; repeat split; reflexivity).
      destruct Hh as (Hh & Hn & Ht & Hc).
      assert (Hdeps : depsChanged s s1 = true)
        by (unfold depsChanged; rewrite Hh, Hready; reflexivity).
      destruct (afterRender_changed s s1 Hdeps) as (Ag & An & Aadd & At).
      unfold andThen. cbn [fst snd]. fold s1.
      eapply change_ready.
      * unfold gameOf. cbn [ready]. exact Hready.
      * rewrite Ag. unfold gameOf. rewrite Hh. reflexivity.
      * rewrite An, Hn. reflexivity.
      * rewrite At, Ht. reflexivity.
      * rewrite Hh, Hn. cbn [sceneReady currentRound andb].
        destruct (_ && _)%bool; [right; reflexivity | left; reflexivity].
      * rewrite additions_app, Aadd. reflexivity.
  - destruct (sceneReady (hooks s)) eqn:Hready; [|discriminate].
    destruct (_ && _)%bool; [|discriminate]. injection Hd as <-.
    destruct (handleTouchStart_cases p s) as [Hs|(Hidle & a & k & pre & Hh & Hpre)].
    + apply change_silent, silent_step, Hs.
    + eapply selection_change; eassumption.
  - unfold desktopShown in Hd.
    destruct (sceneReady (hooks s)) eqn:Hready; [|discriminate].
    destruct (_ && _)%bool; [|discriminate]. injection Hd as <-.
    destruct (desktopClick_cases other s) as [Hs|(a & k & pre & Hh & Hpre)].
    + apply change_silent, silent_step, Hs.
    + destruct (isAnimating (hooks s)) eqn:Hidle.
      * apply change_silent, silent_step. rewrite Hh. cbn [fst snd].
        apply silent_prefix; [exact Hpre|].
        apply handleAnimalClick_busy_silent, Hidle.
      * eapply selection_change; eassumption.
  - destruct (keydownListener s); [|discriminate]. injection Hd as <-.
    apply change_silent, silent_step, handler_silent.
  - destruct (canTick t s) eqn:Ht; [|discriminate]. injection Hd as <-.
    unfold canTick in Ht. apply andb_prop in Ht as [Hlt Hall].
    apply Z.ltb_lt in Hlt.
    assert (Hv : gameOf (withNow t s).1 = gameOf s /\ timers (withNow t s).1 = timers s
                 /\ now (withNow t s).1 = t /\ hooks (withNow t s).1 = hooks s)
      by (open_screen s; repeat split; reflexivity).
    destruct Hv as (Hg & Htm & Hn & Hh).
    unfold andThen. cbn [fst snd].
    rewrite afterRender_same by (rewrite Hh; reflexivity). cbn [fst snd].
    apply change_tick; rewrite ?Hg, ?Htm, ?Hn; try reflexivity; try assumption.
    intros Hp. rewrite Hp in Hall. cbn [negb orb] in Hall.
    apply List.Forall_forall. intros x Hx.
    rewrite forallb_forall in Hall. apply Z.leb_le, Hall, Hx.
  - destruct (nth_error (timers s) k) as [[d t]|] eqn:Hk; [|discriminate].
    destruct (canFire d s) eqn:Hfire; [|discriminate].
    unfold canFire in Hfire. apply andb_prop in Hfire as [Hle Hmin].
    apply Z.leb_le in Hle.
    assert (Hall : Forall (fun t' => d <= t'.1) (timers s)).
    { apply List.Forall_forall. intros x Hx.
      rewrite forallb_forall in Hmin. apply Z.leb_le, Hmin, Hx. }
    injection Hd as <-.
    destruct (nth_split_remove _ _ _ Hk) as (l1 & l2 & Hl & Hr).
    pose proof (fire_change o l1 d t l2 s Hl Hle Hall) as H.
    unfold andThen in *. cbn beta iota zeta delta [fst snd] in *.
    rewrite Hr. exact H.
Qed.


End ARScreenSteps.

(** * The invariant of the round loop of [ARScreen.tsx] *)
Module ARScreenInvariant.

Import ARScreen ARScreenFacts ARScreenFrame ARScreenSteps.

(** ** Pending feedback ends *)

Lemma feedbackDue_app l1 l2 :
  feedbackDue (l1 ++ l2) = feedbackDue l1 ++ feedbackDue l2.
Proof.
  induction l1 as [|[d []] l1 IH]; cbn; rewrite ?IH; reflexivity.
Qed.

Lemma feedbackDue_passive l : Forall passive l -> feedbackDue l = [].
Proof.
  induction 1 as [|[d t] l Hp _ IH]; [reflexivity|].
  destruct t; cbn in *; try contradiction; exact IH.
Qed.

Lemma feedbackDue_in d rdy l : In (d, FeedbackEnd rdy) l -> In d (feedbackDue l).
Proof.
  induction l as [|[d' t] l IH]; [intros []|].
  intros [[= -> ->]|H]; [left; reflexivity|].
  destruct t; cbn; auto.
Qed.

(** The fields of the game, one by one. *)
Lemma gameOf_fields s s' :
  gameOf s' = gameOf s ->
  currentRound (hooks s') = currentRound (hooks s)
  /\ sceneReady (hooks s') = sceneReady (hooks s)
  /\ selectedAnimal (hooks s') = selectedAnimal (hooks s)
  /\ feedbackType (hooks s') = feedbackType (hooks s)
  /\ isAnimating (hooks s') = isAnimating (hooks s).
Proof. unfold gameOf. intros [= -> -> -> -> ->]. repeat split. Qed.

(** [timerOk] reads the clock, the round and the pending feedback ends. *)
Lemma timerOk_ext s s' t :
  now s' = now s ->
  currentRound (hooks s') = currentRound (hooks s) ->
  feedbackDue (timers s') = feedbackDue (timers s) ->
  timerOk s t -> timerOk s' t.
Proof.
  intros Hn Hr Hf. unfold timerOk. rewrite Hn, Hr, Hf. tauto.
Qed.

Lemma timerOk_passive s t : passive t -> timerOk s t.
Proof.
  unfold passive, timerOk. destruct (t.2); intros H; try contradiction; exact I.
Qed.

(** ** Preservation *)

Lemma inv_quiet s s' e : quiet s s' e -> Inv s -> Inv s'.
Proof.
  intros (Hg & Hn & extra & Ht & Hp) (I0 & I1 & I2).
  destruct (gameOf_fields _ _ Hg) as (Gr & Gs & Ga & Gf & Gi).
  assert (Hf : feedbackDue (timers s') = feedbackDue (timers s)).
  { rewrite Ht, feedbackDue_app, (feedbackDue_passive _ Hp), app_nil_r. reflexivity. }
  unfold Inv. rewrite Gr, Gs, Ga, Gf, Gi, Hf.
  split; [exact I0|]. split; [|exact I2].
  rewrite Ht. apply List.Forall_app. split.
  - eapply List.Forall_impl; [|exact I1]. intros t. apply timerOk_ext; assumption.
  - eapply List.Forall_impl; [|exact Hp]. intros t. apply timerOk_passive.
Qed.


Lemma inv_ready s s' added :
  ready (gameOf s) = false ->
  gameOf s' = {| round := round (gameOf s); ready := true;
                 selected := selected (gameOf s);
                 feedback := feedback (gameOf s);
                 animating := animating (gameOf s) |} ->
  now s' = now s ->
  timers s' = timers s ++ added ->
  (added = [] \/ added = [(now s + 200, EnsureVisible (round (gameOf s)) true)]) ->
  Inv s -> Inv s'.
Proof.
  unfold gameOf at 1 2 3 4 5 6. cbn [ready round selected feedback animating].
  intros Hready [= Gr Gs Ga Gf Gi] Hn Ht Hadd (I0 & I1 & I2).
  rewrite Hready in I2.
  destruct (isAnimating (hooks s)) eqn:Hanim;
    [destruct I2 as (I2 & _); discriminate|].
  destruct I2 as (Is & If & Id).
  assert (Hf : feedbackDue (timers s') = feedbackDue (timers s)).
  { rewrite Ht, feedbackDue_app. destruct Hadd as [->| ->]; cbn; apply app_nil_r. }
  unfold Inv. rewrite Gr, Ga, Gf, Gi, Hf, Id.
  split; [exact I0|]. split; [|repeat split; assumption].
  rewrite Ht. apply List.Forall_app. split.
  - eapply List.Forall_impl; [|exact I1]. intros t. apply timerOk_ext; assumption.
  - destruct Hadd as [->| ->]; constructor; [|constructor].
    unfold timerOk. cbn [fst snd]. rewrite Hn, Gr, Hf, Id.
    intros Hc. repeat split; [exact Hc | lia | constructor].
Qed.

Lemma inv_select s s' clicked f rdy :
  animating (gameOf s) = false ->
  ready (gameOf s) = true ->
  gameOf s' = {| round := round (gameOf s); ready := true;
                 selected := Some clicked; feedback := Some f;
                 animating := true |} ->
  now s' = now s ->
  timers s' = timers s ++ [(now s + 2000, FeedbackEnd rdy)] ->
  Inv s -> Inv s'.
Proof.
  unfold gameOf at 1 2 3 4. cbn [ready round selected feedback animating].
  intros Hanim Hready [= Gr Gs Ga Gf Gi] Hn Ht (I0 & I1 & I2).
  rewrite Hanim in I2. destruct I2 as (Is & If & Id).
  assert (Hf : feedbackDue (timers s') = [now s + 2000]).
  { rewrite Ht, feedbackDue_app, Id. reflexivity. }
  unfold Inv. rewrite Gr, Gs, Ga, Gf, Gi, Hf.
  split; [exact I0|]. split.
  - rewrite Ht. apply List.Forall_app. split.
    + eapply List.Forall_impl; [|exact I1]. intros [d t].
      unfold timerOk. cbn [fst snd]. rewrite Hn, Gr, Hf, Id.
      destruct t; try tauto.
      * intros (A & B & C & _). repeat split; try assumption.
        constructor; [lia | constructor].
      * intros B Hc. destruct (B Hc) as (B1 & B2 & _).
        repeat split; try assumption. constructor; [lia | constructor].
      * intros B Hc. destruct (B Hc) as (B1 & B2).
        split; [exact B1|].
        destruct B2 as [B2|(B2 & _)]; [left; exact B2|].
        right. split; [exact B2|]. constructor; [lia | constructor].
    + constructor; [|constructor]. exact I.
  - repeat split; try discriminate. eexists. reflexivity.
Qed.

Lemma inv_tick s s' :
  gameOf s' = gameOf s ->
  timers s' = timers s ->
  now s < now s' ->
  Inv s -> Inv s'.
Proof.
  intros Hg Ht Hlt (I0 & I1 & I2).
  destruct (gameOf_fields _ _ Hg) as (Gr & Gs & Ga & Gf & Gi).
  unfold Inv. rewrite Gr, Gs, Ga, Gf, Gi, Ht.
  split; [exact I0|]. split; [|exact I2].
  rewrite List.Forall_forall in *. intros [d t] Hin.
  specialize (I1 _ Hin).
  unfold timerOk in *. cbn [fst snd] in *. rewrite Gr, Ht.
  destruct t; try tauto.
  - destruct I1 as (A & B & C & D). repeat split; try assumption; lia.
  - intros Hc. destruct (I1 Hc) as (B1 & B2 & B3).
    repeat split; try assumption; lia.
  - intros Hc. destruct (I1 Hc) as (B1 & B2). split; [lia | exact B2].
Qed.


(** A callback other than [FeedbackEnd] that leaves the game alone and
    adds callbacks that are in order. *)
Lemma inv_fire_same s s' l1 d t l2 added :
  timers s = l1 ++ (d, t) :: l2 ->
  now s' = now s ->
  timers s' = l1 ++ l2 ++ added ->
  gameOf s' = gameOf s ->
  feedbackDue [(d, t)] = [] ->
  feedbackDue added = [] ->
  Forall (timerOk s) added ->
  Inv s -> Inv s'.
Proof.
  intros Ht Hn Ht' Hg Hdt Hadd Hok (I0 & I1 & I2).
  destruct (gameOf_fields _ _ Hg) as (Gr & Gs & Ga & Gf & Gi).
  assert (Hf : feedbackDue (timers s') = feedbackDue (timers s)).
  { rewrite Ht, Ht', !feedbackDue_app, Hadd, app_nil_r.
    change ((d, t) :: l2) with ([(d, t)] ++ l2).
    rewrite feedbackDue_app, Hdt. reflexivity. }
  unfold Inv. rewrite Gr, Gs, Ga, Gf, Gi, Hf.
  split; [exact I0|]. split; [|exact I2].
  rewrite Ht in I1. apply List.Forall_app in I1 as [J1 J2].
  apply List.Forall_cons_iff in J2 as [_ J2].
  rewrite Ht'. repeat (apply List.Forall_app; split).
  all: eapply List.Forall_impl; [|eassumption].
  all: intros x; apply timerOk_ext; assumption.
Qed.

(** The callback that runs is due before the ones that stay. *)
Lemma first_due (l1 l2 : list (Z * Task)) d t ts x :
  ts = l1 ++ (d, t) :: l2 ->
  Forall (fun t' => d <= t'.1) ts ->
  In x (l1 ++ l2) -> In x ts /\ d <= x.1.
Proof.
  intros -> Hmin Hx.
  assert (Hin : In x (l1 ++ (d, t) :: l2)).
  { apply in_app_or in Hx as [Hx|Hx]; apply in_or_app; [left | right; right];
      exact Hx. }
  split; [exact Hin|]. rewrite List.Forall_forall in Hmin. apply Hmin, Hin.
Qed.

Lemma inv_fire s s' e l1 d t l2 added :
  timers s = l1 ++ (d, t) :: l2 ->
  d <= now s ->
  Forall (fun t' => d <= t'.1) (timers s) ->
  now s' = now s ->
  timers s' = l1 ++ l2 ++ added ->
  fired s t s' added e ->
  Inv s -> Inv s'.
Proof.
  intros Ht Hd Hmin Hn Ht' Hfired Hinv.
  pose proof Hinv as (I0 & I1 & I2).
  assert (Hthis : timerOk s (d, t)).
  { rewrite List.Forall_forall in I1. apply I1. rewrite Ht.
    apply in_or_app. right. left. reflexivity. }
  destruct t as [v|rdy|n rdy|c rdy|c rdy|l r ln rn]; cbn [fired] in Hfired.
  - destruct Hfired as (Hg & Hp & _).
    eapply inv_fire_same; try eassumption; try reflexivity.
    + apply feedbackDue_passive, Hp.
    + eapply List.Forall_impl; [|exact Hp]. intros x. apply timerOk_passive.
  - (* the feedback ends *)
    destruct Hfired as (Hg & _ & ens & Hadd & Hens).
    unfold gameOf in Hg, Hadd, Hens. cbn [round ready] in Hg, Hadd, Hens.
    injection Hg as Gr Gs Ga Gf Gi.
    assert (Hin : In d (feedbackDue (timers s))).
    { apply (feedbackDue_in _ rdy). rewrite Ht. apply in_or_app. right. left. reflexivity. }
    destruct (isAnimating (hooks s)) eqn:Hanim;
      [|destruct I2 as (_ & _ & I2); rewrite I2 in Hin; destruct Hin].
    destruct I2 as (Is & _ & _ & d' & Id).
    assert (Hrest : feedbackDue l1 = [] /\ feedbackDue l2 = []).
    { rewrite Ht, feedbackDue_app in Id. cbn [feedbackDue] in Id.
      destruct (feedbackDue l1); [|destruct l; discriminate].
      cbn in Id. injection Id as _ Id. split; [reflexivity | exact Id]. }
    destruct Hrest as (R1 & R2).
    assert (Hd' : d' = d) by (rewrite Id in Hin; destruct Hin as [<-|[]]; reflexivity).
    subst d'.
    assert (Hf : feedbackDue (timers s') = []).
    { rewrite Ht', !feedbackDue_app, R1, R2, Hadd, feedbackDue_app.
      destruct (_ <? _); destruct Hens as [->|(rdy' & ->)]; reflexivity. }
    (* the callbacks that stay are due no earlier than this one: none of
       them is a spawn or a start-up of round 0 *)
    assert (Hold : forall x, In x (l1 ++ l2) -> timerOk s' x).
    { intros [dx tx] Hx.
      destruct (first_due _ _ _ _ _ _ Ht Hmin Hx) as (Hx0 & Hle).
      cbn [fst] in Hle.
      assert (Hx' : timerOk s (dx, tx)).
      { rewrite List.Forall_forall in I1. apply I1, Hx0. }
      unfold timerOk in *. cbn [fst snd] in *. rewrite Hn, Gr, Hf.
      rewrite Id in Hx'.
      destruct tx; try tauto.
      - destruct Hx' as (_ & _ & _ & E).
        apply List.Forall_cons_iff in E as [E _]. lia.
      - intros Hc. destruct (Hx' Hc) as (_ & _ & E).
        apply List.Forall_cons_iff in E as [E _]. lia.
      - intros Hc. destruct (Hx' Hc) as (B1 & B2).
        split; [exact B1|].
        destruct B2 as [B2|(_ & E)].
        + right. split; [lia | constructor].
        + apply List.Forall_cons_iff in E as [E _]. lia. }
    unfold Inv. rewrite Gr, Ga, Gf, Gi, Hf.
    split; [lia|]. split; [|repeat split; reflexivity].
    rewrite Ht', app_assoc. apply List.Forall_app. split.
    + apply List.Forall_forall. exact Hold.
    + rewrite Hadd. apply List.Forall_app. split.
      * destruct (Z.ltb_spec (currentRound (hooks s) + 1) TOTAL_ROUNDS) as [Hlt|_];
          constructor; [|constructor].
        unfold timerOk. cbn [fst snd]. rewrite Hn, Gr, Hf.
        repeat split; try lia. constructor.
      * destruct Hens as [->|(rdy' & ->)]; constructor; [|constructor].
        unfold timerOk. cbn [fst snd]. intros Hc. lia.
  - destruct Hfired as (Hg & Hp).
    eapply inv_fire_same; try eassumption; try reflexivity.
    + apply feedbackDue_passive, Hp.
    + eapply List.Forall_impl; [|exact Hp]. intros x. apply timerOk_passive.
  - destruct Hfired as (Hg & -> & _).
    eapply inv_fire_same; try eassumption; try reflexivity.
    constructor; [|constructor].
    unfold timerOk in *. cbn [fst snd] in *.
    intros Hc. destruct (Hthis Hc) as (B1 & _).
    split; [lia | left; exact B1].
  - destruct Hfired as (Hg & Hp & _).
    eapply inv_fire_same; try eassumption; try reflexivity.
    + apply feedbackDue_passive, Hp.
    + eapply List.Forall_impl; [|exact Hp]. intros x. apply timerOk_passive.
  - destruct Hfired as (Hg & Hp & _).
    eapply inv_fire_same; try eassumption; try reflexivity.
    + apply feedbackDue_passive, Hp.
    + eapply List.Forall_impl; [|exact Hp]. intros x. apply timerOk_passive.
Qed.

(** The invariant holds along every step. *)
Lemma inv_step ev s s' e : step ev s = Some (s', e) -> Inv s -> Inv s'.
Proof.
  intros Hstep Hinv. destruct (step_change _ _ _ _ Hstep).
  - eapply inv_quiet; [apply silent_quiet|]; eassumption.
  - eapply inv_ready; eassumption.
  - eapply inv_select; eassumption.
  - eapply inv_tick; eassumption.
  - eapply inv_fire; eassumption.
Qed.

Lemma inv_run s e s' : run s e s' -> Inv s -> Inv s'.
Proof.
  induction 1 as [s | s ev s1 e1 e2 s2 Hstep _ IH]; [auto|].
  intros Hinv. apply IH. eapply inv_step; eassumption.
Qed.

Lemma inv_initial c : Inv (initial c).
Proof.
  unfold initial, cameraEffect, requestCamera, catchCamera, blank, Inv.
  destruct c as [[] ? ? ? ? [] [] [] ?]; cbn.
  all: split; [lia|]; split; [|repeat split; reflexivity].
  all: repeat constructor.
Qed.

Lemma inv_reachable c s : reachable c s -> Inv s.
Proof. intros [e Hrun]. eapply inv_run; [exact Hrun | apply inv_initial]. Qed.

(** ** A punctual page *)

Lemma ahead_refl s : ahead s s [].
Proof. split; [reflexivity | intros t Ht; left; exact Ht]. Qed.

Lemma ahead_trans s s1 s2 e1 e2 :
  ahead s s1 e1 -> ahead s1 s2 e2 -> ahead s s2 (e1 ++ e2).
Proof.
  intros (A1 & A2) (B1 & B2). split; [congruence|].
  intros t Ht. destruct (B2 t Ht) as [H|H]; [apply A2, H | right; lia].
Qed.

Lemma clearAnimals_ahead s : ahead s (clearAnimals s).1 (clearAnimals s).2.
Proof.
  destruct (clearAnimals_frame s) as (_ & _ & _ & T & D & _).
  split; [exact D|]. rewrite T. intros t Ht. left. exact Ht.
Qed.

Ltac ahead_leaf s :=
  first
    [ apply clearAnimals_ahead
    | open_screen s; unfold ahead; run_state;
      split; [reflexivity|];
      let t := fresh "t" in
      let Ht := fresh "Ht" in
      intros t Ht;
      first
        [ left; exact Ht
        | apply in_app_or in Ht as [Ht|[<-|[]]];
          [left; exact Ht | right; cbn [fst]; lia] ] ].

Ltac early := intros; walk ahead_trans ahead_leaf.

Lemma handleTouchStart_ahead p s :
  ahead s (handleTouchStart p s).1 (handleTouchStart p s).2.
Proof. early. Qed.

Lemma desktopClick_ahead other s :
  ahead s (desktopClick other s).1 (desktopClick other s).2.
Proof. early. Qed.

Lemma setupCamera_ahead c s : ahead s (setupCamera c s).1 (setupCamera c s).2.
Proof. early. Qed.

Lemma handler_ahead key s : ahead s (handler key s).1 (handler key s).2.
Proof.
  unfold handler, skip.
  destruct (negb _ || negb _)%bool; [apply ahead_refl|].
  destruct (moved _); [|apply ahead_refl].
  open_screen s; unfold ahead; run_state.
  split; [reflexivity | intros t Ht; left; exact Ht].
Qed.

Lemma afterRender_ahead before s :
  ahead s (afterRender before s).1 (afterRender before s).2.
Proof. early. Qed.

Lemma spawnRound_ahead rdy o r s :
  ahead s (spawnRound rdy o r s).1 (spawnRound rdy o r s).2.
Proof. early. Qed.

Lemma runTask_ahead o t s : ahead s (runTask o t s).1 (runTask o t s).2.
Proof.
  destruct t; unfold runTask.
  1, 4, 6: unfold forceRender; early.
  - open_screen s; unfold ahead; run_state.
    destruct (_ <? _); run_state; (split; [reflexivity|]); intros t Ht;
      [apply in_app_or in Ht as [Ht|[<-|[]]];
       [left; exact Ht | right; cbn [fst]; lia]
      | left; exact Ht].
  - apply spawnRound_ahead.
  - destruct (closureRound =? 0); [|apply ahead_refl].
    unfold startRound. change (0 >=? TOTAL_ROUNDS) with false. cbv iota.
    apply spawnRound_ahead.
Qed.

Lemma removeNth_in {A : Type} k (l : list A) x : In x (removeNth k l) -> In x l.
Proof.
  revert k. induction l as [|a l IH]; intros [|k]; cbn; auto.
  intros [->|H]; [left; reflexivity | right; eapply IH, H].
Qed.

Lemma ahead_onTime s s' e : ahead s s' e -> OnTime s -> OnTime s'.
Proof.
  intros (Hn & Ht) Hs. unfold OnTime in *. rewrite List.Forall_forall in *.
  intros t Hin. rewrite Hn. destruct (Ht t Hin) as [H|H]; [apply Hs, H | exact H].
Qed.

(** On a punctual page no callback gets overdue. *)
Lemma onTime_step ev s s' e :
  punctual (cfg s) = true ->
  step ev s = Some (s', e) -> OnTime s -> OnTime s'.
Proof.
  intros Hp. unfold step.
  destruct (dispatch ev s) as [h|] eqn:Hd; [|discriminate].
  intros [= <- <-] Hs.
  assert (Hplain : ahead s (h s).1 (h s).2 -> OnTime ((h >>> afterRender s) s).1).
  { intros H. eapply ahead_onTime; [|exact Hs].
    apply (rel_andThen _ ahead_trans); [exact H | apply afterRender_ahead]. }
  destruct ev; cbn [dispatch] in Hd.
  - destruct (cameraPending s); [|discriminate]. injection Hd as <-.
    apply Hplain. apply (rel_andThen _ ahead_trans); [|apply setupCamera_ahead].
    ahead_leaf s.
  - injection Hd as <-. apply Hplain. ahead_leaf s.
  - destruct (_ && _)%bool; [|discriminate]. injection Hd as <-.
    apply Hplain, handleTouchStart_ahead.
  - destruct (desktopShown s); [|discriminate]. injection Hd as <-.
    apply Hplain, desktopClick_ahead.
  - destruct (keydownListener s); [|discriminate]. injection Hd as <-.
    apply Hplain, handler_ahead.
  - destruct (canTick t s) eqn:Ht; [|discriminate]. injection Hd as <-.
    unfold canTick in Ht. rewrite Hp in Ht. cbn [negb orb] in Ht.
    apply andb_prop in Ht as [_ Hall].
    unfold andThen. cbn [fst snd].
    eapply ahead_onTime; [apply afterRender_ahead|].
    unfold OnTime. open_screen s. cbn [withNow fst now timers] in *.
    apply List.Forall_forall. intros x Hx.
    rewrite forallb_forall in Hall. apply Z.leb_le, Hall, Hx.
  - destruct (nth_error (timers s) k) as [[d t]|] eqn:Hk; [|discriminate].
    destruct (canFire d s); [|discriminate]. injection Hd as <-.
    apply Hplain. apply (rel_andThen _ ahead_trans); [|intros; apply runTask_ahead].
    open_screen s. unfold ahead. cbn [withTimers fst now timers].
    split; [reflexivity|]. intros x Hx. left. eapply removeNth_in, Hx.
Qed.

Lemma startOk_ext s s' t :
  currentRound (hooks s') = currentRound (hooks s) ->
  feedbackDue (timers s') = feedbackDue (timers s) ->
  startOk s t -> startOk s' t.
Proof. intros Hr Hf. unfold startOk. rewrite Hr, Hf. tauto. Qed.

Lemma startOk_passive s t : passive t -> startOk s t.
Proof.
  unfold passive, startOk. destruct (t.2); intros H; try contradiction; exact I.
Qed.

(** On a punctual page the start-up callbacks of round 0 run during
    round 0. *)
Lemma starts_step ev s s' e :
  Inv s -> OnTime s -> Forall (startOk s) (timers s) ->
  step ev s = Some (s', e) ->
  Forall (startOk s') (timers s').
Proof.
  intros Hinv Hon Hst Hstep.
  pose proof Hinv as (I0 & I1 & I2).
  destruct (step_change _ _ _ _ Hstep)
    as [[(Hg & Hn & extra & Ht & Hp) _]
       | added Hready Hg Hn Ht Hadd _
       | clicked f rdy Hanim Hready Hg Hn Ht _
       | Hg Ht _ _ _
       | l1 d t l2 added Ht Hd Hmin Hn Ht' Hfired].
  - destruct (gameOf_fields _ _ Hg) as (Gr & _).
    assert (Hf : feedbackDue (timers s') = feedbackDue (timers s)).
    { rewrite Ht, feedbackDue_app, (feedbackDue_passive _ Hp), app_nil_r. reflexivity. }
    rewrite Ht. apply List.Forall_app. split.
    + eapply List.Forall_impl; [|exact Hst]. intros x. apply startOk_ext; assumption.
    + eapply List.Forall_impl; [|exact Hp]. intros x. apply startOk_passive.
  - unfold gameOf in Hready, Hg. cbn [ready round selected feedback animating] in *.
    injection Hg as Gr Gs Ga Gf Gi.
    rewrite Hready in I2.
    destruct (isAnimating (hooks s)) eqn:Hanim;
      [destruct I2 as (I2 & _); discriminate|].
    destruct I2 as (_ & _ & Id).
    assert (Hf : feedbackDue (timers s') = []).
    { rewrite Ht, feedbackDue_app, Id. destruct Hadd as [->| ->]; reflexivity. }
    apply List.Forall_forall. intros [dx tx] Hx. unfold startOk. cbn [fst snd].
    rewrite Hf. destruct tx as [?|?|? ?|? ?|c0 rdy0|? ? ? ?]; try exact I.
    + intros _. constructor.
    + intros Hc. rewrite List.Forall_forall in Hst.
      split; [|constructor].
      rewrite Ht in Hx. apply in_app_or in Hx as [Hx|Hx].
      * destruct (Hst _ Hx Hc) as (Hr0 & _). congruence.
      * destruct Hadd as [->| ->]; [destruct Hx|].
        destruct Hx as [Hx|[]]. discriminate.
  - unfold gameOf in Hanim, Hg. cbn [ready round selected feedback animating] in *.
    injection Hg as Gr Gs Ga Gf Gi.
    rewrite Hanim in I2. destruct I2 as (_ & _ & Id).
    assert (Hf : feedbackDue (timers s') = [now s + 2000]).
    { rewrite Ht, feedbackDue_app, Id. reflexivity. }
    rewrite Ht. apply List.Forall_app. split; [|repeat constructor].
    rewrite List.Forall_forall in *. intros [dx tx] Hx.
    specialize (Hst _ Hx). specialize (I1 _ Hx).
    unfold startOk, timerOk in *. cbn [fst snd] in *. rewrite Gr, Hf.
    destruct tx; try exact I.
    + intros Hc. destruct (I1 Hc) as (_ & B & _). constructor; [lia | constructor].
    + intros Hc. destruct (Hst Hc) as (R0 & _). destruct (I1 Hc) as (B & _).
      split; [exact R0|]. constructor; [lia | constructor].
  - destruct (gameOf_fields _ _ Hg) as (Gr & _).
    rewrite Ht. eapply List.Forall_impl; [|exact Hst].
    intros x. apply startOk_ext; [exact Gr | rewrite Ht; reflexivity].
  - assert (Hthis : startOk s (d, t) /\ timerOk s (d, t) /\ now s <= d).
    { unfold OnTime in Hon. rewrite List.Forall_forall in Hst, I1, Hon.
      assert (Hin : In (d, t) (timers s))
        by (rewrite Ht; apply in_or_app; right; left; reflexivity).
      split; [apply Hst, Hin|]. split; [apply I1, Hin | apply (Hon _ Hin)]. }
    destruct Hthis as (Sthis & Ithis & Hnow).
    assert (Hkeep : forall x, In x (l1 ++ l2) -> startOk s x /\ d <= x.1).
    { intros x Hx. destruct (first_due _ _ _ _ _ _ Ht Hmin Hx) as (Hx0 & Hle).
      split; [|exact Hle]. rewrite List.Forall_forall in Hst. apply Hst, Hx0. }
    assert (Hsame : gameOf s' = gameOf s -> feedbackDue [(d, t)] = [] ->
              feedbackDue added = [] -> Forall (startOk s) added ->
              Forall (startOk s') (timers s')).
    { intros Hg Hdt Hadd Hok.
      destruct (gameOf_fields _ _ Hg) as (Gr & _).
      assert (Hf : feedbackDue (timers s') = feedbackDue (timers s)).
      { rewrite Ht, Ht', !feedbackDue_app, Hadd, app_nil_r.
        change ((d, t) :: l2) with ([(d, t)] ++ l2).
        rewrite feedbackDue_app, Hdt. reflexivity. }
      rewrite Ht', app_assoc. apply List.Forall_app. split.
      - apply List.Forall_forall. intros x Hx.
        eapply startOk_ext; [exact Gr | exact Hf | apply Hkeep, Hx].
      - eapply List.Forall_impl; [|exact Hok].
        intros x. apply startOk_ext; assumption. }
    destruct t as [v|rdy|n rdy|c rdy|c rdy|l r ln rn]; cbn [fired] in Hfired.
    + destruct Hfired as (Hg & Hp & _). apply Hsame; try assumption; try reflexivity.
      * apply feedbackDue_passive, Hp.
      * eapply List.Forall_impl; [|exact Hp]. intros x. apply startOk_passive.
    + destruct Hfired as (Hg & _ & ens & Hadd & Hens).
      unfold gameOf in Hg, Hadd, Hens. cbn [round ready] in Hg, Hadd, Hens.
      injection Hg as Gr Gs Ga Gf Gi.
      assert (Hin : In d (feedbackDue (timers s))).
      { apply (feedbackDue_in _ rdy). rewrite Ht. apply in_or_app. right. left. reflexivity. }
      destruct (isAnimating (hooks s)) eqn:Hanim;
        [|destruct I2 as (_ & _ & I2); rewrite I2 in Hin; destruct Hin].
      destruct I2 as (_ & _ & _ & d' & Id).
      assert (Hd' : d' = d) by (rewrite Id in Hin; destruct Hin as [<-|[]]; reflexivity).
      subst d'.
      assert (Hrest : feedbackDue l1 = [] /\ feedbackDue l2 = []).
      { rewrite Ht, feedbackDue_app in Id. cbn [feedbackDue] in Id.
        destruct (feedbackDue l1); [|destruct l; discriminate].
        cbn in Id. injection Id as Id. split; [reflexivity | exact Id]. }
      destruct Hrest as (R1 & R2).
      assert (Hf : feedbackDue (timers s') = []).
      { rewrite Ht', !feedbackDue_app, R1, R2, Hadd, feedbackDue_app.
        destruct (_ <? _); destruct Hens as [->|(rdy' & ->)]; reflexivity. }
      rewrite Ht', app_assoc. apply List.Forall_app. split.
      * apply List.Forall_forall. intros [dx tx] Hx.
        destruct (Hkeep _ Hx) as (Sx & Hle). cbn [fst] in Hle.
        unfold startOk in *. cbn [fst snd] in *. rewrite Hf. rewrite Id in Sx.
        destruct tx; try exact I.
        -- intros _. constructor.
        -- intros Hc. destruct (Sx Hc) as (_ & E).
           apply List.Forall_cons_iff in E as [E _]. lia.
      * apply List.Forall_forall. intros [dx tx] Hx.
        unfold startOk. cbn [fst snd]. rewrite Hf.
        destruct tx; try exact I.
        -- intros _. constructor.
        -- exfalso. rewrite Hadd in Hx. apply in_app_or in Hx as [Hx|Hx].
           ++ destruct (_ <? _); [destruct Hx as [Hx|[]]; discriminate | destruct Hx].
           ++ destruct Hens as [->|(rdy' & ->)]; [destruct Hx|].
              destruct Hx as [Hx|[]]. discriminate.
    + destruct Hfired as (Hg & Hp). apply Hsame; try assumption; try reflexivity.
      * apply feedbackDue_passive, Hp.
      * eapply List.Forall_impl; [|exact Hp]. intros x. apply startOk_passive.
    + destruct Hfired as (Hg & -> & _). apply Hsame; try assumption; try reflexivity.
      constructor; [|constructor].
      unfold startOk, timerOk in *. cbn [fst snd] in *.
      intros Hc. destruct (Ithis Hc) as (R0 & _).
      split; [exact R0|].
      eapply List.Forall_impl; [|exact (Sthis Hc)]. cbn beta. intros a Ha. lia.
    + destruct Hfired as (Hg & Hp & _). apply Hsame; try assumption; try reflexivity.
      * apply feedbackDue_passive, Hp.
      * eapply List.Forall_impl; [|exact Hp]. intros x. apply startOk_passive.
    + destruct Hfired as (Hg & Hp & _). apply Hsame; try assumption; try reflexivity.
      * apply feedbackDue_passive, Hp.
      * eapply List.Forall_impl; [|exact Hp]. intros x. apply startOk_passive.
Qed.

Lemma prompt_step ev s s' e :
  punctual (cfg s) = true -> Inv s ->
  step ev s = Some (s', e) -> Prompt s -> Prompt s'.
Proof.
  intros Hp Hinv Hstep (Hon & Hst). split.
  - eapply onTime_step; eassumption.
  - eapply starts_step; eassumption.
Qed.

Lemma prompt_run s e s' :
  run s e s' -> punctual (cfg s) = true -> Inv s -> Prompt s -> Prompt s'.
Proof.
  induction 1 as [s | s ev s1 e1 e2 s2 Hstep _ IH]; [auto|].
  intros Hp Hinv Hpr.
  destruct (step_framed _ _ _ _ Hstep) as (Hc & _).
  apply IH.
  - rewrite Hc. exact Hp.
  - eapply inv_step; eassumption.
  - eapply prompt_step; eassumption.
Qed.

(** The screen once mounted. *)
Lemma initial_view c :
  hooks (initial c)
  = {| arLoading := usarVideo c && mediaDevices c; isFadingIn := false;
       currentRound := 0; sceneReady := false; selectedAnimal := None;
       feedbackType := None; isAnimating := false |}
  /\ cameraPending (initial c) = usarVideo c && mediaDevices c
  /\ animals (initial c) = ANIMALS
  /\ refs (initial c) = refs (blank c)
  /\ now (initial c) = 0
  /\ keydownListener (initial c) = false.
Proof.
  unfold initial, cameraEffect, requestCamera, catchCamera, blank.
  destruct c as [[] ? ? ? ? [] [] [] ?]; repeat split; reflexivity.
Qed.

Lemma cfg_initial c : cfg (initial c) = c.
Proof.
  unfold initial, cameraEffect, requestCamera, catchCamera, blank.
  destruct c as [[] ? ? ? ? [] [] [] ?]; reflexivity.
Qed.

Lemma prompt_initial c : Prompt (initial c).
Proof.
  unfold initial, cameraEffect, requestCamera, catchCamera, blank, Prompt, OnTime.
  destruct c as [[] ? ? ? ? [] [] [] ?]; cbn.
  all: split; repeat constructor; cbn; lia.
Qed.

Lemma reachable_cfg c s : reachable c s -> cfg s = c.
Proof.
  intros [e Hrun]. destruct (run_framed _ _ _ Hrun) as (Hc & _).
  rewrite Hc. apply cfg_initial.
Qed.

Lemma prompt_reachable c s : punctual c = true -> reachable c s -> Prompt s.
Proof.
  intros Hp [e Hrun]. eapply prompt_run; [exact Hrun | | apply inv_initial | apply prompt_initial].
  rewrite cfg_initial. exact Hp.
Qed.

End ARScreenInvariant.

(** * Rounds and feedback of [ARScreen.tsx] *)
Module ARScreenRounds.

Import ARScreen ARScreenFacts ARScreenFrame ARScreenSteps ARScreenInvariant.

Lemma fire_same_due (l1 l2 added ts ts' : list (Z * Task)) d t :
  ts = l1 ++ (d, t) :: l2 ->
  ts' = l1 ++ l2 ++ added ->
  feedbackDue [(d, t)] = [] ->
  feedbackDue added = [] ->
  feedbackDue ts' = feedbackDue ts.
Proof.
  intros -> -> Hdt Hadd. rewrite !feedbackDue_app, Hadd, app_nil_r.
  change ((d, t) :: l2) with ([(d, t)] ++ l2).
  rewrite feedbackDue_app, Hdt. reflexivity.
Qed.

Lemma showing_game d c f r s s' :
  gameOf s' = gameOf s ->
  feedbackDue (timers s') = feedbackDue (timers s) ->
  showing d c f r s -> showing d c f r s'.
Proof.
  intros Hg Hf. destruct (gameOf_fields _ _ Hg) as (Gr & Gs & Ga & Gf & Gi).
  unfold showing. rewrite Gr, Ga, Gf, Gi, Hf. tauto.
Qed.

(** One step of an overlay: it stays, or it is over, and then the clock
    is at the due time or later and no entity was added. *)
Lemma showing_step ev s s' e d c f r :
  Inv s -> showing d c f r s ->
  step ev s = Some (s', e) ->
  showing d c f r s'
  \/ (ended (now s) r s' /\ d <= now s /\ additions e = []).
Proof.
  intros Hinv Hshow Hstep.
  pose proof (inv_step _ _ _ _ Hstep Hinv) as Hinv'.
  pose proof Hshow as (Sa & Ss & Sf & Sr & Sd).
  pose proof Hinv as (I0 & I1 & I2). rewrite Sa in I2.
  destruct I2 as (Iready & _).
  destruct (step_change _ _ _ _ Hstep)
    as [[(Hg & Hn & extra & Ht & Hp) Hadd]
       | added Hready | clicked f' rdy Hanim
       | Hg Ht Hlt Hall Hadd
       | l1 dt t l2 added Ht Hd Hmin Hn Ht' Hfired].
  - left. eapply showing_game; [exact Hg | | exact Hshow].
    rewrite Ht, feedbackDue_app, (feedbackDue_passive _ Hp), app_nil_r. reflexivity.
  - unfold gameOf in Hready. cbn in Hready. congruence.
  - unfold gameOf in Hanim. cbn in Hanim. congruence.
  - left. eapply showing_game; [exact Hg | rewrite Ht; reflexivity | exact Hshow].
  - destruct t as [v|rdy|n rdy|c' rdy|c' rdy|l r' ln rn]; cbn [fired] in Hfired.
    + destruct Hfired as (Hg & Hp & _). left.
      eapply showing_game; [exact Hg | | exact Hshow].
      eapply fire_same_due; try eassumption; [reflexivity|].
      apply feedbackDue_passive, Hp.
    + right.
      destruct Hfired as (Hg & Hadd & ens & Hadded & Hens).
      unfold gameOf in Hg, Hadded, Hens. cbn [round ready] in Hg, Hadded, Hens.
      injection Hg as Gr Gs Ga Gf Gi.
      assert (Hin : In dt (feedbackDue (timers s))).
      { apply (feedbackDue_in _ rdy). rewrite Ht. apply in_or_app. right. left. reflexivity. }
      rewrite Sd in Hin. destruct Hin as [<-|[]].
      split; [|split; [exact Hd | exact Hadd]].
      assert (Hnew : forall d' n rdy',
                In (d', SpawnNext n rdy') (timers s') ->
                n = r + 1 /\ d' = now s + 100).
      { intros d' n rdy' Hin.
        destruct Hinv' as (_ & J1 & _). rewrite List.Forall_forall in J1.
        pose proof (J1 _ Hin) as Jn. unfold timerOk in Jn. cbn [fst snd] in Jn.
        rewrite Gr, Sr in Jn. destruct Jn as (Jn & _).
        split; [exact Jn|].
        rewrite Ht', app_assoc in Hin. apply in_app_or in Hin as [Hin|Hin].
        - exfalso. rewrite List.Forall_forall in I1.
          assert (Hin0 : In (d', SpawnNext n rdy') (timers s)).
          { rewrite Ht. apply in_app_or in Hin as [Hin|Hin]; apply in_or_app;
              [left | right; right]; exact Hin. }
          pose proof (I1 _ Hin0) as Jo. unfold timerOk in Jo. cbn [fst snd] in Jo.
          rewrite Sr in Jo. lia.
        - rewrite Hadded, Sr in Hin. apply in_app_or in Hin as [Hin|Hin].
          + destruct (r + 1 <? TOTAL_ROUNDS); cbn [In] in Hin; [|destruct Hin].
            destruct Hin as [Hin|[]]. injection Hin as <- _ _. reflexivity.
          + destruct Hens as [->|(rdy2 & ->)]; cbn [In] in Hin; [destruct Hin|].
            destruct Hin as [Hin|[]]. discriminate. }
      unfold ended. rewrite Hn, Gr, Ga, Gf, Gi, Sr.
      repeat split; try assumption; try reflexivity.
      * intros Hlt. exists rdy. rewrite Ht', Hadded, Sr.
        destruct (Z.ltb_spec (r + 1) TOTAL_ROUNDS) as [_|Hge]; [|lia].
        apply in_or_app. right. apply in_or_app. right.
        apply in_or_app. left. left. reflexivity.
      * destruct (Hnew _ _ _ H) as (Hn1 & _). exact Hn1.
      * destruct (Hnew _ _ _ H) as (_ & Hn2). lia.
      * destruct (Hnew _ _ _ H) as (_ & Hn2). lia.
    + destruct Hfired as (Hg & Hp). left.
      eapply showing_game; [exact Hg | | exact Hshow].
      eapply fire_same_due; try eassumption; [reflexivity|].
      apply feedbackDue_passive, Hp.
    + destruct Hfired as (Hg & -> & _). left.
      eapply showing_game; [exact Hg | | exact Hshow].
      eapply fire_same_due; try eassumption; reflexivity.
    + destruct Hfired as (Hg & Hp & _). left.
      eapply showing_game; [exact Hg | | exact Hshow].
      eapply fire_same_due; try eassumption; [reflexivity|].
      apply feedbackDue_passive, Hp.
    + destruct Hfired as (Hg & Hp & _). left.
      eapply showing_game; [exact Hg | | exact Hshow].
      eapply fire_same_due; try eassumption; [reflexivity|].
      apply feedbackDue_passive, Hp.
Qed.




(** Along a run an overlay stays on until its end runs, at its due time
    or later; after it the round index is above the one of the
    selection. *)
Lemma showing_run d c f r s e s' :
  run s e s' -> Inv s -> showing d c f r s ->
  showing d c f r s'
  \/ (d <= now s' /\ r + 1 <= currentRound (hooks s')).
Proof.
  induction 1 as [s | s ev s1 e1 e2 s2 Hstep Hrun IH]; intros Hinv Hshow.
  - left. exact Hshow.
  - pose proof (inv_step _ _ _ _ Hstep Hinv) as Hinv1.
    destruct (showing_step _ _ _ _ _ _ _ _ Hinv Hshow Hstep)
      as [Hshow1|((En & _ & _ & _ & Er & _) & Hd & _)].
    + apply IH; assumption.
    + right. destruct (run_framed _ _ _ Hrun) as (_ & _ & _ & Hn & Hr & _). lia.
Qed.

(** A step that turns the feedback on is a processed selection: its
    overlay is due 2000 ms later. *)
Lemma select_shows ev s s' e :
  Inv s ->
  isAnimating (hooks s) = false ->
  step ev s = Some (s', e) ->
  isAnimating (hooks s') = true ->
  exists c f,
    showing (now s + 2000) c f (currentRound (hooks s)) s'
    /\ now s' = now s /\ additions e = [] /\ timers s' <> timers s.
Proof.
  intros Hinv Hidle Hstep Hon.
  pose proof Hinv as (_ & _ & I2). rewrite Hidle in I2.
  destruct I2 as (_ & _ & Id).
  assert (Hsame : forall s1, gameOf s1 = gameOf s -> isAnimating (hooks s1) = false).
  { intros s1 Hg. destruct (gameOf_fields _ _ Hg) as (_ & _ & _ & _ & ->). exact Hidle. }
  destruct (step_change _ _ _ _ Hstep)
    as [[(Hg & _) _]
       | added Hready Hg
       | clicked f' rdy Hanim Hready Hg Hn Ht Hadd
       | Hg _ _ _ _
       | l1 dt t l2 added Ht Hd Hmin Hn Ht' Hfired].
  - rewrite (Hsame _ Hg) in Hon. discriminate.
  - unfold gameOf in Hg. injection Hg as _ _ _ _ Gi. congruence.
  - unfold gameOf in Hg. injection Hg as Gr Gs Ga Gf Gi.
    exists clicked, f'. unfold showing.
    rewrite Gr, Ga, Gf, Gi, Ht, feedbackDue_app, Id.
    repeat split; try assumption.
    intros Heq. apply (f_equal (@length _)) in Heq.
    rewrite length_app in Heq. cbn in Heq. lia.
  - rewrite (Hsame _ Hg) in Hon. discriminate.
  - destruct t; cbn [fired] in Hfired;
      try (destruct Hfired as (Hg & _); rewrite (Hsame _ Hg) in Hon; discriminate).
    destruct Hfired as (Hg & _). unfold gameOf in Hg.
    injection Hg as _ _ _ _ Gi. congruence.
Qed.

(** Once the round index has reached [TOTAL_ROUNDS] no step adds an
    entity. *)
Lemma no_spawn_at_final ev s s' e :
  Inv s ->
  TOTAL_ROUNDS <= currentRound (hooks s) ->
  step ev s = Some (s', e) ->
  additions e = [].
Proof.
  intros (I0 & I1 & _) Hfinal Hstep. unfold TOTAL_ROUNDS in *.
  destruct (step_change _ _ _ _ Hstep)
    as [[_ Hadd] | | | | l1 dt t l2 added Ht Hd Hmin Hn Ht' Hfired]; try assumption.
  assert (Hthis : timerOk s (dt, t)).
  { rewrite List.Forall_forall in I1. apply I1. rewrite Ht.
    apply in_or_app. right. left. reflexivity. }
  unfold timerOk in Hthis. cbn [fst snd] in Hthis.
  destruct t; cbn [fired] in Hfired.
  - apply Hfired.
  - apply Hfired.
  - unfold TOTAL_ROUNDS in Hthis. lia.
  - apply Hfired.
  - destruct Hfired as (_ & _ & Hadd). apply Hadd. intros ->.
    destruct (Hthis eq_refl) as (_ & [Hr|(Hr & _)]); lia.
  - apply Hfired.
Qed.

(** At the terminal count the screen is idle. *)
Lemma idle_at_final s :
  TOTAL_ROUNDS <= currentRound (hooks s) ->
  currentAnimal s = None /\ topImageSrc s = "" /\ topImageShown s = false.
Proof.
  intros Hfinal. unfold topImageSrc, topImageShown, currentAnimal.
  destruct (Z.ltb_spec (currentRound (hooks s)) TOTAL_ROUNDS); [lia|].
  repeat split.
Qed.

(** Every step leaves the round index or is the end of a feedback, which
    adds one to it. *)
Lemma round_step ev s s' e :
  Inv s ->
  step ev s = Some (s', e) ->
  currentRound (hooks s') = currentRound (hooks s)
  \/ (currentRound (hooks s') = currentRound (hooks s) + 1
      /\ isAnimating (hooks s) = true /\ isAnimating (hooks s') = false).
Proof.
  intros Hinv Hstep.
  destruct (isAnimating (hooks s)) eqn:Hanim.
  - pose proof Hinv as (_ & _ & I2). rewrite Hanim in I2.
    destruct I2 as (_ & Hsel & Hfb & d & Hd).
    destruct (selectedAnimal (hooks s)) as [c|] eqn:Hc; [|contradiction].
    destruct (feedbackType (hooks s)) as [f|] eqn:Hf; [|contradiction].
    destruct (showing_step ev s s' e d c f (currentRound (hooks s)) Hinv)
      as [(_ & _ & _ & Hr & _)|((_ & Ha & _ & _ & Hr & _) & _)];
      try assumption.
    + repeat split; assumption.
    + left. exact Hr.
    + right. repeat split; assumption.
  - left.
    destruct (step_change _ _ _ _ Hstep)
      as [[(Hg & _) _]
         | added Hready Hg
         | clicked f' rdy _ _ Hg
         | Hg _ _ _ _
         | l1 dt t l2 added Ht Hd Hmin Hn Ht' Hfired].
    + destruct (gameOf_fields _ _ Hg) as (Gr & _). exact Gr.
    + unfold gameOf in Hg. injection Hg as Gr _. exact Gr.
    + unfold gameOf in Hg. injection Hg as Gr _. exact Gr.
    + destruct (gameOf_fields _ _ Hg) as (Gr & _). exact Gr.
    + destruct t as [?|rdy0|? ?|? ?|? ?|? ? ? ?]; cbn [fired] in Hfired;
        try (destruct Hfired as (Hg & _);
             destruct (gameOf_fields _ _ Hg) as (Gr & _); exact Gr).
      (* no feedback end is pending when no feedback runs *)
      exfalso. destruct Hinv as (_ & _ & I2). rewrite Hanim in I2.
      destruct I2 as (_ & _ & Id).
      assert (Hin : In dt (feedbackDue (timers s))).
      { apply (feedbackDue_in _ rdy0). rewrite Ht. apply in_or_app. right. left. reflexivity. }
      rewrite Id in Hin. destruct Hin.
Qed.

End ARScreenRounds.
(** * The selections of the preload revision *)
Module PreloadFacts.

Import PreloadRevision.

Ltac open_preload s :=
  destruct s as [? ? [? ? ? ? ? ? ? ?] [? ? ? ? ? ? ? ?] ? ? ?].

Lemma fireNext_single u s t :
  timers s = [t] ->
  fireNext u s =
    Some ((runTask u (task t) >>> afterRender s)
            {| arScene := arScene s; sceneEl := sceneEl s; hooks := hooks s;
               refs := refs s; now := Z.max (now s) (due t);
               nextTimerId := nextTimerId s; timers := [] |}).
Proof.
  intros H. unfold fireNext. rewrite H. cbn [earliest List.filter].
  rewrite Z.eqb_refl. reflexivity.
Qed.

Lemma incorrect_selection u r clicked s :
  atRest r s -> correctOf r <> Some clicked ->
  let s1 := (handleAnimalClick clicked s).1 in
  shown clicked ARScreen.error r s1 /\ now s1 = now s
  /\ exists s2 e2,
       fireNext u s1 = Some (s2, e2)
       /\ over s2 /\ now s2 = now s + 1700 /\ atRest r s2.
Proof.
  intros (Hidle & Ht & Hr & Href) Hwrong.
  open_preload s. cbn in Hidle, Ht, Hr, Href.
  subst isAnimating0 timers0 currentRound0 currentRoundRef0.
  unfold handleAnimalClick. cbn [isAnimating hooks refs currentRoundRef].
  fold (correctOf r).
  rewrite bool_decide_eq_false_2 by congruence.
  cbn -[Z.add]. split; [repeat split|]. split; [reflexivity|].
  eexists _, _. split; [reflexivity|].
  assert (Hmax : Z.max now0 (now0 + 1700) = now0 + 1700) by lia.
  unfold andThen, feedbackOff, afterRender, queueRound, emit, skip.
  cbn -[Z.add Z.max Z.ltb index randomWrong Z.eqb].
  destruct (if r <? TOTAL_ROUNDS then index ANIMALS r else None) as [a|];
    [destruct (randomWrong u (ARScreen.name a))|];
    cbn -[Z.add Z.max Z.eqb]; rewrite !Z.eqb_refl; cbn -[Z.add Z.max];
    rewrite ?Hmax; repeat split.
Qed.

(** The pick of the wrong animal of a playable round. *)
Lemma requeue_pick u r :
  0 <= r < TOTAL_ROUNDS -> (0 <= u)%Q -> (u < 1)%Q ->
  exists a w,
    (if r <? TOTAL_ROUNDS then index ANIMALS r else None) = Some a
    /\ randomWrong u (ARScreen.name a) = Some w
    /\ ARScreen.name w <> ARScreen.name a.
Proof.
  intros Hr H0 H1.
  pose proof (ARScreenFacts.random_index u 4 H0 H1 ltac:(lia)) as Hk.
  unfold ARScreen.TOTAL_ROUNDS in Hr.
  destruct (ARScreenFacts.round_cases _ Hr) as [H|[H|[H|[H|H]]]]; subst r.
  all: eexists; unfold randomWrong.
  all: destruct (ARScreenFacts.index_cases4 _ Hk) as [K|[K|[K|K]]].
  all: eexists; (split; [reflexivity|]); cbn [ARScreen.name].
  all: lazy beta iota zeta delta
         [List.filter ARScreen.name bool_decide decide_rel negb
          ARScreen.AnimalType_eq_dec ARScreen.AnimalType_rec
          ARScreen.AnimalType_rect ARScreen.ANIMALS length
          sumbool_rec sumbool_rect].
  all: rewrite K; split; [reflexivity | discriminate].
Qed.

(** After an incorrect selection in a playable round the callback queues
    the same round again. *)
Lemma incorrect_requeues u r clicked s s2 e2 :
  atRest r s -> correctOf r <> Some clicked ->
  fireNext u (handleAnimalClick clicked s).1 = Some (s2, e2) ->
  0 <= r < TOTAL_ROUNDS -> (0 <= u)%Q -> (u < 1)%Q ->
  queued r s2.
Proof.
  intros (Hidle & Ht & Hr & Href) Hwrong Hfire Hplay H0 H1.
  destruct (requeue_pick u r Hplay H0 H1) as (a & w & Ha & Hw & Hne).
  revert Hfire.
  open_preload s. cbn in Hidle, Ht, Hr, Href.
  subst isAnimating0 timers0 currentRound0 currentRoundRef0.
  unfold handleAnimalClick. cbn [isAnimating hooks refs currentRoundRef].
  fold (correctOf r).
  rewrite bool_decide_eq_false_2 by congruence.
  cbn -[Z.add].
  unfold andThen, feedbackOff, afterRender, queueRound, emit, skip.
  cbn -[Z.add Z.max Z.ltb index randomWrong Z.eqb].
  rewrite Ha, Hw. cbn -[Z.add Z.max Z.eqb]. rewrite !Z.eqb_refl.
  cbn -[Z.add Z.max]. intros [= <- _].
  unfold queued, correctOf. rewrite Ha. cbn.
  split; [reflexivity|]. split; [|reflexivity].
  eexists. split; [reflexivity|]. congruence.
Qed.

Lemma click_correct r clicked s :
  atRest r s -> correctOf r = Some clicked ->
  let s1 := (handleAnimalClick clicked s).1 in
  shown clicked ARScreen.success r s1 /\ now s1 = now s
  /\ currentRoundRef (refs s1) = r
  /\ timers s1 = [ {| timerId := nextTimerId s; due := now s + 800;
                      task := AnimHide r |} ].
Proof.
  intros (Hidle & Ht & Hr & Href) Hright.
  open_preload s. cbn in Hidle, Ht, Hr, Href.
  subst isAnimating0 timers0 currentRound0 currentRoundRef0.
  unfold handleAnimalClick. cbn [isAnimating hooks refs currentRoundRef].
  fold (correctOf r).
  rewrite bool_decide_eq_true_2 by congruence.
  destruct animTimeoutRef0 as [i|]; [destruct (i =? 0) eqn:Hi|].
  all: cbn -[Z.add Z.eqb]; rewrite ?Hi; cbn -[Z.add Z.eqb]; repeat split.
Qed.

(** The callbacks of the animation, run when they are the one pending
    timer. *)
Lemma fire_hide u s i d r :
  timers s = [ {| timerId := i; due := d; task := AnimHide r |} ] ->
  now s <= d ->
  exists s' e,
    fireNext u s = Some (s', e)
    /\ (forall c f n, shown c f n s -> shown c f n s')
    /\ currentRoundRef (refs s') = currentRoundRef (refs s)
    /\ now s' = d
    /\ timers s' = [ {| timerId := nextTimerId s; due := d + 600;
                        task := AnimShowNext r |} ].
Proof.
  intros Ht Hd. rewrite (fireNext_single u s _ Ht).
  open_preload s. cbn in Ht, Hd. subst.
  eexists _, _. split; [reflexivity|].
  unfold andThen, afterRender, shown.
  cbn -[Z.add Z.max Z.eqb]. rewrite Z.eqb_refl. cbn -[Z.add Z.max Z.eqb].
  rewrite Z.max_r by lia. repeat split; tauto.
Qed.

Lemma fire_showNext u s i d r :
  timers s = [ {| timerId := i; due := d; task := AnimShowNext r |} ] ->
  now s <= d ->
  exists s' e,
    fireNext u s = Some (s', e)
    /\ (forall c f n, shown c f n s -> shown c f n s')
    /\ currentRoundRef (refs s') = currentRoundRef (refs s)
    /\ now s' = d
    /\ timers s' = [ {| timerId := nextTimerId s; due := d + 600;
                        task := AnimDone r |} ].
Proof.
  intros Ht Hd. rewrite (fireNext_single u s _ Ht).
  open_preload s. cbn in Ht, Hd. subst.
  eexists _, _. split; [reflexivity|].
  unfold andThen, afterRender, shown.
  cbn -[Z.add Z.max Z.eqb index]. rewrite Z.eqb_refl. cbn -[Z.add Z.max Z.eqb index].
  rewrite Z.max_r by lia. repeat split; tauto.
Qed.

Lemma fire_done u s i d r :
  timers s = [ {| timerId := i; due := d; task := AnimDone r |} ] ->
  now s <= d ->
  exists s' e,
    fireNext u s = Some (s', e)
    /\ over s' /\ now s' = d
    /\ atRest (currentRound (hooks s) + 1) s'.
Proof.
  intros Ht Hd. rewrite (fireNext_single u s _ Ht).
  open_preload s. cbn in Ht, Hd. subst.
  eexists _, _. split; [reflexivity|].
  assert (Hne : (currentRound0 =? currentRound0 + 1) = false)
    by (apply Z.eqb_neq; lia).
  unfold andThen, afterRender, over, atRest, runTask, queueIfPlayable.
  cbn -[Z.add Z.max Z.eqb Z.ltb index randomWrong].
  destruct (r + 1 <? TOTAL_ROUNDS);
    [destruct (index ANIMALS (r + 1)) as [a|];
     [destruct (randomWrong u (ARScreen.name a))|]|].
  all: cbn -[Z.add Z.max Z.eqb index]; rewrite Hne; cbn -[Z.add Z.max Z.eqb index].
  all: rewrite Z.max_r by lia; repeat split.
Qed.

Lemma correct_selection u r clicked s :
  atRest r s -> correctOf r = Some clicked ->
  let s1 := (handleAnimalClick clicked s).1 in
  shown clicked ARScreen.success r s1 /\ now s1 = now s
  /\ exists s2 e2 s3 e3 s4 e4,
       fireNext u s1 = Some (s2, e2)
       /\ shown clicked ARScreen.success r s2 /\ now s2 = now s + 800
       /\ fireNext u s2 = Some (s3, e3)
       /\ shown clicked ARScreen.success r s3 /\ now s3 = now s + 1400
       /\ fireNext u s3 = Some (s4, e4)
       /\ over s4 /\ now s4 = now s + 2000 /\ atRest (r + 1) s4.
Proof.
  intros Hrest Hright.
  destruct (click_correct r clicked s Hrest Hright) as (Hs1 & Hn1 & Hf1 & Ht1).
  cbv zeta. set (s1 := (handleAnimalClick clicked s).1) in *.
  split; [exact Hs1|]. split; [exact Hn1|].
  destruct (fire_hide u s1 _ _ _ Ht1 ltac:(lia))
    as (s2 & e2 & F2 & Hs2 & Hf2 & Hn2 & Ht2).
  destruct (fire_showNext u s2 _ _ _ Ht2 ltac:(lia))
    as (s3 & e3 & F3 & Hs3 & Hf3 & Hn3 & Ht3).
  destruct (fire_done u s3 _ _ _ Ht3 ltac:(lia))
    as (s4 & e4 & F4 & Ho4 & Hn4 & Hr4).
  exists s2, e2, s3, e3, s4, e4.
  pose proof (Hs2 _ _ _ Hs1) as S2. pose proof (Hs3 _ _ _ S2) as S3.
  destruct S3 as (Sa & Sb & Sc & Sr). rewrite Sr in Hr4.
  repeat match goal with |- _ /\ _ => split end;
    try assumption; try (apply Hs3, Hs2, Hs1); lia.
Qed.
End PreloadFacts.
Module ARScreenGame.

Import ARScreen ARScreenFacts ARScreenFrame ARScreenSteps ARScreenInvariant
       ARScreenRounds.

Lemma deliver_run evs s s' e : deliver evs s = Some (s', e) -> run s e s'.
Proof.
  revert s s' e. induction evs as [|ev evs IH]; intros s s' e; cbn [deliver].
  - intros [= <- <-]. constructor.
  - destruct (step ev s) as [[s1 e1]|] eqn:Hs; [|discriminate].
    destruct (deliver evs s1) as [[s2 e2]|] eqn:Hd; [|discriminate].
    intros [= <- <-]. eapply run_step; [exact Hs | apply IH, Hd].
Qed.



Lemma after_reachable evs :
  deliver evs (initial mounted) <> None -> reachable mounted (after evs).
Proof.
  unfold after. destruct (deliver evs (initial mounted)) as [[s e]|] eqn:H;
    [|congruence].
  intros _. exists e. apply (deliver_run evs), H.
Qed.





End ARScreenGame.
(** * The round loop, the feedback and the hand-off *)
Module ARScreenClaims.

Import ARScreen ARScreenFacts ARScreenFrame ARScreenSteps ARScreenInvariant
       ARScreenRounds ARScreenGame.

(** In the preload revision an incorrect selection leaves the round index
    as it was: at round 1 a touch on the cat (the animal of round 1 is the
    dog) shows the error feedback, and when its callback has run the
    feedback is cleared, the round index is still 1 and round 1 is queued
    again. *)
Lemma preload_incorrect_keeps_round :
  exists p2 e2,
    PreloadRevision.fireNext (3 # 4)
      (PreloadRevision.handleAnimalClick gato (PreloadRevision.waiting 1)).1
    = Some (p2, e2)
    /\ PreloadRevision.shown gato error 1
         (PreloadRevision.handleAnimalClick gato (PreloadRevision.waiting 1)).1
    /\ PreloadRevision.over p2
    /\ PreloadRevision.currentRound (PreloadRevision.hooks p2) = 1
    /\ PreloadRevision.correct
         (PreloadRevision.pendingARImages (PreloadRevision.hooks p2))
       = Some cachorro.
Proof.
  eexists _, _. split; [vm_compute; reflexivity|].
  vm_compute. repeat split.
Qed.

(** C3. In [ARScreen.tsx] the round index starts at 0, never decreases,
    and a step changes it only by the end of a feedback, which adds
    exactly 1: every processed selection, correct or not, is followed by
    its overlay, and the step that ends the overlay leaves the index one
    above the round of the selection.  Once the index has reached 5 the
    screen is idle (no current animal, no top image) and no step adds an
    entity.  In the preload revision a processed correct selection adds 1
    to the index when its animation is over, and a processed incorrect
    one leaves the index as it was; in a playable round its callback
    queues the same round again. *)
Theorem round_index_progress c s p r u clicked :
  reachable c s ->
  PreloadRevision.atRest r p ->
  (currentRound (hooks (initial c)) = 0
   /\ (forall e s', run s e s' ->
         currentRound (hooks s) <= currentRound (hooks s'))
   /\ (forall ev s' e, step ev s = Some (s', e) ->
         currentRound (hooks s') = currentRound (hooks s)
         \/ (currentRound (hooks s') = currentRound (hooks s) + 1
             /\ isAnimating (hooks s) = true
             /\ isAnimating (hooks s') = false))
   /\ (forall sel s1 e1,
         isAnimating (hooks s) = false ->
         step (selectionEvent sel) s = Some (s1, e1) ->
         isAnimating (hooks s1) = true ->
         exists d a f,
           showing d a f (currentRound (hooks s)) s1
           /\ forall e s2, run s1 e s2 ->
                (showing d a f (currentRound (hooks s)) s2
                 \/ currentRound (hooks s) + 1 <= currentRound (hooks s2))
                /\ (showing d a f (currentRound (hooks s)) s2 ->
                    forall ev s3 e3, step ev s2 = Some (s3, e3) ->
                      showing d a f (currentRound (hooks s)) s3
                      \/ (isAnimating (hooks s3) = false
                          /\ currentRound (hooks s3)
                             = currentRound (hooks s) + 1)))
   /\ (TOTAL_ROUNDS <= currentRound (hooks s) ->
         currentAnimal s = None /\ topImageSrc s = "" /\ topImageShown s = false
         /\ forall ev s' e, step ev s = Some (s', e) -> additions e = []))
  /\ (PreloadRevision.correctOf r = Some clicked ->
      exists p2 e2 p3 e3 p4 e4,
        PreloadRevision.fireNext u (PreloadRevision.handleAnimalClick clicked p).1
        = Some (p2, e2)
        /\ PreloadRevision.fireNext u p2 = Some (p3, e3)
        /\ PreloadRevision.fireNext u p3 = Some (p4, e4)
        /\ PreloadRevision.shown clicked success r p2
        /\ PreloadRevision.shown clicked success r p3
        /\ PreloadRevision.over p4
        /\ PreloadRevision.atRest (r + 1) p4)
  /\ (PreloadRevision.correctOf r <> Some clicked ->
      exists p2 e2,
        PreloadRevision.fireNext u (PreloadRevision.handleAnimalClick clicked p).1
        = Some (p2, e2)
        /\ PreloadRevision.shown clicked error r
             (PreloadRevision.handleAnimalClick clicked p).1
        /\ PreloadRevision.over p2
        /\ PreloadRevision.atRest r p2
        /\ (0 <= r < TOTAL_ROUNDS -> (0 <= u)%Q -> (u < 1)%Q ->
            PreloadRevision.queued r p2)).
Proof.
  intros Hreach Hrest. pose proof (inv_reachable _ _ Hreach) as Hinv.
  split; [|split].
  - split; [destruct (initial_view c) as (-> & _); reflexivity|]. split.
    { intros e s' Hrun. apply (run_framed _ _ _ Hrun). }
    split.
    { intros ev s' e Hstep. apply (round_step _ _ _ _ Hinv Hstep). }
    split.
    { intros sel s1 e1 Hidle Hstep Hon.
      destruct (select_shows _ _ _ _ Hinv Hidle Hstep Hon)
        as (a & f & Hshow & _).
      pose proof (inv_step _ _ _ _ Hstep Hinv) as Hinv1.
      exists (now s + 2000), a, f. split; [exact Hshow|].
      intros e s2 Hrun. split.
      - destruct (showing_run _ _ _ _ _ _ _ Hrun Hinv1 Hshow) as [H|[_ H]];
          [left; exact H | right; exact H].
      - intros Hshow2 ev s3 e3 Hstep3.
        pose proof (inv_run _ _ _ Hrun Hinv1) as Hinv2.
        destruct (showing_step _ _ _ _ _ _ _ _ Hinv2 Hshow2 Hstep3)
          as [H|((_ & Hoff & _ & _ & Hr & _) & _)];
          [left; exact H | right; split; assumption]. }
    intros Hfinal.
    destruct (idle_at_final s Hfinal) as (H1 & H2 & H3).
    repeat match goal with |- _ /\ _ => split end; try assumption.
    intros ev s' e Hstep. apply (no_spawn_at_final _ _ _ _ Hinv Hfinal Hstep).
  - intros Hright.
    destruct (PreloadFacts.correct_selection u r clicked p Hrest Hright)
      as (_ & _ & p2 & e2 & p3 & e3 & p4 & e4
          & F2 & S2 & _ & F3 & S3 & _ & F4 & O4 & _ & R4).
    exists p2, e2, p3, e3, p4, e4.
    repeat match goal with |- _ /\ _ => split end; assumption.
  - intros Hwrong.
    destruct (PreloadFacts.incorrect_selection u r clicked p Hrest Hwrong)
      as (S1 & _ & p2 & e2 & F2 & O2 & _ & R2).
    exists p2, e2.
    repeat match goal with |- _ /\ _ => split end; try assumption.
    intros Hplay H0 H1.
    apply (PreloadFacts.incorrect_requeues u r clicked p p2 e2); assumption.
Qed.

Lemma round_index_progress_witness :
  currentAnimal (after fullGame) = None
  /\ topImageShown (after fullGame) = false
  /\ exists p2 e2,
       PreloadRevision.fireNext (3 # 4)
         (PreloadRevision.handleAnimalClick gato (PreloadRevision.waiting 1)).1
       = Some (p2, e2)
       /\ PreloadRevision.atRest 1 p2.
Proof.
  destruct (round_index_progress mounted (after fullGame)
              (PreloadRevision.waiting 1) 1 (3 # 4) gato)
    as ((_ & _ & _ & _ & Hfinal) & _ & Hwrong).
  - apply after_reachable. vm_compute. discriminate.
  - vm_compute. repeat split.
  - destruct Hfinal as (H1 & _ & H3 & _); [vm_compute; discriminate|].
    split; [exact H1|]. split; [exact H3|].
    destruct Hwrong as (p2 & e2 & F & _ & _ & R & _); [vm_compute; discriminate|].
    exists p2, e2. split; assumption.
Defined.





(** A whole game on a mounted page: five selections, each followed by
    its feedback and, but for the last, by the next spawn.  At the end
    the round index is 5, nothing is pending, ten entities were added,
    and [onNavigate] was not called. *)
Lemma game_ends_without_navigation :
  deliver fullGame (initial mounted) = Some (after fullGame, calls fullGame)
  /\ currentRound (hooks (after fullGame)) = 5
  /\ isAnimating (hooks (after fullGame)) = false
  /\ timers (after fullGame) = []
  /\ length (additions (calls fullGame)) = 10%nat
  /\ navigations (calls fullGame) = [].
Proof. vm_compute. repeat split. Qed.

(** C4. No run of the screen calls the navigation callback, at any round
    index; once the index has reached 5 the screen stays where it is,
    idle: no current animal, no top image, and no step adds an entity or
    navigates. *)
Theorem no_result_handoff c e s :
  run (initial c) e s ->
  navigations e = []
  /\ (TOTAL_ROUNDS <= currentRound (hooks s) ->
      currentAnimal s = None /\ topImageShown s = false
      /\ forall ev s' e', step ev s = Some (s', e') ->
           navigations e' = [] /\ additions e' = []
           /\ TOTAL_ROUNDS <= currentRound (hooks s')).
Proof.
  intros Hrun. split; [apply (run_framed _ _ _ Hrun)|].
  intros Hfinal. pose proof (inv_reachable c s (ex_intro _ e Hrun)) as Hinv.
  destruct (idle_at_final s Hfinal) as (H1 & _ & H3).
  split; [exact H1|]. split; [exact H3|].
  intros ev s' e' Hstep.
  destruct (step_framed _ _ _ _ Hstep) as (_ & _ & Hnav & _ & Hr & _).
  split; [exact Hnav|]. split; [|lia].
  apply (no_spawn_at_final _ _ _ _ Hinv Hfinal Hstep).
Qed.

Lemma no_result_handoff_witness :
  navigations (calls fullGame) = []
  /\ currentAnimal (after fullGame) = None
  /\ topImageShown (after fullGame) = false.
Proof.
  destruct (no_result_handoff mounted (calls fullGame) (after fullGame))
    as (Hnav & Hidle).
  - apply (deliver_run fullGame). vm_compute. reflexivity.
  - destruct Hidle as (H1 & H2 & _); [vm_compute; discriminate|].
    split; [exact Hnav|]. split; assumption.
Defined.

(** C7. On every reachable screen the [ANIMALS] array is the one the
    module declares, and a spawn, a selection, a timer callback and any
    step leave it so; the wrong-animal candidates are the entries of
    [ANIMALS] that [filter] keeps, a list of their own. *)
Theorem animals_never_mutated c s :
  reachable c s ->
  animals s = ANIMALS
  /\ (forall rdy o r, animals (spawnRound rdy o r s).1 = ANIMALS)
  /\ (forall clicked correct,
        animals (handleAnimalClick clicked correct s).1 = ANIMALS)
  /\ (forall o t, animals (runTask o t s).1 = ANIMALS)
  /\ (forall ev s' e, step ev s = Some (s', e) -> animals s' = ANIMALS)
  /\ (forall correct,
        wrongAnimals s correct
        = List.filter (fun a => negb (bool_decide (name a = correct))) ANIMALS
        /\ Forall (fun a => In a ANIMALS /\ name a <> correct)
                  (wrongAnimals s correct)).
Proof.
  intros [e Hrun].
  assert (Han : animals s = ANIMALS).
  { destruct (run_framed _ _ _ Hrun) as (_ & Ha & _). rewrite Ha.
    apply (initial_view c). }
  split; [exact Han|].
  split; [intros rdy o r; destruct (spawnRound_framed rdy o r s) as (_ & -> & _);
          exact Han|].
  split; [intros clicked correct;
          destruct (handleAnimalClick_framed clicked correct s) as (_ & -> & _);
          exact Han|].
  split; [intros o t; destruct (runTask_framed o t s) as (_ & -> & _); exact Han|].
  split; [intros ev s' e' Hstep;
          destruct (step_framed _ _ _ _ Hstep) as (_ & -> & _); exact Han|].
  intros correct. unfold wrongAnimals. rewrite Han. split; [reflexivity|].
  apply List.Forall_forall. intros a Ha. apply filter_In in Ha as [Hin Hne].
  split; [exact Hin|]. intros Heq. rewrite bool_decide_eq_true_2 in Hne by exact Heq.
  discriminate.
Qed.

Lemma animals_never_mutated_witness :
  animals (after fullGame) = ANIMALS
  /\ length (wrongAnimals (after fullGame) gato) = 4%nat.
Proof.
  destruct (animals_never_mutated mounted (after fullGame))
    as (Han & _ & _ & _ & _ & Hw).
  - apply after_reachable. vm_compute. discriminate.
  - split; [exact Han|]. destruct (Hw gato) as [-> _]. reflexivity.
Defined.

End ARScreenClaims.
(** * Camera failures *)
Module ARScreenCamera.

Import ARScreen ARScreenFacts ARScreenFrame ARScreenSteps ARScreenInvariant.

(** C8. Whenever [getUserMedia] or [video.play()] is rejected,
    [setupCamera] logs one warning or error, lets no exception out,
    clears [arLoading], leaves the round loop as it was and schedules the
    fade-in 100 ms later; the fade-in callback sets [isFadingIn], and
    [arLoading] is false on every screen the game reaches afterwards.
    The same holds when reading [getUserMedia] throws at once because
    [navigator.mediaDevices] is undefined: the error is logged, no request
    is made and none is left outstanding. *)
Theorem camera_failure_continues c s :
  failed c = true ->
  let r := setupCamera c s in
  length (complaints r.2) = 1%nat
  /\ uncaught r.2 = []
  /\ arLoading (hooks r.1) = false
  /\ gameOf r.1 = gameOf s
  /\ (exists video, timers r.1 = timers s ++ [(now s + 100, FadeIn video)])
  /\ (forall o video,
        isFadingIn (hooks (runTask o (FadeIn video) r.1).1) = true
        /\ arLoading (hooks (runTask o (FadeIn video) r.1).1) = false)
  /\ (forall e s', run r.1 e s' -> arLoading (hooks s') = false)
  /\ (mediaDevices (cfg s) = false ->
      let m := requestCamera s in
      length (complaints m.2) = 1%nat
      /\ uncaught m.2 = []
      /\ requests m.2 = 0%nat
      /\ cameraPending m.1 = cameraPending s
      /\ arLoading (hooks m.1) = false
      /\ gameOf m.1 = gameOf s
      /\ timers m.1 = timers s ++ [(now s + 100, FadeIn false)]
      /\ forall e s', run m.1 e s' -> arLoading (hooks s') = false).
Proof.
  intros Hfail r.
  assert (Hload : arLoading (hooks r.1) = false).
  { subst r. destruct c as [[|err] [|perr]]; try discriminate;
      unfold setupCamera, catchCamera; cbn [getUserMedia play];
      open_screen s; run_acts; repeat destruct (_ && _)%bool; reflexivity. }
  split; [|split; [|split; [exact Hload|split; [|split; [|split; [|split]]]]]].
  - subst r. destruct c as [[|err] [|perr]]; try discriminate;
      unfold setupCamera, catchCamera; cbn [getUserMedia play];
      open_screen s; run_acts; repeat destruct (_ && _)%bool; reflexivity.
  - subst r. destruct c as [[|err] [|perr]]; try discriminate;
      unfold setupCamera, catchCamera; cbn [getUserMedia play];
      open_screen s; run_acts; repeat destruct (_ && _)%bool; reflexivity.
  - apply (silent_quiet _ _ _ (setupCamera_silent c s)).
  - subst r. destruct c as [[|err] [|perr]]; try discriminate;
      unfold setupCamera, catchCamera; cbn [getUserMedia play];
      open_screen s; run_acts; repeat destruct (_ && _)%bool;
      eexists; reflexivity.
  - intros o video. unfold runTask.
    destruct r.1 as [? ? [? ? ? ? ? ? ?] ? ? ? ? ?] eqn:Hr1. cbn in Hload. subst.
    destruct video; run_acts; split; reflexivity.
  - intros e s' Hrun. destruct (run_framed _ _ _ Hrun) as (_ & _ & _ & _ & _ & H).
    apply H, Hload.
  - intros Hmd m.
    assert (Hm : arLoading (hooks m.1) = false).
    { subst m. unfold requestCamera, catchCamera. rewrite Hmd.
      open_screen s; run_acts; repeat destruct (_ && _)%bool; reflexivity. }
    repeat match goal with |- _ /\ _ => split end; try exact Hm.
    1-6: subst m; unfold requestCamera, catchCamera, gameOf; rewrite Hmd;
      open_screen s; run_acts; repeat destruct (_ && _)%bool; reflexivity.
    intros e s' Hrun. destruct (run_framed _ _ _ Hrun) as (_ & _ & _ & _ & _ & H).
    apply H, Hm.
Qed.

Lemma camera_failure_continues_witness :
  complaints (setupCamera cameraRefused (initial mounted)).2
  = ["Erro ao configurar câmera:"]
  /\ arLoading (hooks (setupCamera cameraRefused (initial mounted)).1) = false
  /\ timers (setupCamera cameraRefused (initial mounted)).1 = [(100, FadeIn false)].
Proof.
  destruct (camera_failure_continues cameraRefused (initial mounted))
    as (_ & _ & Hl & _); [reflexivity|].
  split; [reflexivity|]. split; [exact Hl | reflexivity].
Defined.

End ARScreenCamera.

(** * The circles of the overlay revision *)
Module CircleOverlayFacts.

Import CircleOverlay.

(** The function skips an entity whose id is the empty string, though the
    id and the position are both stored, and for an unmapped id that names
    a member of [Object.prototype] the animal of the circle is that
    member and not the cat: with [""] on the left and ["constructor"] on
    the right, both with a position and neither in the map, there is one
    circle only, the one of ["constructor"]. *)
Lemma odd_ids_circles :
  exists c,
    worldPositionsToScreenPositions unit (fun _ v => v) true oddRefs
      (Some sampleCanvas) (Some tt) = [c]
    /\ entityLeft oddRefs = Some "" /\ is_Some (posLeft oddRefs)
    /\ entityId c = "constructor"
    /\ entityIdToAnimal oddRefs !! "constructor" = None
    /\ animalName c = Inherited "constructor"
    /\ animalName c <> Animal ARScreen.gato.
Proof.
  eexists. split; [reflexivity|].
  split; [reflexivity|]. split; [eexists; reflexivity|].
  split; [reflexivity|]. split; [apply lookup_empty|].
  split; [reflexivity | discriminate].
Qed.

Section Circles.

Variable Camera : Type.
Variable project : Camera -> Vec3 -> Vec3.

Lemma getProperty_own m k a : m !! k = Some a -> getProperty m k = Some (Animal a).
Proof. intros H. unfold getProperty. rewrite H. reflexivity. Qed.

Lemma getProperty_none m k :
  m !! k = None -> k ∉ objectPrototype -> getProperty m k = None.
Proof.
  intros H Hk. unfold getProperty. rewrite H.
  rewrite bool_decide_eq_false_2 by exact Hk. reflexivity.
Qed.

(** What one circle carries. *)
Lemma circle_name (r : Refs) i :
  (forall a, entityIdToAnimal r !! i = Some a ->
     default (Animal ARScreen.gato) (getProperty (entityIdToAnimal r) i) = Animal a)
  /\ (entityIdToAnimal r !! i = None -> i ∉ objectPrototype ->
      default (Animal ARScreen.gato) (getProperty (entityIdToAnimal r) i)
      = Animal ARScreen.gato).
Proof.
  split.
  - intros a H. rewrite (getProperty_own _ _ _ H). reflexivity.
  - intros H Hk. rewrite (getProperty_none _ _ H Hk). reflexivity.
Qed.

(** C9. The function returns at most two circles: one for each of the
    entities left and right of which the id, not the empty string, and
    the world position are both stored, in that order; the key of each
    circle is the id of its entity; its animal is the one the map gives
    for that id, and the cat when the map has none and the id is not the
    name of a member of [Object.prototype]; and the result is empty
    whenever the canvas, [window.THREE] or the camera object is
    missing. *)
Theorem screen_circles three r canvas camObj :
  let res := worldPositionsToScreenPositions Camera project three r canvas camObj in
  (length res <= 2)%nat
  /\ (canvas = None \/ three = false \/ camObj = None -> res = [])
  /\ (is_Some canvas -> three = true -> is_Some camObj ->
      map entityId res
      = present (entityLeft r) (posLeft r) ++ present (entityRight r) (posRight r))
  /\ Forall (fun c =>
              key c = entityId c
              /\ entityId c <> ""
              /\ (forall a, entityIdToAnimal r !! entityId c = Some a ->
                    animalName c = Animal a)
              /\ (entityIdToAnimal r !! entityId c = None ->
                  entityId c ∉ objectPrototype ->
                  animalName c = Animal ARScreen.gato)
              /\ screenPxRadius c = ANIMAL_SCREEN_RADIUS) res
  /\ (entityLeft r <> entityRight r -> NoDup (map key res)).
Proof.
  intros res. subst res. unfold worldPositionsToScreenPositions.
  assert (Hnone :
    (canvas = None \/ three = false \/ camObj = None) ->
    (length (@nil Circle) <= 2)%nat
    /\ (canvas = None \/ three = false \/ camObj = None -> @nil Circle = [])
    /\ (is_Some canvas -> three = true -> is_Some camObj ->
        map entityId (@nil Circle)
        = present (entityLeft r) (posLeft r) ++ present (entityRight r) (posRight r))
    /\ Forall (fun c =>
                key c = entityId c
                /\ entityId c <> ""
                /\ (forall a, entityIdToAnimal r !! entityId c = Some a ->
                      animalName c = Animal a)
                /\ (entityIdToAnimal r !! entityId c = None ->
                    entityId c ∉ objectPrototype ->
                    animalName c = Animal ARScreen.gato)
                /\ screenPxRadius c = ANIMAL_SCREEN_RADIUS) []
    /\ (entityLeft r <> entityRight r -> NoDup (map key (@nil Circle)))).
  { intros Hmiss. split; [cbn; lia|]. split; [reflexivity|].
    split; [|split; [apply List.Forall_nil | intros _; cbn [map]; constructor]].
    intros [cv Hcv] Ht [cam Hcam].
    destruct Hmiss as [H|[H|H]]; congruence. }
  destruct canvas as [cv|]; [|apply Hnone; left; reflexivity].
  destruct three; [|apply Hnone; right; left; reflexivity].
  destruct camObj as [cam|]; [|apply Hnone; right; right; reflexivity].
  clear Hnone.
  unfold animalsToCheck, pushCircle, present. cbn [fold_left id pos slotColor].
  destruct r as [[il|] [ir|] [pl|] [pr|] m];
    cbn [entityLeft entityRight posLeft posRight entityIdToAnimal] in *.
  all: try (destruct (truthy (Some il)) eqn:Tl).
  all: try (destruct (truthy (Some ir)) eqn:Tr).
  all: cbn [negb app length map entityId key animalName screenPxRadius].
  all: split; [lia|].
  all: split; [intros [H|[H|H]]; discriminate|].
  all: split; [reflexivity|].
  all: split;
    [repeat (apply List.Forall_cons;
             [cbn [entityId key animalName screenPxRadius];
              split; [reflexivity|];
              split; [intros ->; discriminate|];
              split; [apply (circle_name {| entityLeft := None; entityRight := None;
                                             posLeft := None; posRight := None;
                                             entityIdToAnimal := m |})|];
              split; [apply (circle_name {| entityLeft := None; entityRight := None;
                                             posLeft := None; posRight := None;
                                             entityIdToAnimal := m |})
                     | reflexivity]
             |]);
     apply List.Forall_nil|].
  all: intros Hne; repeat (constructor; [rewrite list_elem_of_In; cbn [In]|]).
  all: try (intros [Heq|[]]; congruence).
  all: try (intros []).
  all: constructor.
Qed.

End Circles.

Lemma screen_circles_witness :
  map entityId
    (worldPositionsToScreenPositions unit (fun _ v => v) true halfRefs
       (Some sampleCanvas) (Some tt))
  = ["animal-1"]
  /\ worldPositionsToScreenPositions unit (fun _ v => v) false sampleRefs
       (Some sampleCanvas) (Some tt)
     = [].
Proof.
  destruct (screen_circles unit (fun _ v => v) true halfRefs
              (Some sampleCanvas) (Some tt)) as (_ & _ & Hids & _).
  destruct (screen_circles unit (fun _ v => v) false sampleRefs
              (Some sampleCanvas) (Some tt)) as (_ & Hnone & _).
  split.
  - apply Hids; [eexists; reflexivity | reflexivity | eexists; reflexivity].
  - apply Hnone. right. left. reflexivity.
Defined.

End CircleOverlayFacts.
(** * The entities in the scene are the ones the refs hold *)
Module ARScreenEntities.

Import ARScreen ARScreenFacts ARScreenFrame ARScreenSteps ARScreenInvariant
       ARScreenGame.

Lemma alive_app e1 e2 acc : alive (e1 ++ e2) acc = alive e2 (alive e1 acc).
Proof.
  revert acc. induction e1 as [|[] e1 IH]; intros acc; cbn [alive app];
    first [reflexivity | apply IH].
Qed.

Lemma keeps_refl s : keeps s s [].
Proof. unfold keeps. repeat split; try reflexivity. assumption. Qed.

Lemma keeps_trans s s1 s2 e1 e2 :
  keeps s s1 e1 -> keeps s1 s2 e2 -> keeps s s2 (e1 ++ e2).
Proof.
  intros (A1 & A2 & A3) (B1 & B2 & B3).
  split; [congruence|]. split; [congruence|].
  intros Han Hne. destruct (A3 Han Hne) as (Ha & Hne1).
  rewrite alive_app, Ha. apply B3; [congruence | exact Hne1].
Qed.

(** Removing the ids of a list from it leaves nothing. *)
Lemma alive_removes l acc :
  (forall i, In i acc -> In i l) ->
  alive (map RemoveEntity l) acc = [].
Proof.
  revert acc. induction l as [|i l IH]; intros acc Hsub; cbn [map alive].
  - destruct acc as [|j acc]; [reflexivity|]. destruct (Hsub j); left; reflexivity.
  - apply IH. intros j Hj. apply filter_In in Hj as [Hj Hne].
    destruct (Hsub j Hj) as [<-|Hin]; [|exact Hin].
    rewrite String.eqb_refl in Hne. discriminate.
Qed.

Lemma clearAnimals_keeps s : keeps s (clearAnimals s).1 (clearAnimals s).2.
Proof.
  destruct (clearAnimals_frame s) as (A & B & _).
  split; [exact A|]. split; [exact B|]. intros _ Hne.
  destruct (arScene (cfg s)) eqn:Hsc.
  - destruct (clearAnimals_refs s Hsc) as (C1 & C2 & _).
    { intros i Hi. rewrite List.Forall_forall in Hne. apply Hne, Hi. }
    rewrite clearAnimals_calls, cleared_referenced; [|exact Hsc|].
    + unfold referenced at 3 4. rewrite C1, C2. split; [|constructor].
      apply alive_removes. intros i Hi; exact Hi.
    + intros i Hi. rewrite List.Forall_forall in Hne. apply Hne, Hi.
  - open_screen s; cbn in Hsc; subst. unfold referenced in *. run_acts.
    rewrite !andb_false_r. cbn [app alive]. split; [reflexivity | exact Hne].
Qed.


Ltac keeps_leaf s :=
  first
    [ apply clearAnimals_keeps
    | open_screen s; unfold keeps, referenced; run_acts;
      split; [reflexivity|]; split; [reflexivity|];
      intros _ Hne; split; [reflexivity | exact Hne] ].

Ltac keep := intros; walk keeps_trans keeps_leaf.

Lemma handleAnimalClick_keeps clicked correct s :
  keeps s (handleAnimalClick clicked correct s).1
          (handleAnimalClick clicked correct s).2.
Proof. keep. Qed.

Lemma handleTouchStart_keeps p s :
  keeps s (handleTouchStart p s).1 (handleTouchStart p s).2.
Proof. keep. Qed.

Lemma desktopClick_keeps other s :
  keeps s (desktopClick other s).1 (desktopClick other s).2.
Proof. keep. Qed.

Lemma setupCamera_keeps c s : keeps s (setupCamera c s).1 (setupCamera c s).2.
Proof. keep. Qed.

Lemma afterRender_keeps before s :
  keeps s (afterRender before s).1 (afterRender before s).2.
Proof. keep. Qed.

Lemma handler_keeps key s : keeps s (handler key s).1 (handler key s).2.
Proof.
  unfold handler, skip.
  destruct (negb _ || negb _)%bool; [apply keeps_refl|].
  destruct (moved _); [|apply keeps_refl].
  open_screen s; unfold keeps, referenced; run_acts.
  split; [reflexivity|]. split; [reflexivity|]. intros _ Hne.
  destruct canUpdatePosition0, correctEntityId0; (split; [reflexivity | exact Hne]).
Qed.

(** Every name is the name of an entry of [ANIMALS]. *)
Lemma findAnimal_total s n :
  animals s = ANIMALS -> exists a, findAnimal s n = Some a.
Proof.
  intros Han. unfold findAnimal. rewrite Han.
  destruct n; eexists; reflexivity.
Qed.

Lemma emit_keeps (x : Effect) s :
  alive [x] (referenced s) = referenced s ->
  keeps s (emit x s).1 (emit x s).2.
Proof.
  intros Hx. unfold emit. cbn [fst snd]. repeat split; try assumption.
Qed.

Lemma spawnAnimals_keeps ready o c w s :
  leftId o <> "" -> rightId o <> "" ->
  keeps s (spawnAnimals ready o c w s).1 (spawnAnimals ready o c w s).2.
Proof.
  intros Hl Hr.
  destruct (negb (arScene (cfg s)) || negb ready)%bool eqn:Hguard.
  { unfold spawnAnimals. rewrite Hguard. apply emit_keeps. reflexivity. }
  apply orb_false_elim in Hguard as [Hsc Hready].
  apply negb_false_iff in Hsc, Hready. subst ready.
  destruct (sceneEl (cfg s)) eqn:Hel.
  - destruct (spawnAnimals_framed true o c w s) as (A & B & _).
    split; [exact A|]. split; [exact B|]. intros Han Hne.
    destruct (findAnimal_total s c Han) as [cc Hc].
    destruct (findAnimal_total s w Han) as [wc Hw].
    destruct (spawnAnimals_mounted s o c w cc wc Hsc Hel Hc Hw) as (He & Hrefs & _).
    rewrite He. unfold referenced at 2 3. rewrite Hrefs.
    cbn [left right option_list app].
    rewrite alive_app, cleared_referenced, alive_removes;
      [ | intros i Hi; exact Hi | exact Hsc
        | intros i Hi; rewrite List.Forall_forall in Hne; apply Hne, Hi ].
    split; [reflexivity|]. repeat constructor; assumption.
  - assert (Heq : spawnAnimals true o c w s
                  = (clearAnimals
                     >>> emit (Console Warn "[ARScreen] Scene element não encontrado")) s).
    { unfold spawnAnimals, andThen. rewrite Hsc. cbn [negb orb].
      destruct (clearAnimals_frame s) as (Cc & _). cbv zeta in Cc.
      rewrite Cc, Hel. reflexivity. }
    rewrite Heq. apply (rel_andThen _ keeps_trans); [apply clearAnimals_keeps|].
    intros s1. apply emit_keeps. reflexivity.
Qed.

Lemma spawnRound_keeps ready o r s :
  leftId o <> "" -> rightId o <> "" ->
  keeps s (spawnRound ready o r s).1 (spawnRound ready o r s).2.
Proof.
  intros Hl Hr. unfold spawnRound.
  destruct (index (animals s) r) as [a|]; [|apply emit_keeps; reflexivity].
  destruct (randomWrongAnimal o _) as [b|]; [|apply emit_keeps; reflexivity].
  apply spawnAnimals_keeps; assumption.
Qed.

Lemma runTask_keeps o t s :
  leftId o <> "" -> rightId o <> "" ->
  keeps s (runTask o t s).1 (runTask o t s).2.
Proof.
  intros Hl Hr. destruct t; unfold runTask, forceRender.
  - keep.
  - keep.
  - apply spawnRound_keeps; assumption.
  - keep.
  - destruct (closureRound =? 0); [|apply keeps_refl].
    unfold startRound. change (0 >=? TOTAL_ROUNDS) with false. cbv iota.
    apply spawnRound_keeps; assumption.
  - keep.
Qed.

(** Every step keeps the entities in the scene and the refs in step. *)
Lemma step_keeps ev s s' e :
  named ev -> step ev s = Some (s', e) -> keeps s s' e.
Proof.
  intros Hev. unfold step.
  destruct (dispatch ev s) as [h|] eqn:Hd; [|discriminate].
  intros [= <- <-].
  apply (rel_andThen _ keeps_trans); [|apply afterRender_keeps].
  destruct ev; cbn [dispatch] in Hd.
  - destruct (cameraPending s); [|discriminate]. injection Hd as <-.
    apply (rel_andThen _ keeps_trans); [|apply setupCamera_keeps].
    keeps_leaf s.
  - injection Hd as <-. keeps_leaf s.
  - destruct (_ && _)%bool; [|discriminate]. injection Hd as <-.
    apply handleTouchStart_keeps.
  - destruct (desktopShown s); [|discriminate]. injection Hd as <-.
    apply desktopClick_keeps.
  - destruct (keydownListener s); [|discriminate]. injection Hd as <-.
    apply handler_keeps.
  - destruct (canTick t s); [|discriminate]. injection Hd as <-.
    keeps_leaf s.
  - destruct (nth_error (timers s) k) as [[due task]|]; [|discriminate].
    destruct (canFire due s); [|discriminate]. injection Hd as <-.
    destruct Hev as [Hl Hr].
    apply (rel_andThen _ keeps_trans); [|intros; apply runTask_keeps; assumption].
    keeps_leaf s.
Qed.

Lemma deliver_keeps evs s s' e :
  Forall named evs -> deliver evs s = Some (s', e) -> keeps s s' e.
Proof.
  revert s s' e. induction evs as [|ev evs IH]; intros s s' e Hall; cbn [deliver].
  - intros [= <- <-]. apply keeps_refl.
  - destruct (step ev s) as [[s1 e1]|] eqn:Hs; [|discriminate].
    destruct (deliver evs s1) as [[s2 e2]|] eqn:Hd; [|discriminate].
    intros [= <- <-]. apply List.Forall_cons_iff in Hall as [Hev Hall].
    eapply keeps_trans; [apply (step_keeps _ _ _ _ Hev Hs) | apply IH; assumption].
Qed.

(** From the first render on, [ANIMALS] is as declared, the ids in the
    refs are not empty, and the entities in the scene are the ones the
    refs hold. *)
Lemma reached_entities c evs s e :
  Forall named evs -> deliver evs (initial c) = Some (s, e) ->
  animals s = ANIMALS
  /\ Forall (fun i => i <> "") (referenced s)
  /\ alive e [] = referenced s.
Proof.
  intros Hall Hd. destruct (deliver_keeps _ _ _ _ Hall Hd) as (_ & Ha & H).
  assert (Hinit : animals (initial c) = ANIMALS /\ referenced (initial c) = []).
  { destruct (initial_view c) as (_ & _ & Ha0 & Hr0 & _).
    split; [exact Ha0|]. unfold referenced. rewrite Hr0. reflexivity. }
  destruct Hinit as [Han Href]. rewrite Href in H.
  destruct (H Han ltac:(constructor)) as (Hal & Hne).
  split; [congruence|]. split; assumption.
Qed.

(** C6. The entities of a spawn can outlive their round.  At the end of
    round 3, on the desktop test images, a click 50 ms after the feedback
    ends comes before the spawn of round 4, whose timer no selection
    cancels: the selection finds the scene empty and clears nothing, the
    spawn then adds its two entities while the feedback is on, and when
    the feedback ends the round index is 5, no callback is pending and
    the two entities are still in the scene, with the refs still holding
    their ids. *)
Theorem entities_outlive_round :
  exists s0 e0 s1 e1 s2 e2,
    deliver hastyClick (initial desktop) = Some (s0, e0)
    /\ deliver lateSpawn s0 = Some (s1, e1)
    /\ deliver lastFeedback s1 = Some (s2, e2)
    /\ (currentRound (hooks s0) = 4 /\ isAnimating (hooks s0) = true
        /\ alive e0 [] = [])
    /\ (currentRound (hooks s1) = 4
        /\ alive (e0 ++ e1) [] = ["animal-3"; "animal-4"])
    /\ (currentRound (hooks s2) = 5 /\ isAnimating (hooks s2) = false
        /\ timers s2 = []
        /\ alive (e0 ++ e1 ++ e2) [] = ["animal-3"; "animal-4"]
        /\ referenced s2 = ["animal-3"; "animal-4"]).
Proof.
  eexists _, _, _, _, _, _.
  split; [vm_compute; reflexivity|].
  split; [vm_compute; reflexivity|].
  split; [vm_compute; reflexivity|].
  vm_compute. repeat split.
Qed.

End ARScreenEntities.
(** * Paths of the assets *)
Module ARScreenPaths.

Import ARScreen.

Lemma substring_all (s : string) : String.substring 0 (String.length s) s = s.
Proof. induction s as [|c s IH]; cbn; [reflexivity | rewrite IH; reflexivity]. Qed.

Lemma startsWith_slash p :
  startsWith "/" p = true -> p = ("/" ++ slice1 p)%string.
Proof.
  unfold startsWith. destruct p as [|c p]; cbn [String.prefix]; [discriminate|].
  destruct (Ascii.ascii_dec "/" c) as [<-|]; [|discriminate]. intros _.
  unfold slice1. cbn [String.length String.substring Nat.sub append].
  rewrite Nat.sub_0_r, substring_all. reflexivity.
Qed.

Lemma append_cons c (b t : string) :
  (String c b ++ t)%string = String c (b ++ t).
Proof. reflexivity. Qed.

Lemma length_snoc (b : string) :
  String.length (b ++ "/")%string = S (String.length b).
Proof.
  induction b as [|c b IH]; [reflexivity|].
  rewrite append_cons. cbn [String.length]. rewrite IH. reflexivity.
Qed.

Lemma substring_snoc_last (b : string) :
  String.substring (String.length b) 1 (b ++ "/")%string = "/"%string.
Proof.
  induction b as [|c b IH]; [reflexivity|].
  rewrite append_cons. cbn [String.length String.substring]. exact IH.
Qed.

Lemma substring_snoc_init (b : string) :
  String.substring 0 (String.length b) (b ++ "/")%string = b.
Proof.
  induction b as [|c b IH]; [reflexivity|].
  rewrite append_cons. cbn [String.length String.substring]. rewrite IH.
  reflexivity.
Qed.

Lemma endsWith_snoc b : endsWith "/" (b ++ "/")%string = true.
Proof.
  unfold endsWith. rewrite length_snoc. cbn [String.length].
  cbn [Nat.ltb Nat.leb]. replace (S (String.length b) - 1)%nat with (String.length b) by lia.
  rewrite substring_snoc_last. reflexivity.
Qed.

Lemma sliceInit_snoc b : sliceInit (b ++ "/")%string = b.
Proof.
  unfold sliceInit. rewrite length_snoc.
  replace (S (String.length b) - 1)%nat with (String.length b) by lia.
  apply substring_snoc_init.
Qed.

Lemma snoc_not_slash b : b <> ""%string -> String.eqb (b ++ "/")%string "/" = false.
Proof.
  intros Hb. apply String.eqb_neq. intros H.
  apply (f_equal String.length) in H. rewrite length_snoc in H. cbn in H.
  destruct b; [contradiction | discriminate].
Qed.

(** A base with or without its trailing slash gives the same [baseUrl]:
    the base without the slash. *)
Lemma getBaseUrl_trailing b :
  endsWith "/" b = false ->
  getBaseUrl b = b /\ getBaseUrl (b ++ "/")%string = b.
Proof.
  intros Hend. unfold getBaseUrl.
  destruct (String.eqb_spec b "") as [->|Hne]; [split; reflexivity|].
  assert (Hs : String.eqb b "/" = false).
  { destruct (String.eqb_spec b "/") as [->|]; [discriminate | reflexivity]. }
  split.
  - rewrite Hs, Hend. cbn [negb andb].
    rewrite (snoc_not_slash b Hne), endsWith_snoc. apply sliceInit_snoc.
  - rewrite (snoc_not_slash b Hne), endsWith_snoc. cbn [negb andb].
    destruct (String.eqb_spec (b ++ "/")%string "") as [E|_].
    + destruct b; discriminate.
    + cbn [negb andb]. rewrite (snoc_not_slash b Hne), endsWith_snoc.
      apply sliceInit_snoc.
Qed.

(** X1. The URL of an asset is the base, one slash, and the path,
    whether or not the base is given with a trailing slash and the path
    with a leading one. *)
Theorem asset_url_one_slash (s : Screen) (b p : string) :
  endsWith "/" b = false ->
  startsWith "/" p = false ->
  base (cfg s) = b \/ base (cfg s) = (b ++ "/")%string ->
  baseUrl s = b
  /\ normalizePath s p = (b ++ "/" ++ p)%string
  /\ normalizePath s ("/" ++ p) = (b ++ "/" ++ p)%string.
Proof.
  intros Hb Hp Hbase.
  assert (Hu : baseUrl s = b).
  { unfold baseUrl. destruct (getBaseUrl_trailing b Hb) as [H1 H2].
    destruct Hbase as [->| ->]; assumption. }
  split; [exact Hu|]. unfold normalizePath. rewrite Hu.
  assert (Hq : startsWith "/" ("/" ++ p) = true).
  { unfold startsWith. rewrite append_cons. cbn [String.prefix].
    destruct (Ascii.ascii_dec "/" "/") as [_|N]; [|contradiction].
    destruct (append "" p); reflexivity. }
  assert (Hc : slice1 ("/" ++ p) = p).
  { unfold slice1. rewrite append_cons. cbn [String.length String.substring Nat.sub append].
    rewrite Nat.sub_0_r. apply substring_all. }
  rewrite Hp, Hq, Hc.
  destruct (String.eqb_spec b "") as [->|_]; split; reflexivity.
Qed.

Lemma asset_url_one_slash_witness :
  normalizePath (blank hosted)
    "/assets/images/Gato.png"
  = "/jogo/assets/images/Gato.png"%string
  /\ normalizePath (playing 0) "assets/images/Gato.png"
     = "/assets/images/Gato.png"%string.
Proof.
  destruct (asset_url_one_slash
              (blank hosted)
              "/jogo" "assets/images/Gato.png")
    as (_ & _ & H1); [reflexivity | reflexivity | right; reflexivity |].
  destruct (asset_url_one_slash (playing 0) "" "assets/images/Gato.png")
    as (_ & H2 & _); [reflexivity | reflexivity | right; reflexivity |].
  split; [exact H1 | exact H2].
Defined.

End ARScreenPaths.
(** * The camera request and the loading overlay *)
Module ARScreenLoading.

Import ARScreen ARScreenFacts ARScreenFrame ARScreenSteps ARScreenInvariant.


















End ARScreenLoading.
(** * Selections that are processed and selections that are not *)
Module ARScreenSelections.

Import ARScreen ARScreenFacts ARScreenFrame ARScreenSteps ARScreenInvariant
       ARScreenRounds ARScreenGame.

Lemma reachable_animals c s : reachable c s -> animals s = ANIMALS.
Proof.
  intros [e Hrun]. destruct (run_framed _ _ _ Hrun) as (_ & -> & _).
  apply (initial_view c).
Qed.

Lemma afterOn_reachable c evs :
  deliver evs (initial c) <> None -> reachable c (afterOn c evs).
Proof.
  unfold afterOn. destruct (deliver evs (initial c)) as [[s e]|] eqn:H;
    [|congruence].
  intros _. exists e. apply (deliver_run evs), H.
Qed.

Lemma currentAnimal_playable s :
  animals s = ANIMALS -> 0 <= currentRound (hooks s) ->
  (currentRound (hooks s) <? TOTAL_ROUNDS) = true ->
  exists a, currentAnimal s = Some a.
Proof.
  intros Han H0 Hlt. apply Z.ltb_lt in Hlt. unfold TOTAL_ROUNDS in Hlt.
  unfold currentAnimal. rewrite Han.
  destruct (round_cases (currentRound (hooks s)) ltac:(lia)) as [H|[H|[H|[H|H]]]];
    rewrite H; eexists; reflexivity.
Qed.

Lemma normalizePath_nonempty s p : normalizePath s p <> ""%string.
Proof.
  unfold normalizePath.
  destruct (String.eqb_spec (baseUrl s) "") as [_|Hne].
  - destruct (startsWith "/" p) eqn:Hp; [|discriminate].
    destruct p; [discriminate | discriminate].
  - destruct (baseUrl s); [contradiction | discriminate].
Qed.

(** While a feedback is on, the desktop test images are not in the page. *)
Lemma busy_hides_desktop c s :
  reachable c s -> isAnimating (hooks s) = true -> desktopShown s = false.
Proof.
  intros Hreach Ha. pose proof (inv_reachable _ _ Hreach) as (_ & _ & Hflags).
  rewrite Ha in Hflags. destruct Hflags as (_ & Hsel & Hfb & _).
  destruct (selectedAnimal (hooks s)) as [a|] eqn:Es; [|contradiction].
  unfold desktopShown, feedbackShown. rewrite Es.
  rewrite andb_false_r. reflexivity.
Qed.

(** X3. On every screen the game reaches, [isAnimating], [selectedAnimal]
    and [feedbackType] are set together and cleared together.  While they
    are set the feedback overlay is in the page with its image, and the
    top image and the desktop test images are not; while they are clear
    there is no overlay, the top image is in the page exactly when the
    round index is below 5, and the test images exactly when the scene is
    ready and [usarVideo] is off. *)
Theorem feedback_flags_together c s :
  reachable c s ->
  (isAnimating (hooks s) = true ->
   (exists a f,
      selectedAnimal (hooks s) = Some a /\ feedbackType (hooks s) = Some f)
   /\ feedbackShown s = true /\ feedbackImage s <> ""%string
   /\ topImageShown s = false /\ desktopShown s = false)
  /\ (isAnimating (hooks s) = false ->
      selectedAnimal (hooks s) = None /\ feedbackType (hooks s) = None
      /\ feedbackShown s = false /\ feedbackImage s = ""%string
      /\ topImageShown s = (currentRound (hooks s) <? TOTAL_ROUNDS)
      /\ desktopShown s = sceneReady (hooks s) && negb (usarVideo (cfg s))).
Proof.
  intros Hreach. pose proof (inv_reachable _ _ Hreach) as (H0 & _ & Hflags).
  pose proof (reachable_animals _ _ Hreach) as Han.
  split; intros Ha; rewrite Ha in Hflags.
  - destruct Hflags as (_ & Hsel & Hfb & _).
    destruct (selectedAnimal (hooks s)) as [a|] eqn:Es; [|contradiction].
    destruct (feedbackType (hooks s)) as [f|] eqn:Ef; [|contradiction].
    split; [exists a, f; split; reflexivity|].
    unfold feedbackShown, feedbackImage, topImageShown, desktopShown, feedbackShown.
    rewrite Es, Ef. split; [reflexivity|].
    split; [destruct f; apply normalizePath_nonempty|].
    split; [destruct (currentAnimal s); reflexivity|].
    rewrite andb_false_r. reflexivity.
  - destruct Hflags as (Hsel & Hfb & _).
    unfold feedbackShown, feedbackImage, topImageShown, desktopShown,
      feedbackShown, desktopTestMode.
    rewrite Hsel, Hfb. repeat (split; [reflexivity|]). split.
    + destruct (currentRound (hooks s) <? TOTAL_ROUNDS) eqn:Hlt.
      * destruct (currentAnimal_playable s Han H0 Hlt) as [a ->]. reflexivity.
      * unfold currentAnimal. rewrite Hlt. reflexivity.
    + rewrite andb_true_r. reflexivity.
Qed.

Lemma feedback_flags_together_witness :
  feedbackShown (after (startUp ++ [TouchStart (Hit (Some gato))])) = true
  /\ topImageShown (after startUp) = true.
Proof.
  destruct (feedback_flags_together mounted
              (after (startUp ++ [TouchStart (Hit (Some gato))])))
    as ((_ & Hshown & _) & _);
    [apply after_reachable; vm_compute; discriminate | reflexivity |].
  destruct (feedback_flags_together mounted (after startUp))
    as (_ & (_ & _ & _ & _ & Htop & _));
    [apply after_reachable; vm_compute; discriminate | reflexivity |].
  split; [exact Hshown | rewrite Htop; reflexivity].
Defined.

(** X4. While a feedback is on, a selection changes nothing: a touch
    leaves the screen as it is and makes no call, the desktop test images
    are not there to be clicked, and [handleAnimalClick], reached any
    other way, only writes its log line. *)
Theorem selection_ignored_during_feedback c s :
  reachable c s ->
  isAnimating (hooks s) = true ->
  (forall p s' e, step (TouchStart p) s = Some (s', e) -> s' = s /\ e = [])
  /\ (forall other, step (DesktopClick other) s = None)
  /\ (forall a k,
        (handleAnimalClick a k s).1 = s
        /\ sounds (handleAnimalClick a k s).2 = []
        /\ removals (handleAnimalClick a k s).2 = []).
Proof.
  intros Hreach Hbusy.
  pose proof (busy_hides_desktop c s Hreach Hbusy) as Hdesk.
  split; [|split].
  - intros p s' e. unfold step. cbn [dispatch].
    destruct (_ && _)%bool; [|discriminate].
    unfold andThen, handleTouchStart. rewrite Hbusy. unfold skip. cbn [fst snd].
    rewrite afterRender_same by reflexivity.
    intros [= <- <-]. split; reflexivity.
  - intros other. unfold step. cbn [dispatch]. rewrite Hdesk. reflexivity.
  - intros a k. rewrite (handleAnimalClick_busy a k s Hbusy). repeat split.
Qed.

Lemma selection_ignored_during_feedback_witness :
  step (TouchStart (Hit (Some porco)))
       (after (startUp ++ [TouchStart (Hit (Some gato))]))
  = Some (after (startUp ++ [TouchStart (Hit (Some gato))]), []).
Proof.
  destruct (selection_ignored_during_feedback mounted
              (after (startUp ++ [TouchStart (Hit (Some gato))])))
    as (Htouch & _);
    [apply after_reachable; vm_compute; discriminate | reflexivity |].
  destruct (step (TouchStart (Hit (Some porco)))
              (after (startUp ++ [TouchStart (Hit (Some gato))])))
    as [[s' e]|] eqn:Hs; [|vm_compute in Hs; discriminate].
  destruct (Htouch _ _ _ Hs) as [-> ->]. reflexivity.
Defined.


Lemma rem_cases r : 0 <= r -> 
  Z.rem r 5 = 0 \/ Z.rem r 5 = 1 \/ Z.rem r 5 = 2 \/ Z.rem r 5 = 3 \/ Z.rem r 5 = 4.
Proof.
  intros Hr. pose proof (Z.rem_bound_pos r 5 Hr ltac:(lia)). lia.
Qed.

(** X5. In desktop test mode a click on a test image is always processed,
    at any round index: the first image shows the entry of [ANIMALS] at the
    index modulo 5 and a click on it is a success, the second shows the
    first of the other entries and a click on it is an error; the round
    index stays as it is until the feedback ends. *)
Theorem desktop_click_processed c s other :
  reachable c s ->
  desktopShown s = true ->
  exists curr oth s' e,
    index ANIMALS (Z.rem (currentRound (hooks s)) 5) = Some curr
    /\ index (wrongAnimals s (name curr)) 0 = Some oth
    /\ name oth <> name curr
    /\ step (DesktopClick other) s = Some (s', e)
    /\ isAnimating (hooks s') = true
    /\ selectedAnimal (hooks s') = Some (if other then name oth else name curr)
    /\ feedbackType (hooks s') = Some (if other then error else success)
    /\ sounds e = [ClickSound; if other then ErrorSound else SuccessSound]
    /\ currentRound (hooks s') = currentRound (hooks s).
Proof.
  intros Hreach Hshown.
  pose proof (inv_reachable _ _ Hreach) as (H0 & _ & _).
  pose proof (reachable_animals _ _ Hreach) as Han.
  assert (Hidle : isAnimating (hooks s) = false).
  { destruct (isAnimating (hooks s)) eqn:Ha; [|reflexivity].
    pose proof (busy_hides_desktop c s Hreach Ha). congruence. }
  assert (Hpick : exists curr oth,
            index ANIMALS (Z.rem (currentRound (hooks s)) 5) = Some curr
            /\ index (wrongAnimals s (name curr)) 0 = Some oth
            /\ name oth <> name curr).
  { unfold wrongAnimals. rewrite Han.
    destruct (rem_cases _ H0) as [H|[H|[H|[H|H]]]]; rewrite H;
      eexists _, _; (split; [reflexivity|]); (split; [reflexivity|]);
      discriminate. }
  destruct Hpick as (curr & oth & Hc & Ho & Hne).
  set (animal := if other then name oth else name curr).
  assert (Hclick : desktopClick other s
            = ((handleAnimalClick animal (name curr) s).1,
               preamble (ByDesktop other)
               ++ (handleAnimalClick animal (name curr) s).2)).
  { unfold desktopClick, handleDesktopAnimalClick, andThen, emit.
    rewrite Han. change (Z.of_nat (length ANIMALS)) with 5.
    rewrite Hc, Ho. reflexivity. }
  destruct (handleAnimalClick_idle animal (name curr) s Hidle)
    as (Hh & He & _).
  exists curr, oth.
  eexists _, _. split; [exact Hc|]. split; [exact Ho|]. split; [exact Hne|].
  split.
  { unfold step. cbn [dispatch]. rewrite Hshown. unfold andThen at 1.
    rewrite Hclick. cbn [fst snd].
    rewrite afterRender_same by (rewrite Hh; reflexivity).
    cbn [fst snd]. rewrite app_nil_r. reflexivity. }
  rewrite Hh. cbn [isAnimating selectedAnimal feedbackType currentRound].
  split; [reflexivity|]. split; [reflexivity|].
  split.
  { subst animal. destruct other.
    - rewrite bool_decide_eq_false_2 by exact Hne. reflexivity.
    - rewrite bool_decide_eq_true_2 by reflexivity. reflexivity. }
  split; [|reflexivity].
  rewrite sounds_app, He, !sounds_app.
  destruct (removes_only (cleared s)) as (-> & _). cbn [sounds app preamble].
  subst animal. destruct other.
  - rewrite bool_decide_eq_false_2 by exact Hne. reflexivity.
  - rewrite bool_decide_eq_true_2 by reflexivity. reflexivity.
Qed.


Lemma desktop_click_processed_witness :
  exists s' e,
    step (DesktopClick false) (afterOn desktop desktopGame) = Some (s', e)
    /\ currentRound (hooks s') = 5
    /\ selectedAnimal (hooks s') = Some gato
    /\ feedbackType (hooks s') = Some success.
Proof.
  destruct (desktop_click_processed desktop (afterOn desktop desktopGame) false)
    as (curr & oth & s' & e & Hc & _ & _ & Hstep & _ & Hsel & Hfb & _ & Hr);
    [apply afterOn_reachable; vm_compute; discriminate | reflexivity |].
  exists s', e. split; [exact Hstep|]. split; [rewrite Hr; reflexivity|].
  vm_compute in Hc. injection Hc as <-. split; assumption.
Defined.

(** X6. A touch changes nothing in the state, plays no sound and removes
    or adds no entity when a feedback is on, when the ray cast hits
    nothing, when the element hit has no [data-animal], and when the round
    index has reached 5. *)
Theorem touch_ignored s p :
  isAnimating (hooks s) = true \/ p = NoHit \/ p = Hit None
  \/ TOTAL_ROUNDS <= currentRound (hooks s) ->
  (handleTouchStart p s).1 = s
  /\ sounds (handleTouchStart p s).2 = []
  /\ removals (handleTouchStart p s).2 = []
  /\ additions (handleTouchStart p s).2 = []
  /\ (isAnimating (hooks s) = true \/ p = NoHit -> (handleTouchStart p s).2 = []).
Proof.
  intros Hcase. unfold handleTouchStart.
  destruct (isAnimating (hooks s)) eqn:Ha; [repeat split|].
  destruct p as [|[a|]]; [repeat split | |].
  - destruct Hcase as [H|[H|[H|H]]]; try discriminate.
    unfold andThen, emit, currentAnimal. cbn [fst snd].
    destruct (Z.ltb_spec (currentRound (hooks s)) TOTAL_ROUNDS); [lia|].
    repeat split. intros [H1|H1]; discriminate.
  - repeat split. intros [H1|H1]; discriminate.
Qed.

Lemma touch_ignored_witness :
  (handleTouchStart (Hit (Some gato)) (after fullGame)).1 = after fullGame
  /\ sounds (handleTouchStart (Hit (Some gato)) (after fullGame)).2 = [].
Proof.
  destruct (touch_ignored (after fullGame) (Hit (Some gato))) as (H1 & H2 & _).
  - right. right. right. vm_compute. discriminate.
  - split; assumption.
Defined.

End ARScreenSelections.
(** * The correct entity: where it is spawned and how the keys move it *)
Module ARScreenCorrect.

Import ARScreen ARScreenFacts ARScreenFrame ARScreenSteps.

(** X7. The spawn of a playable round on a mounted scene records as the
    correct entity the one that shows the round's animal: its id is in
    [correctEntityId], the position it was created at is in
    [correctEntityPos].  The fix-up scheduled 200 ms later writes the
    [data-animal] name an entity was created with to each of the two
    that [document.getElementById] still finds, adds and removes
    nothing, and changes nothing in the state. *)
Theorem spawn_marks_correct (s : Screen) (o o' : Oracle) (r : Z) :
  animals s = ANIMALS ->
  arScene (cfg s) = true -> sceneEl (cfg s) = true ->
  0 <= r < 5 ->
  (0 <= randomWrong o)%Q -> (randomWrong o < 1)%Q ->
  let s' := (spawnRound true o r s).1 in
  let e := (spawnRound true o r s).2 in
  exists correct la ra,
    index ANIMALS r = Some correct
    /\ additions e = [(la, leftId o); (ra, rightId o)]
    /\ (exists attrs id,
          In (attrs, id) (additions e)
          /\ correctEntityId (refs s') = Some id
          /\ data_animal attrs = name correct
          /\ position attrs = correctEntityPos (refs s')
          /\ material attrs
             = ("src: " ++ normalizePath s ("assets/images/" ++ arImage correct)
                ++ "; transparent: true; side: double")%string)
    /\ data_animal la <> data_animal ra
    /\ timers s'
       = timers s
         ++ [(now s + 200,
              Refresh (leftId o) (rightId o) (data_animal la) (data_animal ra))]
    /\ (let late :=
          runTask o' (Refresh (leftId o) (rightId o) (data_animal la) (data_animal ra))
                  s' in
        late.1 = s'
        /\ dataWrites late.2
           = (if foundLeft o' then [(leftId o, data_animal la)] else [])
             ++ (if foundRight o' then [(rightId o, data_animal ra)] else [])
        /\ additions late.2 = [] /\ removals late.2 = []).
Proof.
  intros Han Hsc Hel Hr H0 H1.
  destruct (spawnRound_playable s o r Han Hr H0 H1)
    as (correct & wrong & Hidx & _ & Hne & Hfc & Hfw & Hsp).
  destruct (spawnAnimals_mounted s o _ _ _ _ Hsc Hel Hfc Hfw)
    as (He & Hrefs & _ & _ & _ & _ & Ht & _).
  cbv zeta. rewrite Hsp.
  set (s' := (spawnAnimals true o (name correct) (name wrong) s).1) in *.
  cbv zeta in He, Hrefs, Ht.
  exists correct.
  exists (entityAttrs s (if correctOnLeft o then correct else wrong) leftPos).
  exists (entityAttrs s (if correctOnLeft o then wrong else correct) rightPos).
  split; [exact Hidx|].
  assert (Hadd : additions (spawnAnimals true o (name correct) (name wrong) s).2
                 = [(entityAttrs s (if correctOnLeft o then correct else wrong) leftPos, leftId o);
                    (entityAttrs s (if correctOnLeft o then wrong else correct) rightPos, rightId o)]).
  { rewrite He, additions_app.
    destruct (removes_only (cleared s)) as (_ & -> & _). reflexivity. }
  split; [exact Hadd|]. split.
  { rewrite Hadd, Hrefs. cbn [correctEntityId correctEntityPos].
    destruct (correctOnLeft o).
    - eexists _, _. split; [left; reflexivity|]. repeat split.
    - eexists _, _. split; [right; left; reflexivity|]. repeat split. }
  split.
  { cbn [entityAttrs data_animal]. destruct (correctOnLeft o); congruence. }
  split.
  { rewrite Ht. destruct (correctOnLeft o); reflexivity. }
  unfold runTask, forceRender.
  destruct s' as [? ? [? ? ? ? ? ? ?] [? ? ? ?] ? ? ? ?].
  destruct (foundLeft o'), (foundRight o'), (hasRenderer o'), (hasCamera o');
    repeat split.
Qed.

Lemma spawn_marks_correct_witness :
  correctEntityId (refs (spawnRound true sampleOracle 2 (playing 2)).1)
  = Some "animal-3"%string
  /\ map (fun x => data_animal x.1)
         (additions (spawnRound true sampleOracle 2 (playing 2)).2)
     = [galinha; porco].
Proof.
  destruct (spawn_marks_correct (playing 2) sampleOracle lowOracle 2)
    as (correct & la & ra & Hidx & Hadd & _);
    [ reflexivity | reflexivity | reflexivity | lia
    | vm_compute; discriminate | reflexivity | ].
  split; [reflexivity|]. rewrite Hadd. vm_compute in Hadd.
  injection Hadd as <- <-. reflexivity.
Defined.

Lemma moved_recognized key m :
  moved m = false -> moved (moveKeys key m) = recognized key.
Proof.
  intros Hm. unfold moveKeys, keyStep, recognized.
  destruct (String.eqb (toLowerCase key) "w"),
           (String.eqb (toLowerCase key) "s"),
           (String.eqb (toLowerCase key) "a"),
           (String.eqb (toLowerCase key) "d"),
           (String.eqb key "ArrowUp"),
           (String.eqb key "ArrowDown"); cbn; first [exact Hm | reflexivity].
Qed.

(** X8. The [keydown] handler does nothing at all when no correct entity
    is recorded (as after a selection) or the scene ref is null.
    Otherwise a recognised key stores the new position and, when the
    scene ref has an [updateEntityPosition] method, makes exactly one
    call of it, for the correct entity and with the position stored;
    without the method it makes no call.  Any other key makes none and
    leaves the screen as it is; the refs of the two entities, the state
    and the timers are left as they are in every case. *)
Theorem keys_reach_scene (s : Screen) (key : string) :
  (truthy (correctEntityId (refs s)) = false \/ arScene (cfg s) = false ->
   handler key s = (s, []))
  /\ (truthy (correctEntityId (refs s)) = true -> arScene (cfg s) = true ->
      exists id,
        correctEntityId (refs s) = Some id
        /\ (handler key s).2
           = (if recognized key && canUpdatePosition (cfg s)
              then [UpdateEntityPosition id (movedTo key s)] else [])
        /\ correctEntityId (refs (handler key s).1) = Some id
        /\ left (refs (handler key s).1) = left (refs s)
        /\ right (refs (handler key s).1) = right (refs s)
        /\ hooks (handler key s).1 = hooks s
        /\ timers (handler key s).1 = timers s
        /\ (recognized key = false -> (handler key s).1 = s)).
Proof.
  split.
  - intros Hguard. unfold handler.
    destruct Hguard as [-> | ->]; cbn [negb orb]; rewrite ?orb_true_r; reflexivity.
  - intros Hid Hsc.
    destruct (correctEntityId (refs s)) as [id|] eqn:Eid; [|discriminate].
    exists id. split; [reflexivity|].
    unfold movedTo, handler. rewrite Eid.
    change (truthy (Some id)) with (truthy (Some id)). rewrite Hid, Hsc.
    cbn [negb orb].
    rewrite moved_recognized by reflexivity.
    destruct (recognized key); open_screen s; cbn in Eid; subst;
      cbn [cfg canUpdatePosition]; destruct canUpdatePosition0;
      repeat split; intros; first [discriminate | reflexivity].
Qed.

Lemma keys_reach_scene_witness :
  (handler "d" (playing 0)).2
  = [UpdateEntityPosition "animal-1"
       {| x := (-1.5 + 0.2)%float; y := 0%float; z := (-6)%float |}]
  /\ handler "d" (clearAnimals (playing 0)).1 = ((clearAnimals (playing 0)).1, []).
Proof.
  destruct (keys_reach_scene (playing 0) "d") as (_ & Hmove).
  destruct (keys_reach_scene (clearAnimals (playing 0)).1 "d") as (Hnone & _).
  split.
  - destruct Hmove as (id & Hid & He & _); [reflexivity | reflexivity |].
    rewrite He. injection Hid as <-. reflexivity.
  - apply Hnone. left. reflexivity.
Defined.

End ARScreenCorrect.
(** * The pace of the rounds *)
Module ARScreenPace.

Import ARScreen ARScreenFacts ARScreenFrame ARScreenSteps ARScreenInvariant
       ARScreenRounds ARScreenGame.

Lemma paced_step b ev s s' e :
  Inv s -> paced b s -> step ev s = Some (s', e) -> paced b s'.
Proof.
  intros Hinv (P0 & P1) Hstep.
  destruct (step_framed _ _ _ _ Hstep) as (_ & _ & _ & Hnow & _).
  destruct (isAnimating (hooks s)) eqn:Ha.
  - pose proof Hinv as (_ & _ & I2). rewrite Ha in I2.
    destruct I2 as (_ & Hsel & Hfb & d & Hd).
    destruct (selectedAnimal (hooks s)) as [a|] eqn:Es; [|contradiction].
    destruct (feedbackType (hooks s)) as [f|] eqn:Ef; [|contradiction].
    assert (Hshow : showing d a f (currentRound (hooks s)) s)
      by (repeat split; assumption).
    destruct (P1 d eq_refl Hd) as (B1 & B2).
    destruct (showing_step _ _ _ _ _ _ _ _ Hinv Hshow Hstep)
      as [(Sa & _ & _ & Sr & Sd)|((En & Ea & _ & _ & Er & _) & Hat & _)].
    + split; [congruence|]. intros d' _ Hd'. rewrite Sd in Hd'.
      injection Hd' as <-. rewrite Sr. lia.
    + split; [|congruence]. intros _. rewrite Er, En. lia.
  - specialize (P0 eq_refl).
    destruct (isAnimating (hooks s')) eqn:Ha'.
    + destruct (select_shows _ _ _ _ Hinv Ha Hstep Ha')
        as (a & f & (_ & _ & _ & Sr & Sd) & Sn & _).
      split; [congruence|]. intros d' _ Hd'. rewrite Sd in Hd'.
      injection Hd' as <-. rewrite Sr, Sn. lia.
    + split; [|congruence]. intros _.
      destruct (round_step _ _ _ _ Hinv Hstep) as [->|(_ & H & _)];
        [lia | congruence].
Qed.

Lemma paced_run b s e s' : run s e s' -> Inv s -> paced b s -> paced b s'.
Proof.
  induction 1 as [s | s ev s1 e1 e2 s2 Hstep _ IH]; intros Hinv Hp;
    [exact Hp|].
  apply IH; [apply (inv_step _ _ _ _ Hstep Hinv) | eapply paced_step; eassumption].
Qed.

Lemma paced_initial c : paced 0 (initial c).
Proof.
  destruct (initial_view c) as (Hh & _ & _ & _ & Hn & _).
  unfold paced. rewrite Hh, Hn. cbn [isAnimating currentRound].
  split; intros; first [lia | discriminate].
Qed.

(** A paced screen is at a round index that its clock allows for. *)
Lemma paced_round b s : Inv s -> paced b s -> 2000 * currentRound (hooks s) <= now s + b.
Proof.
  intros (_ & _ & I2) (P0 & P1).
  destruct (isAnimating (hooks s)); [|apply P0; reflexivity].
  destruct I2 as (_ & _ & _ & d & Hd). destruct (P1 d eq_refl Hd). lia.
Qed.

(** X9. The rounds cannot be rushed: the round index [r] is not reached
    before 2000 r ms have passed since the screen was mounted, and from
    any screen of a run on, [k] more advances of the index take at least
    2000 (k - 1) ms. *)
Theorem rounds_take_time c s e s' :
  reachable c s -> run s e s' ->
  2000 * currentRound (hooks s) <= now s
  /\ 2000 * currentRound (hooks s') <= now s'
  /\ 2000 * (currentRound (hooks s') - currentRound (hooks s) - 1)
     <= now s' - now s.
Proof.
  intros Hreach Hrun.
  pose proof (inv_reachable _ _ Hreach) as Hinv.
  pose proof (inv_run _ _ _ Hrun Hinv) as Hinv'.
  assert (Hp : paced 0 s).
  { destruct Hreach as [e0 H0].
    apply (paced_run 0 _ _ _ H0 (inv_initial c) (paced_initial c)). }
  pose proof (paced_round 0 s Hinv Hp) as H1.
  pose proof (paced_round 0 s' Hinv' (paced_run 0 _ _ _ Hrun Hinv Hp)) as H2.
  split; [lia|]. split; [lia|].
  set (b := 2000 * currentRound (hooks s) + 2000 - now s).
  assert (Hb : paced b s).
  { destruct Hp as (P0 & P1). split.
    - intros _. subst b. lia.
    - intros d Ha Hd. destruct (P1 d Ha Hd) as (_ & B2). split; [|exact B2].
      subst b. lia. }
  pose proof (paced_round b s' Hinv' (paced_run b _ _ _ Hrun Hinv Hb)) as H3.
  subst b. lia.
Qed.

Lemma rounds_take_time_witness :
  2000 * currentRound (hooks (after fullGame)) <= now (after fullGame)
  /\ currentRound (hooks (after fullGame)) = 5.
Proof.
  destruct (rounds_take_time mounted (initial mounted) (calls fullGame)
              (after fullGame)) as (_ & H & _).
  - exists []. constructor.
  - apply (deliver_run fullGame). vm_compute. reflexivity.
  - split; [exact H | reflexivity].
Defined.

End ARScreenPace.
(** * What a run spawns *)
Module ARScreenSpawns.

Import ARScreen ARScreenFacts ARScreenFrame ARScreenSteps ARScreenInvariant
       ARScreenRounds ARScreenGame.

Lemma addsNone_refl s : addsNone s s [].
Proof. reflexivity. Qed.

Lemma addsNone_trans s s1 s2 e1 e2 :
  addsNone s s1 e1 -> addsNone s1 s2 e2 -> addsNone s s2 (e1 ++ e2).
Proof. unfold addsNone. intros A B. rewrite additions_app, A, B. reflexivity. Qed.

Lemma clearAnimals_addsNone s : addsNone s (clearAnimals s).1 (clearAnimals s).2.
Proof.
  unfold addsNone. rewrite clearAnimals_calls.
  destruct (removes_only (cleared s)) as (_ & H & _). exact H.
Qed.

Ltac addsNone_leaf s :=
  first
    [ apply clearAnimals_addsNone
    | open_screen s; unfold addsNone; run_acts; reflexivity ].

Ltac bare := intros; walk addsNone_trans addsNone_leaf.

Lemma handleTouchStart_addsNone p s :
  addsNone s (handleTouchStart p s).1 (handleTouchStart p s).2.
Proof. bare. Qed.

Lemma desktopClick_addsNone other s :
  addsNone s (desktopClick other s).1 (desktopClick other s).2.
Proof. bare. Qed.

Lemma setupCamera_addsNone c s :
  addsNone s (setupCamera c s).1 (setupCamera c s).2.
Proof. bare. Qed.

Lemma afterRender_addsNone before s :
  addsNone s (afterRender before s).1 (afterRender before s).2.
Proof. bare. Qed.

Lemma handler_addsNone key s : addsNone s (handler key s).1 (handler key s).2.
Proof. apply handler_silent. Qed.

(** The entries of [ANIMALS] are found by their names. *)
Lemma findAnimal_named s n :
  animals s = ANIMALS -> exists a, findAnimal s n = Some a /\ name a = n.
Proof.
  intros Han. unfold findAnimal. rewrite Han.
  destruct n; eexists; split; reflexivity.
Qed.

(** A spawn adds nothing or its two entities. *)
Lemma spawnAnimals_adds ready o c w s :
  animals s = ANIMALS ->
  additions (spawnAnimals ready o c w s).2 = []
  \/ exists la ra,
       additions (spawnAnimals ready o c w s).2 = [(la, leftId o); (ra, rightId o)]
       /\ position la = leftPos /\ position ra = rightPos
       /\ ((data_animal la = c /\ data_animal ra = w)
           \/ (data_animal la = w /\ data_animal ra = c)).
Proof.
  intros Han.
  destruct (negb (arScene (cfg s)) || negb ready)%bool eqn:Hguard.
  { left. unfold spawnAnimals. rewrite Hguard. reflexivity. }
  apply orb_false_elim in Hguard as [Hsc Hready].
  apply negb_false_iff in Hsc, Hready. subst ready.
  destruct (sceneEl (cfg s)) eqn:Hel.
  - right.
    destruct (findAnimal_named s c Han) as (cc & Hc & Nc).
    destruct (findAnimal_named s w Han) as (wc & Hw & Nw).
    destruct (spawnAnimals_mounted s o c w cc wc Hsc Hel Hc Hw) as (He & _).
    rewrite He, additions_app.
    destruct (removes_only (cleared s)) as (_ & -> & _).
    eexists _, _. split; [reflexivity|]. split; [reflexivity|].
    split; [reflexivity|].
    cbn [entityAttrs data_animal]. destruct (correctOnLeft o); [left | right];
      split; assumption.
  - left. unfold spawnAnimals, andThen. rewrite Hsc. cbn [negb orb].
    destruct (clearAnimals_frame s) as (Cc & _). cbv zeta in Cc.
    rewrite Cc, Hel. cbn [negb fst snd emit]. rewrite additions_app.
    rewrite (clearAnimals_addsNone s). reflexivity.
Qed.

Lemma wrong_differs s n k w :
  index (wrongAnimals s n) k = Some w -> name w <> n.
Proof.
  unfold index. destruct (k <? 0); [discriminate|]. intros H.
  apply nth_error_In in H. unfold wrongAnimals in H.
  apply filter_In in H as [_ H]. intros E.
  rewrite bool_decide_eq_true_2 in H by exact E. discriminate.
Qed.

(** The spawn of round [n], when it adds entities, adds the one of the
    entry [n] of [ANIMALS] and one of another animal. *)
Lemma spawnRound_adds ready o n s :
  animals s = ANIMALS ->
  additions (spawnRound ready o n s).2 = []
  \/ exists cur la ra,
       index ANIMALS n = Some cur
       /\ additions (spawnRound ready o n s).2 = [(la, leftId o); (ra, rightId o)]
       /\ position la = leftPos /\ position ra = rightPos
       /\ ((data_animal la = name cur /\ data_animal ra <> name cur)
           \/ (data_animal ra = name cur /\ data_animal la <> name cur)).
Proof.
  intros Han. unfold spawnRound. rewrite Han.
  destruct (index ANIMALS n) as [cur|] eqn:Hidx; [|left; reflexivity].
  destruct (randomWrongAnimal o (wrongAnimals s (name cur))) as [w|] eqn:Hw;
    [|left; reflexivity].
  pose proof (wrong_differs _ _ _ _ Hw) as Hne.
  destruct (spawnAnimals_adds ready o (name cur) (name w) s Han)
    as [H|(la & ra & Hadd & Pl & Pr & Hnames)]; [left; exact H|].
  right. exists cur, la, ra. split; [reflexivity|]. split; [exact Hadd|].
  split; [exact Pl|]. split; [exact Pr|].
  destruct Hnames as [(-> & ->)|(-> & ->)]; [left | right]; split;
    first [reflexivity | exact Hne].
Qed.


(** The callbacks that are not spawns add nothing. *)
Lemma runTask_other_addsNone o t s :
  match t with SpawnNext _ _ | StartFirst _ _ => False | _ => True end ->
  addsNone s (runTask o t s).1 (runTask o t s).2.
Proof.
  destruct t; intros Ht; try contradiction; unfold runTask, forceRender; bare.
Qed.

(** X10. A step of a run either adds no entity or is a spawn: it adds
    two entities, at [leftPos] and [rightPos], one showing the animal of
    a round index [n] and the other another animal, and leaves the round
    index as it is.  The spawn that follows the end of a feedback is for
    the current round index.  The spawn of the start-up is for round 0:
    it runs at round index 0, or, when its callback runs late, at round
    index 1, where the scene then shows the animal of round 0.  On a
    punctual page every spawn is for the current round index. *)
Theorem spawn_shows_round_animal c s ev s' e :
  reachable c s ->
  step ev s = Some (s', e) ->
  additions e = []
  \/ exists n shown la ra il ir,
       index ANIMALS n = Some shown
       /\ currentRound (hooks s') = currentRound (hooks s)
       /\ (n = currentRound (hooks s)
           \/ (n = 0 /\ currentRound (hooks s) = 1
               /\ exists k o due rdy, ev = Fire k o
                    /\ nth_error (timers s) k = Some (due, StartFirst 0 rdy)))
       /\ (n = currentRound (hooks s) -> currentAnimal s' = Some shown)
       /\ (punctual c = true -> n = currentRound (hooks s))
       /\ additions e = [(la, il); (ra, ir)]
       /\ position la = leftPos /\ position ra = rightPos
       /\ ((data_animal la = name shown /\ data_animal ra <> name shown)
           \/ (data_animal ra = name shown /\ data_animal la <> name shown)).
Proof.
  intros Hreach Hstep.
  pose proof (inv_reachable _ _ Hreach) as Hinv.
  pose proof (ARScreenSelections.reachable_animals _ _ Hreach) as Han.
  pose proof (reachable_cfg _ _ Hreach) as Hcfg.
  revert Hstep. unfold step.
  destruct (dispatch ev s) as [h|] eqn:Hd; [|discriminate].
  intros [= <- <-].
  assert (Hplain : addsNone s (h s).1 (h s).2 ->
            additions ((h >>> afterRender s) s).2 = []).
  { intros H. apply (rel_andThen _ addsNone_trans h (afterRender s) s H).
    intros s1. apply afterRender_addsNone. }
  destruct ev; cbn [dispatch] in Hd.
  - destruct (cameraPending s); [|discriminate]. injection Hd as <-.
    left. apply Hplain. bare.
  - injection Hd as <-. left. apply Hplain. addsNone_leaf s.
  - destruct (_ && _)%bool; [|discriminate]. injection Hd as <-.
    left. apply Hplain, handleTouchStart_addsNone.
  - destruct (desktopShown s); [|discriminate]. injection Hd as <-.
    left. apply Hplain, desktopClick_addsNone.
  - destruct (keydownListener s); [|discriminate]. injection Hd as <-.
    left. apply Hplain, handler_addsNone.
  - destruct (canTick t s); [|discriminate]. injection Hd as <-.
    left. apply Hplain. addsNone_leaf s.
  - destruct (nth_error (timers s) k) as [[due task]|] eqn:Hk; [|discriminate].
    destruct (canFire due s); [|discriminate]. injection Hd as <-.
    set (s0 := withTimers (removeNth k (timers s)) s).
    assert (Hs0 : animals s0 = ANIMALS /\ hooks s0 = hooks s)
      by (subst s0; open_screen s; split; [exact Han | reflexivity]).
    destruct Hs0 as (Han0 & Hh0).
    assert (Hin : In (due, task) (timers s)) by (eapply nth_error_In; exact Hk).
    assert (Hok : timerOk s (due, task)).
    { destruct Hinv as (_ & I1 & _). rewrite List.Forall_forall in I1.
      apply I1, Hin. }
    assert (Hspawn : forall rdy n,
              (n = currentRound (hooks s)
               \/ (n = 0 /\ currentRound (hooks s) = 1
                   /\ task = StartFirst 0 rdy)) ->
              n < TOTAL_ROUNDS ->
              (punctual c = true -> n = currentRound (hooks s)) ->
              runTask o task s0 = spawnRound rdy o n s0 ->
              let r := (((fun s => (withTimers (removeNth k (timers s)) s, []))
                         >>> runTask o task >>> afterRender s) s) in
              additions r.2 = []
              \/ exists n shown la ra il ir,
                   index ANIMALS n = Some shown
                   /\ currentRound (hooks r.1) = currentRound (hooks s)
                   /\ (n = currentRound (hooks s)
                       \/ (n = 0 /\ currentRound (hooks s) = 1
                           /\ exists k0 o0 due0 rdy0, Fire k o = Fire k0 o0
                                /\ nth_error (timers s) k0
                                   = Some (due0, StartFirst 0 rdy0)))
                   /\ (n = currentRound (hooks s) -> currentAnimal r.1 = Some shown)
                   /\ (punctual c = true -> n = currentRound (hooks s))
                   /\ additions r.2 = [(la, il); (ra, ir)]
                   /\ position la = leftPos /\ position ra = rightPos
                   /\ ((data_animal la = name shown /\ data_animal ra <> name shown)
                       \/ (data_animal ra = name shown /\ data_animal la <> name shown))).
    { intros rdy n Hn Hlt Hpun Hrun r. subst r.
      unfold andThen. cbn [fst snd]. fold s0. rewrite Hrun.
      destruct (spawnRound_quiet rdy o n s0) as (Hg & _).
      destruct (gameOf_fields _ _ Hg) as (Gr & Gs & _).
      set (s1 := (spawnRound rdy o n s0).1) in *.
      rewrite afterRender_same by (rewrite ?Gr, ?Gs, Hh0; reflexivity).
      cbn [fst snd app]. rewrite app_nil_r.
      destruct (spawnRound_adds rdy o n s0 Han0)
        as [H|(cur & la & ra & Hidx & Hadd & Pl & Pr & Hnames)];
        [left; exact H|].
      right. exists n, cur, la, ra, (leftId o), (rightId o).
      split; [exact Hidx|].
      split; [rewrite Gr, Hh0; reflexivity|].
      split.
      { destruct Hn as [Hn|(Hn & Hr1 & Htask)]; [left; exact Hn|].
        right. split; [exact Hn|]. split; [exact Hr1|].
        exists k, o, due, rdy. split; [reflexivity|]. rewrite Hk, Htask.
        reflexivity. }
      split.
      { intros Hcur. unfold currentAnimal. rewrite Gr, Hh0, <- Hcur.
        destruct (Z.ltb_spec n TOTAL_ROUNDS); [|lia].
        destruct (spawnRound_framed rdy o n s0) as (_ & Ha1 & _).
        fold s1 in Ha1. rewrite Ha1, Han0. exact Hidx. }
      split; [exact Hpun|].
      repeat (split; [assumption|]). exact Hnames. }
    destruct task as [v|rdy|n rdy|cr rdy|cr rdy|l r ln rn].
    1, 2, 4, 6: left; apply Hplain;
      apply (rel_andThen _ addsNone_trans); [addsNone_leaf s|];
      intros; apply runTask_other_addsNone; exact I.
    + destruct Hok as (Hn & Hlt & _). cbn [snd] in Hn, Hlt.
      apply (Hspawn rdy n); [left; exact Hn | exact Hlt | intros _; exact Hn
                            | reflexivity].
    + destruct (Z.eqb_spec cr 0) as [->|Hne].
      * destruct (Hok eq_refl) as (_ & Hr0).
        apply (Hspawn rdy 0).
        -- destruct Hr0 as [Hr0|(Hr1 & _)];
             [left; symmetry; exact Hr0
             | right; split; [reflexivity | split; [exact Hr1 | reflexivity]]].
        -- reflexivity.
        -- intros Hp. destruct (prompt_reachable _ _ Hp Hreach) as (_ & Hst).
           rewrite List.Forall_forall in Hst.
           destruct (Hst _ Hin eq_refl) as (Hr & _). symmetry. exact Hr.
        -- reflexivity.
      * left. apply Hplain.
        apply (rel_andThen _ addsNone_trans); [addsNone_leaf s|].
        intros s1. unfold runTask.
        destruct (Z.eqb_spec cr 0); [contradiction | apply addsNone_refl].
Qed.

Lemma spawn_shows_round_animal_witness :
  exists s' e la ra il ir,
    step (Fire 0 sampleOracle) (afterOn sluggish lateStart) = Some (s', e)
    /\ currentRound (hooks s') = 1
    /\ additions e = [(la, il); (ra, ir)]
    /\ position la = leftPos /\ position ra = rightPos.
Proof.
  assert (Hlen : match step (Fire 0 sampleOracle) (afterOn sluggish lateStart) with
                 | Some (_, e) => length (additions e)
                 | None => 0%nat
                 end = 2%nat) by (vm_compute; reflexivity).
  assert (Hround : currentRound (hooks (afterOn sluggish lateStart)) = 1)
    by (vm_compute; reflexivity).
  destruct (step (Fire 0 sampleOracle) (afterOn sluggish lateStart))
    as [[s' e]|] eqn:Hs; [|discriminate].
  assert (Hr : reachable sluggish (afterOn sluggish lateStart))
    by (apply ARScreenSelections.afterOn_reachable; vm_compute; discriminate).
  destruct (spawn_shows_round_animal sluggish _ _ _ _ Hr Hs)
    as [Hnone|(n & shown & la & ra & il & ir & _ & Hsame & _ & _ & _ & Hadd & Pl & Pr & _)].
  - rewrite Hnone in Hlen. discriminate.
  - exists s', e, la, ra, il, ir.
    split; [reflexivity|]. split; [rewrite Hsame; exact Hround|].
    repeat split; assumption.
Defined.

End ARScreenSpawns.
(** * The overlay between spawns, clears and key presses *)
Module CircleOverlaySpawn.

Import CircleOverlay.

Lemma findAnimal_name n :
  exists a, findAnimal n = Some a /\ ARScreen.name a = n.
Proof.
  destruct n; eexists; (split; [reflexivity|reflexivity]).
Qed.

Lemma clearAnimals_added st : added (clearAnimals st).2 = [].
Proof.
  unfold clearAnimals, added. cbn [snd].
  destruct (entityLeft (refs st)), (entityRight (refs st)); cbn;
    repeat match goal with
           | |- context [if ?b then _ else _] => destruct b; cbn
           end; reflexivity.
Qed.

(** The refs after a spawn in a scene that is ready. *)
Lemma spawnAnimals_ready st o c w :
  arScene st = true -> sceneEl st = true ->
  let onLeft := ARScreen.correctOnLeft o in
  let l := ARScreen.leftId o in
  let r := ARScreen.rightId o in
  exists la ra,
    ARScreen.name la = (if onLeft then c else w)
    /\ ARScreen.name ra = (if onLeft then w else c)
    /\ (spawnAnimals true o c w st).1
       = withRefs {| entityLeft := Some l; entityRight := Some r;
                     posLeft := Some leftPos; posRight := Some rightPos;
                     entityIdToAnimal :=
                       <[ r := ARScreen.name ra ]> {[ l := ARScreen.name la ]} |}
                  (Some (if onLeft then l else r))
                  (if onLeft then leftPos else rightPos) st
    /\ (spawnAnimals true o c w st).2
       = (clearAnimals st).2
         ++ [ShowScene; AddEntity (entityAttrs st la leftPos) l;
             AddEntity (entityAttrs st ra rightPos) r;
             SetTimeout 200 (ARScreen.Refresh l r (ARScreen.name la) (ARScreen.name ra))].
Proof.
  intros Ha Hs onLeft l r.
  destruct (findAnimal_name c) as (ca & Hc & Hcn).
  destruct (findAnimal_name w) as (wa & Hw & Hwn).
  exists (if onLeft then ca else wa), (if onLeft then wa else ca).
  split; [destruct onLeft; assumption|].
  split; [destruct onLeft; assumption|].
  unfold spawnAnimals. rewrite Ha. cbn [negb orb].
  unfold andThen, emit. cbn [fst snd].
  replace (sceneEl (clearAnimals st).1) with true
    by (unfold clearAnimals, withRefs; cbn; congruence).
  cbn [negb]. rewrite Hc, Hw. fold onLeft l r.
  destruct onLeft; cbn [fst snd]; (split; [reflexivity|]);
    rewrite ?app_nil_r, <- ?app_assoc; reflexivity.
Qed.


Lemma clearAnimals_removed_again st :
  removed (clearAnimals (clearAnimals st).1).2 = [].
Proof.
  unfold clearAnimals, removed, withRefs.
  cbn [fst snd refs arScene sceneEl entityLeft entityRight].
  assert (Hside : forall i : option string,
            (if truthy (if truthy i && arScene st then None else i) && arScene st
             then flat_map (fun i => [RemoveEntity i; RemoveElement i])
                    (option_list (if truthy i && arScene st then None else i))
             else []) = []).
  { intros i. destruct (arScene st); rewrite ?andb_false_r; [|reflexivity].
    rewrite !andb_true_r. destruct (truthy i) eqn:Hi; [reflexivity|].
    rewrite Hi. reflexivity. }
  rewrite !Hside. cbn [app]. destruct (arScene st && sceneEl st); reflexivity.
Qed.

Lemma last_cons_default {A} (l : list A) a d d' :
  List.last (a :: l) d = List.last (a :: l) d'.
Proof.
  revert a. induction l as [|b l IH]; intros a; [reflexivity|].
  change (List.last (b :: l) d = List.last (b :: l) d'). apply IH.
Qed.

Lemma last_app_default {A} (l1 l2 : list A) d :
  List.last (l1 ++ l2) d = List.last l2 (List.last l1 d).
Proof.
  revert d. induction l1 as [|a l1 IH]; intros d; [reflexivity|].
  destruct l1 as [|b l1].
  - destruct l2 as [|c l2]; [reflexivity|].
    change (List.last (c :: l2) d = List.last (c :: l2) a).
    apply last_cons_default.
  - change (List.last ((b :: l1) ++ l2) d = List.last l2 (List.last (b :: l1) d)).
    apply IH.
Qed.

Lemma movedTo_app c1 c2 : movedTo (c1 ++ c2) = movedTo c1 ++ movedTo c2.
Proof. apply flat_map_app. Qed.

Lemma added_app c1 c2 : added (c1 ++ c2) = added c1 ++ added c2.
Proof. apply flat_map_app. Qed.

Lemma removed_app c1 c2 : removed (c1 ++ c2) = removed c1 ++ removed c2.
Proof. apply flat_map_app. Qed.

(** One key press keeps the stored position of the correct entity and
    the position given to the scene together. *)
Lemma handler_tracking onLeft l r other m key st :
  l <> r ->
  tracking onLeft l r other m st ->
  let st' := (handler key st).1 in
  let calls := (handler key st).2 in
  tracking onLeft l r other m st'
  /\ arScene st' = arScene st /\ sceneEl st' = sceneEl st /\ base st' = base st
  /\ canUpdatePosition st' = canUpdatePosition st
  /\ added calls = [] /\ removed calls = []
  /\ ((movedTo calls = []
       /\ (canUpdatePosition st = true -> correctEntityPos st' = correctEntityPos st))
      \/ (canUpdatePosition st = true
          /\ movedTo calls = [(if onLeft then l else r, correctEntityPos st')])).
Proof.
  intros Hne (Hid & Hrefs) st' calls. subst st' calls. unfold handler.
  destruct (negb (truthy (correctEntityId st)) || negb (arScene st)) eqn:Hg.
  { cbn. repeat split; try assumption. left. split; reflexivity. }
  destruct (ARScreen.moved _) eqn:Hm.
  2:{ cbn. repeat split; try assumption. left. split; reflexivity. }
  cbn [fst snd]. unfold withRefs, tracking.
  cbn [correctEntityId correctEntityPos refs arScene sceneEl base canUpdatePosition].
  rewrite Hid, Hrefs. cbn [entityLeft entityRight posLeft posRight entityIdToAnimal option_list map app].
  split.
  { split; [reflexivity|].
    destruct onLeft.
    - rewrite bool_decide_eq_true_2 by reflexivity. reflexivity.
    - rewrite bool_decide_eq_false_2 by congruence.
      rewrite bool_decide_eq_true_2 by reflexivity. reflexivity. }
  repeat (split; [reflexivity|]).
  destruct (canUpdatePosition st); cbn [app map].
  - split; [reflexivity|]. split; [reflexivity|]. right. split; reflexivity.
  - split; [reflexivity|]. split; [reflexivity|]. left.
    split; [reflexivity | discriminate].
Qed.

Lemma presses_tracking onLeft l r other m keys :
  l <> r ->
  forall st,
  tracking onLeft l r other m st ->
  let st' := (presses keys st).1 in
  let calls := (presses keys st).2 in
  tracking onLeft l r other m st'
  /\ arScene st' = arScene st /\ sceneEl st' = sceneEl st /\ base st' = base st
  /\ canUpdatePosition st' = canUpdatePosition st
  /\ added calls = [] /\ removed calls = []
  /\ Forall (fun mv => mv.1 = (if onLeft then l else r)) (movedTo calls)
  /\ (canUpdatePosition st = true ->
      List.last (map snd (movedTo calls)) (correctEntityPos st) = correctEntityPos st')
  /\ (canUpdatePosition st = false -> movedTo calls = []).
Proof.
  intros Hne. induction keys as [|k ks IH]; intros st Ht.
  - cbn. repeat split; try assumption; try apply Ht. apply List.Forall_nil.
  - cbn [presses]. unfold andThen. cbn [fst snd].
    destruct (handler_tracking onLeft l r other m k st Hne Ht)
      as (Ht1 & A1 & S1 & B1 & C1 & Ad1 & R1 & Hmv).
    destruct (IH _ Ht1) as (Ht2 & A2 & S2 & B2 & C2 & Ad2 & R2 & F2 & L2 & N2).
    split; [exact Ht2|].
    split; [congruence|]. split; [congruence|]. split; [congruence|].
    split; [congruence|].
    rewrite added_app, removed_app, movedTo_app, Ad1, Ad2, R1, R2.
    split; [reflexivity|]. split; [reflexivity|].
    rewrite map_app, last_app_default.
    destruct Hmv as [(-> & Hsame)|(Hcan & ->)].
    + split; [exact F2|]. cbn [map List.last app].
      split.
      * intros Hcan. rewrite <- (Hsame Hcan). apply L2. congruence.
      * intros Hcan. apply N2. congruence.
    + split; [apply List.Forall_app; split;
              [apply List.Forall_cons; [reflexivity|apply List.Forall_nil] | exact F2]|].
      cbn [map List.last snd].
      split; [intros _; apply L2; congruence | congruence].
Qed.

Section Circles.

Variable Camera : Type.
Variable project : Camera -> Vec3 -> Vec3.

(** The circles of two stored entities with their positions. *)
Lemma circles_of_two l r pl pr m cv cam :
  l <> "" -> r <> "" ->
  worldPositionsToScreenPositions Camera project true
    {| entityLeft := Some l; entityRight := Some r;
       posLeft := Some pl; posRight := Some pr; entityIdToAnimal := m |}
    (Some cv) (Some cam)
  = [ {| x := (onCanvas cv (project cam pl)).1;
         y := (onCanvas cv (project cam pl)).2;
         key := l; color := "rgba(33, 99, 255, 0.6)";
         animalName := default (Animal ARScreen.gato) (getProperty m l);
         screenPxRadius := ANIMAL_SCREEN_RADIUS; entityId := l |};
      {| x := (onCanvas cv (project cam pr)).1;
         y := (onCanvas cv (project cam pr)).2;
         key := r; color := "rgba(145, 200, 255, 0.6)";
         animalName := default (Animal ARScreen.gato) (getProperty m r);
         screenPxRadius := ANIMAL_SCREEN_RADIUS; entityId := r |} ].
Proof.
  intros Hl Hr.
  unfold worldPositionsToScreenPositions, animalsToCheck, pushCircle.
  cbn [fold_left id pos slotColor entityLeft entityRight posLeft posRight
       entityIdToAnimal].
  rewrite (ARScreenFacts.truthy_nonempty l), (ARScreenFacts.truthy_nonempty r)
    by assumption.
  reflexivity.
Qed.

(** X11. After a spawn in a ready scene the overlay has one circle for
    each of the two entities added, left then right, at the projections of
    the two spawn positions; with two different ids each circle carries
    the animal its entity was given in [data-animal], and the circle of
    the entity stored as the correct one carries the round's animal.
    When [addEntity] returns the same id twice, both circles carry the
    animal of the right entity. *)
Theorem spawn_then_circles st o c w cv cam :
  arScene st = true -> sceneEl st = true ->
  ARScreen.leftId o <> "" -> ARScreen.rightId o <> "" ->
  let st' := (spawnAnimals true o c w st).1 in
  let calls := (spawnAnimals true o c w st).2 in
  let res := worldPositionsToScreenPositions Camera project true (refs st')
               (Some cv) (Some cam) in
  let ln := if ARScreen.correctOnLeft o then c else w in
  let rn := if ARScreen.correctOnLeft o then w else c in
  map entityId res = [ARScreen.leftId o; ARScreen.rightId o]
  /\ map (fun k => (x k, y k)) res
     = [onCanvas cv (project cam leftPos); onCanvas cv (project cam rightPos)]
  /\ map (fun a => (a.2, ARScreen.data_animal a.1, ARScreen.position a.1))
         (added calls)
     = [(ARScreen.leftId o, ln, leftPos); (ARScreen.rightId o, rn, rightPos)]
  /\ (ARScreen.leftId o <> ARScreen.rightId o ->
      map animalName res = [Animal ln; Animal rn]
      /\ exists k, In k res /\ correctEntityId st' = Some (entityId k)
                   /\ animalName k = Animal c)
  /\ (ARScreen.leftId o = ARScreen.rightId o ->
      map animalName res = [Animal rn; Animal rn]).
Proof.
  intros Ha Hs Hl Hr st' calls res ln rn.
  destruct (spawnAnimals_ready st o c w Ha Hs) as (la & ra & Hla & Hra & H1 & H2).
  subst st' calls res. rewrite H1, H2. unfold withRefs. cbn [refs correctEntityId].
  rewrite (circles_of_two _ _ _ _ _ cv cam Hl Hr).
  cbn [map entityId x y animalName]. rewrite Hla, Hra. fold ln rn.
  split; [reflexivity|].
  split; [unfold onCanvas; reflexivity|].
  split.
  { unfold added. rewrite flat_map_app.
    fold (added (clearAnimals st).2). rewrite clearAnimals_added.
    cbn. rewrite Hla, Hra. reflexivity. }
  split.
  - intros Hne. unfold getProperty. rewrite lookup_insert_ne by congruence.
    rewrite lookup_singleton_eq, lookup_insert_eq. cbn [default].
    split; [reflexivity|].
    destruct (ARScreen.correctOnLeft o) eqn:Hside; subst ln rn.
    + eexists. split; [left; reflexivity|].
      cbn [entityId animalName]. split; reflexivity.
    + eexists. split; [right; left; reflexivity|].
      cbn [entityId animalName]. split; reflexivity.
  - intros ->. unfold getProperty. rewrite lookup_insert_eq. reflexivity.
Qed.

(** X12. After [clearAnimals] the overlay is empty whatever was stored,
    also when the scene ref is missing and the ids stay; no entity is
    stored as the correct one, so the keys move nothing, and a second
    clear asks the scene for no removal.  The same holds after a spawn
    that finds the scene ref but no scene element: it has cleared and
    adds nothing. *)
Theorem clear_empties_overlay st three canvas camObj key o c w :
  let st' := (clearAnimals st).1 in
  worldPositionsToScreenPositions Camera project three (refs st') canvas camObj = []
  /\ correctEntityId st' = None
  /\ entityIdToAnimal (refs st') = ∅
  /\ handler key st' = (st', [])
  /\ added (clearAnimals st).2 = []
  /\ removed (clearAnimals st').2 = []
  /\ (arScene st = true -> sceneEl st = false ->
      (spawnAnimals true o c w st).1 = st'
      /\ added (spawnAnimals true o c w st).2 = []
      /\ removed (spawnAnimals true o c w st).2 = removed (clearAnimals st).2).
Proof.
  intros st'. subst st'.
  split.
  { unfold worldPositionsToScreenPositions.
    destruct canvas as [cv|]; [|reflexivity].
    destruct three; [|reflexivity]. destruct camObj as [cam|]; [|reflexivity].
    unfold animalsToCheck, pushCircle, clearAnimals, withRefs.
    cbn [fold_left id pos fst refs posLeft posRight entityLeft entityRight].
    repeat match goal with
           | |- context [match (if ?b then _ else _) with _ => _ end] => destruct b
           | |- context [match entityLeft ?r with _ => _ end] => destruct (entityLeft r)
           | |- context [match entityRight ?r with _ => _ end] => destruct (entityRight r)
           end; reflexivity. }
  split; [reflexivity|]. split; [reflexivity|].
  split; [reflexivity|].
  split; [apply clearAnimals_added|].
  split; [apply clearAnimals_removed_again|].
  intros Ha Hs. unfold spawnAnimals. rewrite Ha. cbn [negb orb].
  unfold andThen, emit. cbn [fst snd].
  replace (sceneEl (clearAnimals st).1) with false
    by (unfold clearAnimals, withRefs; cbn; congruence).
  cbn [negb fst snd].
  rewrite added_app, removed_app, clearAnimals_added.
  split; [reflexivity|]. split; [reflexivity|]. cbn. apply app_nil_r.
Qed.

(** X13. Key presses after a spawn with two different ids keep the
    overlay on the entities: the circles keep their ids and animals, the
    circle of the correct entity is at the projection of
    [correctEntityPos] and the other one stays at the projection of its
    spawn position; no entity is added or removed.  Every move asked of
    the scene is for the correct entity; when the scene object has the
    [updateEntityPosition] method the last move is to
    [correctEntityPos], and when it has not no move is asked at all,
    while the circle moves all the same. *)
Theorem keys_move_circle st o c w keys cv cam :
  arScene st = true -> sceneEl st = true ->
  ARScreen.leftId o <> "" -> ARScreen.rightId o <> "" ->
  ARScreen.leftId o <> ARScreen.rightId o ->
  let onLeft := ARScreen.correctOnLeft o in
  let st1 := (spawnAnimals true o c w st).1 in
  let st2 := (presses keys st1).1 in
  let calls := (presses keys st1).2 in
  let res := worldPositionsToScreenPositions Camera project true (refs st2)
               (Some cv) (Some cam) in
  map (fun k => (entityId k, animalName k)) res
  = [(ARScreen.leftId o, Animal (if onLeft then c else w));
     (ARScreen.rightId o, Animal (if onLeft then w else c))]
  /\ map (fun k => (x k, y k)) res
     = (if onLeft
        then [onCanvas cv (project cam (correctEntityPos st2));
              onCanvas cv (project cam rightPos)]
        else [onCanvas cv (project cam leftPos);
              onCanvas cv (project cam (correctEntityPos st2))])
  /\ correctEntityId st2 = Some (if onLeft then ARScreen.leftId o else ARScreen.rightId o)
  /\ Forall (fun mv => mv.1 = (if onLeft then ARScreen.leftId o else ARScreen.rightId o))
            (movedTo calls)
  /\ (canUpdatePosition st = true ->
      List.last (map snd (movedTo calls)) (if onLeft then leftPos else rightPos)
      = correctEntityPos st2)
  /\ (canUpdatePosition st = false -> movedTo calls = [])
  /\ added calls = [] /\ removed calls = [].
Proof.
  intros Ha Hs Hl Hr Hne onLeft st1 st2 calls res.
  destruct (spawnAnimals_ready st o c w Ha Hs) as (la & ra & Hla & Hra & H1 & _).
  fold onLeft in Hla, Hra, H1. fold st1 in H1.
  assert (Ht : tracking onLeft (ARScreen.leftId o) (ARScreen.rightId o)
                 (if onLeft then rightPos else leftPos)
                 (<[ ARScreen.rightId o := ARScreen.name ra ]>
                    {[ ARScreen.leftId o := ARScreen.name la ]}) st1).
  { rewrite H1. unfold tracking, withRefs. cbn [correctEntityId refs correctEntityPos].
    split; [reflexivity|]. destruct onLeft; reflexivity. }
  assert (Hpos : correctEntityPos st1 = (if onLeft then leftPos else rightPos))
    by (rewrite H1; reflexivity).
  assert (Hcan : canUpdatePosition st1 = canUpdatePosition st)
    by (rewrite H1; reflexivity).
  destruct (presses_tracking onLeft _ _ _ _ keys Hne st1 Ht)
    as ((Hid & Hrefs) & _ & _ & _ & _ & Had & Hrm & Hall & Hlast & Hnone).
  fold st2 in Hid, Hrefs, Hlast. fold calls in Had, Hrm, Hall, Hlast, Hnone.
  rewrite Hpos, Hcan in Hlast. rewrite Hcan in Hnone.
  subst res. rewrite Hrefs, (circles_of_two _ _ _ _ _ cv cam Hl Hr).
  cbn [map entityId animalName x y]. unfold getProperty.
  rewrite lookup_insert_ne by congruence.
  rewrite lookup_singleton_eq, lookup_insert_eq. cbn [default].
  rewrite Hla, Hra.
  split; [destruct onLeft; reflexivity|].
  split; [destruct onLeft; unfold onCanvas; reflexivity|].
  repeat (split; [assumption|]). assumption.
Qed.

End Circles.

Lemma spawn_then_circles_witness :
  map (fun k => (entityId k, animalName k))
      (worldPositionsToScreenPositions unit (fun _ v => v) true
         (refs (spawnAnimals true ARScreen.sampleOracle ARScreen.vaca ARScreen.porco
                  emptyStage).1)
         (Some sampleCanvas) (Some tt))
  = [("animal-3", Animal ARScreen.vaca); ("animal-4", Animal ARScreen.porco)].
Proof.
  destruct (spawn_then_circles unit (fun _ v => v) emptyStage ARScreen.sampleOracle
              ARScreen.vaca ARScreen.porco sampleCanvas tt)
    as (Hids & _ & _ & Hnames & _);
    [reflexivity | reflexivity | discriminate | discriminate |].
  destruct Hnames as (Hnames & _); [discriminate|].
  set (res := worldPositionsToScreenPositions _ _ _ _ _ _) in *.
  destruct res as [|k1 [|k2 [|k3 res]]]; try discriminate.
  cbn [map] in *. injection Hids as -> ->. injection Hnames as -> ->.
  reflexivity.
Defined.

Lemma clear_empties_overlay_witness :
  worldPositionsToScreenPositions unit (fun _ v => v) true
    (refs (clearAnimals (withRefs sampleRefs (Some "animal-1") leftPos emptyStage)).1)
    (Some sampleCanvas) (Some tt) = []
  /\ removed (clearAnimals (withRefs sampleRefs (Some "animal-1") leftPos emptyStage)).2
     = ["animal-1"; "animal-2"].
Proof.
  destruct (clear_empties_overlay unit (fun _ v => v)
              (withRefs sampleRefs (Some "animal-1") leftPos emptyStage)
              true (Some sampleCanvas) (Some tt) "w"
              ARScreen.sampleOracle ARScreen.vaca ARScreen.porco)
    as (Hnone & _).
  split; [exact Hnone | reflexivity].
Defined.

Lemma keys_move_circle_witness :
  (map snd
     (movedTo (presses ["w"; "x"; "ArrowUp"]
                 (spawnAnimals true ARScreen.sampleOracle ARScreen.vaca ARScreen.porco
                    emptyStage).1).2)
   <> []
   /\ Forall (fun mv => mv.1 = "animal-3")
        (movedTo (presses ["w"; "x"; "ArrowUp"]
                    (spawnAnimals true ARScreen.sampleOracle ARScreen.vaca ARScreen.porco
                       emptyStage).1).2))
  /\ movedTo (presses ["w"; "x"; "ArrowUp"]
                (spawnAnimals true ARScreen.sampleOracle ARScreen.vaca ARScreen.porco
                   bareStage).1).2 = []
  /\ correctEntityPos
       (presses ["w"; "x"; "ArrowUp"]
          (spawnAnimals true ARScreen.sampleOracle ARScreen.vaca ARScreen.porco
             bareStage).1).1
     <> leftPos.
Proof.
  split.
  - split; [vm_compute; discriminate|].
    destruct (keys_move_circle unit (fun _ v => v) emptyStage ARScreen.sampleOracle
                ARScreen.vaca ARScreen.porco ["w"; "x"; "ArrowUp"] sampleCanvas tt)
      as (_ & _ & _ & Hall & _);
      [reflexivity | reflexivity | discriminate | discriminate | discriminate |].
    exact Hall.
  - split.
    + destruct (keys_move_circle unit (fun _ v => v) bareStage ARScreen.sampleOracle
                  ARScreen.vaca ARScreen.porco ["w"; "x"; "ArrowUp"] sampleCanvas tt)
        as (_ & _ & _ & _ & _ & Hnone & _);
        [reflexivity | reflexivity | discriminate | discriminate | discriminate |].
      apply Hnone. reflexivity.
    + vm_compute. discriminate.
Defined.

End CircleOverlaySpawn.
